(* ===== verification/_CoqProject ===== *)
-Q . S2P
Prelude.v
Order.v
Double.v
Rng.v
Distributions.v
DoubleOrder.v
Benchmark.v
MemoryPool.v
PriceLevels.v
OrderBook.v
BookInvariant.v
WfCheck.v
Matching.v
ProcessOrder.v
Cancel.v
Refinement.v
Simulator.v
Main.v
Seeded.v
Scenarios.v
Findings.v
Witnesses.v
