(* ===== verification/Prelude.v ===== *)
(** * A verified model of the limit-order-book simulator

    This development models, in Rocq, the C++ program of the repository
    [limit-order-book-sim] (directory [src/src/]) and proves the
    properties that make its matching engine correct.

    ** The program
    - [Order] ([Order.h]): the order record (id, timestamp, price,
      remaining [uint32_t] quantity, side, type) with the [next_free]
      link the pool threads through free slots.
    - [MemoryPool] ([MemoryPool.h], [MemoryPool.cpp]): a slab of
      [capacity] slots allocated once.  The constructor threads every
      slot into a singly linked free list; [allocate] pops its head (or
      returns [nullptr]), [deallocate] pushes a slot back.
    - [OrderBook] ([OrderBook.h], [OrderBook.cpp]): two price-level maps,
      [bids_] ([std::map] ordered by [std::greater<double>]) and [asks_]
      (ordered by [<]), from price to a FIFO [std::deque<Order*>]; the
      [id_map_] hash map from id to record; the pool; the counter
      [active_orders_].  [processOrder] takes a slot, matches the order
      against the opposite side ([matchLimitOrder] with a price gate,
      [matchMarketOrder] without), then rests a LIMIT remainder
      ([addToBook], [id_map_], [++active_orders_]) or releases the slot.
      [cancelOrder] looks an id up and removes its record.
    - [Simulator] and [main]: draw random orders from a seeded
      [std::mt19937_64] through three standard distributions, feed them
      to [processOrder] with increasing ids, print the elapsed time, the
      throughput and the final count; [Benchmark] is the timer around
      the run, reading [std::chrono::high_resolution_clock].

    ** The files
    - [Prelude] (this file): the [uint32_t] and [size_t] arithmetic of
      the code written with its wrap-around ([u32_sub], [size_inc],
      [size_dec]), the tactics, the hint databases, list lemmas.
    - [Order]: [Side], [OType], the record [Order.t] and its constructor
      [Order.make], [Fill.t].  Prices are an abstract type [P] with the
      code's [<] as a bool function (class [PriceLt]); class
      [StrictWeakOrder] states what [std::map] requires of a comparator;
      [Z] (prices in ticks) is an instance.
    - [Double]: C++ [double] as the kernel's primitive IEEE 754 [float]
      (its [<] is a [PriceLt] instance, which NaN keeps from being a
      strict weak order), and [of_Z], the conversion of a 64-bit integer
      to [double], rounding to nearest even.
    - [Rng]: [std::mt19937_64] (module [MT19937_64]): its state
      ([_M_x] as a list of 312 words, [_M_p]), [seed], the in-place
      twist [gen_rand] and [next], [operator()] with the tempering, the
      [uint64_t] wrap-around written out; the invariant [wf] that [seed]
      establishes and [next] keeps; [engine_words_bounded]: for every
      seed and after any number of calls the state and the next output
      stay [uint64_t]; and, as a computed check, the standard's
      10000th-output requirement and the first outputs for the seed
      [main] uses, those of the compiled library
      ([mt19937_64_conformance]).
    - [Distributions]: the libstdc++ 12 code of
      [generate_canonical<double, 53>], [uniform_real_distribution],
      [bernoulli_distribution] and [uniform_int_distribution<uint32_t>]
      (Lemire's [_S_nd] with its rejection loop [nd_while]);
      [uniform_int_range]: an integer draw lies in its interval.
    - [DoubleOrder]: [nnfloat], the doubles that are not NaN, with the
      code's [<]; the instance [nnfloat_order]: on them [<] is a strict
      weak order (the order of an integer [rank] of the encoding), the
      counterpart of the NaN finding; and no operation that computes a
      simulator price can give NaN ([uniform_real_not_nan], from the
      [FloatAxioms] specifications of the primitive operations).
    - [Benchmark]: the timer, its two time points as nanosecond counts
      of the clock, [start], [stop] and [elapsedMilliseconds]; each
      reading of the clock is an input.
    - [MemoryPool]: the pool as a record (a pointer is a slot index,
      [nullptr] is [None]) with [create] (its raw block holds
      [block_slots capacity] slots, the byte count [capacity *
      sizeof(Order)] wrapping in [size_t], and its loop is [thread]),
      [allocate], [deallocate] and the destructor [destroy] as written.  The predicate [free_chain]
      relates the [next_free] links to a stack of free indices; the class
      [SlabAllocator] is the allocator interface, with the abstract stack
      and the linked pool as instances; [pool_trace_refines] shows that
      on every legitimate call sequence the pool returns what the stack
      returns, and [deallocate_allocate] that handing back the slot
      [allocate] returned restores the pool exactly.
    - [PriceLevels]: [std::map<price, std::deque<Order*>, Cmp>] as an
      association list sorted by [Cmp], with [find], [erase], the update
      of a deque, and [operator[]] followed by [push_back], keys being
      compared by the map's equivalence; their lemmas (sortedness, the
      records they keep, FIFO append).
    - [OrderBook]: the state of [OrderBook] as a record and the matching
      functions: [match_front] is one iteration of the four copies of the
      loop body, [match_loop] the loop of a side (gated or not), then
      [matchLimitOrder], [matchMarketOrder], [addToBook], [restOrder]
      (lines 45-48 of [processOrder]), [totalActiveOrders], [create].
    - [BookInvariant]: the invariant [inv b F live] (every slot is free,
      held by the caller, or resting; sides sorted with no empty level;
      every resting record a positive LIMIT order of its side at a price
      equivalent to its level's key; [id_map_] the exact index of the
      resting ids, which are distinct; the counter) and its preservation
      by each state change; [wf] is the invariant between calls.
    - [WfCheck]: [wfb], an executable check of [wf] (a walk of the free
      list bounded by the capacity, then a boolean test per field of the
      invariant), and [wfb_correct]: it decides [wf].
    - [Matching]: the loop's specification: with the fuel it gets it
      always finishes on a well-formed book, keeps the invariant,
      conserves quantity and respects the gate; the first fill trades
      the front of the best level and the fills follow the side's
      queue in priority order; what the fills trade is exactly what
      leaves the opposite side's [liquidity] at the accepted prices.
    - [ProcessOrder]: [processOrder] and the fuel [match_fuel]; its
      theorems (well-formedness, conservation against the submitted
      quantity and against the opposite side's liquidity, price gate, price-time
      priority, resting at the back, no rest without remainder, a full
      pool rejecting, progress: an order that can trade gets a fill).
    - [Cancel]: [cancelOrder] and its theorems (well-formedness, result
      and effect, the queues losing exactly the cancelled record,
      cancelling twice).
    - [Refinement]: the specification's abstract book (each side a list
      of (id, price, quantity) entries in priority order) with its
      operations [amatch], [ainsert], [asubmit] and [acancel]; the
      abstraction [abstr] of a concrete book, which reads every resting
      slot level by level.  [processOrder_refines] and
      [cancelOrder_refines] show that one call of the code computes the
      abstract operation on [abstr]; [exec_refines] lifts them to a
      client session (a list of [SubmitOp]/[CancelOp] calls, [exec] on
      the book and [aexec] on the abstract book of the same capacity),
      a simulation: the replies agree call by call and the final books
      correspond.  These three assume, as the section hypothesis
      [price_total], that price equivalence is equality, which holds of
      integer prices such as [Z] ticks and not of [double] (its two
      zeros are equivalent, and [std::map] merges them into one level).
      [session_quantities] needs no such hypothesis: over any session
      whose ids are never reused, the book stays well formed and every
      resting quantity is positive and fits in [uint32_t].
    - [Simulator]: [Simulator::run] over a list of drawn values: the
      loop ([run_one], [run]) and the timed run with its report
      ([run_timed]); a run never gets stuck; with a slot per order (the
      defaults of [main]) the free list is never empty when an iteration
      allocates ([run_never_full]); and, composed with [Refinement] and
      under its hypothesis [price_total], the run is the specification's
      session of its submissions ([session], [run_refines]), the
      simulator's ids being always fresh.
    - [Main]: [main] and its argument parsing ([parse_args],
      [main_argv]), returning the values it prints, on draws given as a
      function of the iteration; it runs to the end, prints a count
      bounded by the capacity, or nothing when an argument does not
      convert.
    - [Seeded]: [class Simulator] whole: [rng_], the parameters of its
      distributions, the constructor with the default seed 42, and
      [run] with the four draws of each iteration ([draw_one]) taken
      before its [processOrder]; [main] with the seed 12345.
      The interleaved loop is the run of [Simulator] on the generator's
      draws computed first ([run_draws]); [main_terminates]: with
      [nnfloat] prices, when the draws return within the fuel, the
      program is the [main] of [Main] on those draws, whose sizes lie in
      [[1, 1000]], so it runs to the end and prints a count bounded by
      the capacity.  As a computed check, the model prints the final
      counts the compiled program prints ([main_matches_program]).
    - [Scenarios]: the example scenarios of the specification, computed.
    - [Findings]: id reuse followed by a cancel corrupts the book and
      makes the next matching loop run forever; a pool capacity whose
      byte count wraps around [2^64] gives the constructor a block
      smaller than the pool; a NaN price breaks the comparator and
      passes the gate; the throughput [run] prints is infinite, NaN or
      negative when the clock does not advance or steps back.
    - [Witnesses]: each theorem with hypotheses applied to a concrete
      book.

    ** Fuel and bounds
    [match_loop] is fuelled because the C++ loop need not terminate on a
    corrupt book ([Findings] exhibits one).  [processOrder] gives it
    [S (level_weight levels)], one more than the number of levels plus
    resting records of the opposite side: each iteration either retires
    the front record (the weight drops) or exhausts the incoming order
    (the next test stops the loop), so the fuel suffices on every
    well-formed book ([match_loop_spec], and [processOrder_wf] that it
    returns), and a larger fuel gives the same result
    ([match_loop_fuel_mono]), so the model computes the unbounded loop.  Quantities are [uint32_t]: the theorems assume the
    submitted quantity is below [2^32], and the invariant shows no
    subtraction wraps.  The counter and the ids are 64-bit: the
    theorems assume that the byte count of the pool, [capacity * 48],
    and the number of ids used stay below [2^64] ([Findings] shows what
    the constructor does otherwise).  The rejection loop of
    [uniform_int_distribution] ([nd_while]) is fuelled because whether
    it stops depends on the engine's outputs (it redraws while an output
    falls among the 616 of [2^64] that [-1000 mod 1000] rejects); more
    fuel gives the same result ([uniform_int_fuel_mono]), and the runs
    computed in [Seeded] need none (fuel 0).

    ** Not modelled
    The random generator is library code; it is modelled in [Rng] and
    [Distributions] (from the standard and the libstdc++ 12 sources),
    and [Simulator] and [Main] also take its draws as an input, since
    their theorems hold for any draws.  [std::stoull] is a parameter that may throw; the clock's readings
    are inputs; the formatting of the console output is not modelled;
    [::operator new[]] is taken to succeed (it may throw
    [std::bad_alloc] on a large byte count).  Prices are of an abstract
    type [P]; the theorems hold for any [P] whose [<] is a strict weak
    order (such as [Z] ticks, or the non-NaN doubles of [DoubleOrder]);
    [Seeded] runs the code on those doubles and [Findings] on all
    doubles, NaN included.
    Undefined behaviour of the C++ code on a corrupt state (reading a
    slot out of range, [front] of an empty deque) gets an arbitrary
    defined value, which the invariant rules out. *)

From stdpp Require Export base list gmap.
From Stdlib Require Export ZArith Lia.

Declare Scope lob_scope.
Delimit Scope lob_scope with lob.
Local Open Scope Z_scope.

(** ** Machine integers of the code *)

(** [a -= b] on [uint32_t]: subtraction modulo 2^32. *)
Definition u32_sub (a b : Z) : Z := (a - b) mod 2 ^ 32.

(** [++n] and [--n] on [size_t]. *)
Definition size_inc (a : Z) : Z := (a + 1) mod 2 ^ 64.
Definition size_dec (a : Z) : Z := (a - 1) mod 2 ^ 64.

Infix "⊖" := u32_sub (at level 50, left associativity) : lob_scope.

(** ** Tactics *)

(** [invc H]: invert, clear and substitute. *)
Ltac invc H := inversion H; clear H; subst.

(** ** Lemmas on machine integers *)

Lemma u32_sub_nowrap a b : 0 <= b <= a -> a < 2 ^ 32 -> u32_sub a b = a - b.
Proof. intros. unfold u32_sub. apply Z.mod_small. lia. Qed.

Lemma size_inc_nowrap a : 0 <= a -> a + 1 < 2 ^ 64 -> size_inc a = a + 1.
Proof. intros. unfold size_inc. apply Z.mod_small. lia. Qed.

Lemma size_dec_nowrap a : 0 < a < 2 ^ 64 -> size_dec a = a - 1.
Proof. intros. unfold size_dec. apply Z.mod_small. lia. Qed.

(** ** Generic list lemmas *)

Lemma NoDup_app_disjoint {A} (l1 l2 : list A) x : NoDup (l1 ++ l2) -> x ∈ l1 -> x ∉ l2.
Proof. rewrite NoDup_app. intros (_ & Hd & _). apply Hd. Qed.

Lemma NoDup_app_r {A} (l1 l2 : list A) : NoDup (l1 ++ l2) -> NoDup l2.
Proof. rewrite NoDup_app. tauto. Qed.

(** An injective-on-[l] reading of [NoDup (f <$> l)]. *)
Lemma NoDup_fmap_inj_on {A B} (f : A -> B) (l : list A) x y :
  NoDup (f <$> l) -> x ∈ l -> y ∈ l -> f x = f y -> x = y.
Proof.
  induction l as [|a l IH]; simpl; [set_solver|]. rewrite NoDup_cons.
  intros [Hn Hd] Hx Hy Hf. apply elem_of_cons in Hx, Hy.
  destruct Hx as [->|Hx], Hy as [->|Hy]; auto.
  - destruct Hn. rewrite Hf. by apply list_elem_of_fmap_2.
  - destruct Hn. rewrite <- Hf. by apply list_elem_of_fmap_2.
Qed.

(** ** Automation *)

(** The hint database of the development: the side conditions the
    proofs about books meet again and again (a slot in range, a slot
    owned by the caller) are added to it where their lemmas are. *)
(** [filter] keeps a list whose elements all pass. *)
Lemma filter_all {A} (Q : A -> Prop) `{!forall x, Decision (Q x)} (l : list A) :
  Forall Q l -> filter Q l = l.
Proof. induction 1 as [|x l Hx _ IH]; [done|]. by rewrite filter_cons_True, IH. Qed.

(** [filter] removes exactly position [i] when its element is the only
    one that fails. *)
Lemma filter_delete {A} (Q : A -> Prop) `{!forall x, Decision (Q x)} (l : list A) i x :
  l !! i = Some x -> ~ Q x -> (forall j y, l !! j = Some y -> j <> i -> Q y) ->
  filter Q l = delete i l.
Proof.
  revert i. induction l as [|y l IH]; intros [|i] Hx Hn Hall; simplify_eq/=.
  - rewrite filter_cons_False by done. apply filter_all, Forall_lookup.
    intros j z Hz. by apply (Hall (S j)).
  - rewrite filter_cons_True by (by apply (Hall 0%nat)). f_equal.
    apply (IH i); [done|done|]. intros j z Hz Hj. apply (Hall (S j)); [done|lia].
Qed.

(** [forallb] reflects [Forall] of a predicate it decides. *)
Lemma forallb_Forall {A} (f : A -> bool) (Q : A -> Prop) (l : list A) :
  (forall x, f x = true <-> Q x) -> forallb f l = true <-> Forall Q l.
Proof.
  intros Hf. induction l as [|x l IH]; simpl; [split; constructor|].
  by rewrite andb_true_iff, Forall_cons, Hf, IH.
Qed.

(** A list is a permutation of [0 .. n-1] exactly when it has [n]
    distinct elements, all below [n]. *)
Lemma perm_seq_iff (l : list nat) n :
  l ≡ₚ seq 0 n <-> NoDup l /\ Forall (fun h => h < n)%nat l /\ length l = n.
Proof.
  split.
  - intros Hp. rewrite Hp. split_and!; [apply NoDup_seq| |apply length_seq].
    apply Forall_forall. intros x Hx%elem_of_seq. lia.
  - intros (Hnd & Hlt & Hlen). apply submseteq_length_Permutation; [|by rewrite length_seq, Hlen].
    apply NoDup_submseteq; [done|]. intros x Hx. rewrite elem_of_seq.
    rewrite Forall_forall in Hlt. specialize (Hlt x Hx). lia.
Qed.

Create HintDb lob discriminated.
#[export] Hint Resolve list_elem_of_here : lob.
