(* ===== verification/Order.v ===== *)
(** * Orders, fills and prices

    The data of [src/src/Order.h] (the order record, its [Side] and
    [Type] enumerations and its constructor) and of [OrderBook::Fill]
    ([src/src/OrderBook.h]).  Prices are kept abstract: a type [P] with
    the comparison [<] the code applies to them (class [PriceLt]); the
    class [StrictWeakOrder] states what [std::map] requires of its
    comparator, and [Z] is an instance of it. *)

From S2P Require Import Prelude.
Local Open Scope Z_scope.

(** ** Enumerations *)

(** [enum class Side { BUY, SELL }] *)
Inductive Side := BUY | SELL.

(** [enum class Type { MARKET, LIMIT }] *)
Inductive OType := MARKET | LIMIT.

#[export] Instance Side_eq_dec : EqDecision Side.
Proof. solve_decision. Defined.
#[export] Instance OType_eq_dec : EqDecision OType.
Proof. solve_decision. Defined.

(** ** Prices *)

(** The comparison [a < b] of the code on prices. *)
Class PriceLt (P : Type) := price_lt : P -> P -> bool.

(** What [std::map] requires of a comparator [cmp]: a strict weak
    order (irreflexive, transitive, and incomparability transitive,
    stated as negative transitivity). *)
Class StrictWeakOrder {P : Type} (cmp : P -> P -> bool) : Prop := {
  swo_irrefl : forall a, cmp a a = false;
  swo_trans : forall a b c, cmp a b = true -> cmp b c = true -> cmp a c = true;
  swo_neg_trans : forall a b c, cmp a c = true -> cmp a b = true \/ cmp b c = true
}.

(** [std::greater<double>]: [a > b], i.e. [b < a]. *)
Definition greater {P} `{PriceLt P} (a b : P) : bool := price_lt b a.

(** Prices as fixed-point integers (ticks). *)
#[export] Instance Z_price_lt : PriceLt Z := Z.ltb.

#[export] Instance Z_price_order : StrictWeakOrder (price_lt (P:=Z)).
Proof.
  unfold price_lt, Z_price_lt. split; intros *.
  - apply Z.ltb_irrefl.
  - rewrite !Z.ltb_lt. lia.
  - rewrite !Z.ltb_lt. lia.
Qed.

(** The comparator of [bids_] is a strict weak order when [<] is. *)
#[export] Instance greater_order {P} `{PriceLt P} :
  StrictWeakOrder (price_lt (P:=P)) -> StrictWeakOrder (greater (P:=P)).
Proof.
  intros [Hi Ht Hn]. unfold greater. split.
  - auto.
  - intros a b c H1 H2. eauto.
  - intros a b c H1. destruct (Hn c b a H1); auto.
Qed.

(** ** The order record *)

Module Order.

(** [struct Order] (Order.h, lines 7-24).  A pointer [Order*] is the
    index of a slot of the pool; [nullptr] is [None]. *)
Record t {P : Type} := mk {
  id : Z;
  timestamp : Z;
  price : P;
  quantity : Z;
  side : Side;
  type : OType;
  next_free : option nat
}.
Arguments t : clear implicits.

(** The constructor [Order(_id, _timestamp, _price, _quantity, _side,
    _type)]: every field from its argument, [next_free] null. *)
Definition make {P} (id ts : Z) (price : P) (qty : Z) (s : Side) (ty : OType) : t P :=
  mk P id ts price qty s ty None.

Definition set_quantity {P} (o : t P) (q : Z) : t P :=
  mk P (id o) (timestamp o) (price o) q (side o) (type o) (next_free o).

Definition set_next_free {P} (o : t P) (n : option nat) : t P :=
  mk P (id o) (timestamp o) (price o) (quantity o) (side o) (type o) n.

End Order.

(** Raw storage from [operator new[]] holds no meaningful order; the
    model gives it this value. *)
#[export] Instance Order_inhabited {P} `{Inhabited P} : Inhabited (Order.t P) :=
  populate (Order.mk P 0 0 inhabitant 0 BUY MARKET None).

Module Fill.

(** [struct OrderBook::Fill] (OrderBook.h, lines 18-23). *)
Record t {P : Type} := mk {
  resting_id : Z;
  incoming_id : Z;
  quantity : Z;
  price : P
}.
Arguments t : clear implicits.

End Fill.

(** ** Lemmas on the record updates *)

Section OrderUpdates.
Context {P : Type}.

Lemma set_quantity_twice (o : Order.t P) a c :
  Order.set_quantity (Order.set_quantity o a) c = Order.set_quantity o c.
Proof. reflexivity. Qed.

Lemma set_quantity_self (o : Order.t P) : Order.set_quantity o (Order.quantity o) = o.
Proof. by destruct o. Qed.
End OrderUpdates.


Section StrictOrders.
Context {P : Type} (cmp : P -> P -> bool) `{!StrictWeakOrder cmp}.

(** A strict order is asymmetric. *)
Lemma swo_asym a b : cmp a b = true -> cmp b a = false.
Proof.
  intros Hab. destruct (cmp b a) eqn:Hba; [|done].
  pose proof (swo_trans a b a Hab Hba) as Haa. by rewrite swo_irrefl in Haa.
Qed.
End StrictOrders.
