(* ===== verification/Double.v ===== *)
(** * The C++ [double]

    The code computes with [double] in three places: prices (compared
    with [<] in the [std::map] comparators and in the price gate), the
    milliseconds the timer returns, and the throughput [Simulator::run]
    prints.  Here [double] is the kernel's primitive [float], IEEE 754
    binary64 with its rounding, infinities, signed zeros and NaN, so the
    model computes what the hardware computes.  [of_Z] is the conversion
    [(double)] of a [uint64_t] or [int64_t] (or of the count of a
    [std::chrono] duration): round to nearest, ties to even. *)

From Stdlib Require Import Floats Uint63.
From S2P Require Import Prelude Order.
Local Open Scope Z_scope.

Module Double.

#[export] Instance float_inhabited : Inhabited float := populate PrimFloat.zero.

(** [operator<] on [double]: false as soon as one side is NaN. *)
#[export] Instance float_price_lt : PriceLt float := PrimFloat.ltb.

(** [(double)z] for an integer [z] with [|z| < 2^63]: exact below [2^53];
    above, the 53 leading bits of [|z|] rounded to nearest, ties to even,
    then scaled back. *)
Definition of_Z (z : Z) : float :=
  let a := Z.abs z in
  let r := if a <? 2 ^ 53 then PrimFloat.of_uint63 (Uint63.of_Z a)
           else let e := Z.log2 a - 52 in
                let q := Z.shiftr a e in
                let rem := a mod 2 ^ e in
                let half := 2 ^ (e - 1) in
                let q' := if orb (half <? rem) (andb (rem =? half) (Z.odd q)) then q + 1 else q in
                Z.ldexp (PrimFloat.of_uint63 (Uint63.of_Z q')) e in
  if z <? 0 then PrimFloat.opp r else r.

(** ** The conversion on its boundary cases *)

(** Below [2^53] the conversion is exact; [2^53 + 1] is a tie and goes
    to the even neighbour [2^53], [2^53 + 3] to [2^53 + 4]; the largest
    [uint64_t] becomes [2^64]. *)
Lemma of_Z_rounding :
  of_Z (2 ^ 53 + 1) = of_Z (2 ^ 53) /\ of_Z (2 ^ 53 + 3) = of_Z (2 ^ 53 + 4) /\
  of_Z (2 ^ 64 - 1) = Z.ldexp PrimFloat.one 64 /\ of_Z (- 7) = PrimFloat.opp (of_Z 7).
Proof. vm_compute. auto. Qed.

End Double.
