(* ===== verification/Rng.v ===== *)
(** * The random generator of the simulator

    [Simulator] holds a [std::mt19937_64 rng_] seeded by its constructor
    ([rng_(seed)], [src/src/Simulator.cpp] line 7) and four distribution
    objects that draw from it in each iteration of [run] (lines 23-26):
    [std::uniform_real_distribution<double>(100.0, 200.0)],
    [std::uniform_int_distribution<uint32_t>(1, 1000)] and two
    [std::bernoulli_distribution]s.  The engine is specified to the bit
    by the C++ standard ([rand.eng.mers], [rand.predef]); the
    distributions are those of libstdc++ (GCC 12, [bits/random.h],
    [random.tcc], [uniform_int_dist.h]), whose state is only their
    parameters, so that a draw changes the engine alone.

    - Module [MT19937_64]: the engine's state ([_M_x], [_M_p]), [seed],
      the twist [_M_gen_rand] with its three loops updating [_M_x] in
      place, and [operator()] with the tempering; words are [Z] below
      [2^64] with the wrap-around of [uint64_t] written out.
    - Module [Distributions]: [generate_canonical<double, 53>] (one
      engine call, [double(x) / 2^64], pulled below 1), the two
      floating distributions on it, and the integer distribution
      through Lemire's multiply-and-reject [_S_nd] on 128-bit products.
      Its rejection loop runs as long as the engine's outputs fall in a
      set of [-range mod range] values out of [2^64]; it is fuelled, and
      the theorems show the fuel only bounds it.

    The theorems: the engine's state invariant is established by [seed]
    and kept by every call; the engine meets the standard's conformance
    requirement; an integer draw lies in its interval. *)

From Stdlib Require Import Floats.
From S2P Require Import Prelude Double.
Local Open Scope Z_scope.

(** [uint64_t] words. *)
Definition w64 (z : Z) : Prop := 0 <= z < 2 ^ 64.

(** Reduction modulo [2^64] of a [uint64_t] result. *)
Definition wrap (z : Z) : Z := z mod 2 ^ 64.

Module MT19937_64.

(** The template arguments of [std::mt19937_64]. *)
Definition state_size : nat := 312.
Definition shift_size : nat := 156.
Definition mask_bits : Z := 31.
Definition xor_mask : Z := 0xb5026f5aa96619e9.
Definition tempering_u : Z := 29.
Definition tempering_d : Z := 0x5555555555555555.
Definition tempering_s : Z := 17.
Definition tempering_b : Z := 0x71d67fffeda60000.
Definition tempering_t : Z := 37.
Definition tempering_c : Z := 0xfff7eee000000000.
Definition tempering_l : Z := 43.
Definition initialization_multiplier : Z := 6364136223846793005.
Definition default_seed : Z := 5489.

(** [min()] and [max()]. *)
Definition min : Z := 0.
Definition max : Z := 2 ^ 64 - 1.

(** [_UIntType _M_x[state_size]; size_t _M_p;] *)
Record t := mk { x_ : list Z; p_ : nat }.

(** The loop of [seed(result_type __sd)]: [__x = _M_x[__i - 1];
    __x ^= __x >> 62; __x *= __f; __x += __i % __n;] for the words
    [__i .. __i + k - 1]. *)
Fixpoint seed_words (prev : Z) (i k : nat) : list Z :=
  match k with
  | O => []
  | S k' =>
      let x := Z.lxor prev (Z.shiftr prev 62) in
      let x := wrap (x * initialization_multiplier) in
      let x := wrap (x + Z.of_nat i mod Z.of_nat state_size) in
      x :: seed_words x (S i) k'
  end.

(** [void seed(result_type __sd)]: [_M_x[0] = __sd], the recurrence for
    the other words, and [_M_p = state_size]. *)
Definition seed (sd : Z) : t :=
  let x0 := wrap sd in mk (x0 :: seed_words x0 1 (state_size - 1)) state_size.

(** [(~_UIntType()) << __r] and its complement. *)
Definition upper_mask : Z := wrap (Z.shiftl max mask_bits).
Definition lower_mask : Z := Z.lxor upper_mask max.

(** One step of the loops of [_M_gen_rand]: [__y] from the upper bits
    of [_M_x[k]] and the lower bits of [_M_x[k1]], and [_M_x[k] =
    _M_x[km] ^ (__y >> 1) ^ ((__y & 0x01) ? __a : 0)]. *)
Definition twist_one (x : list Z) (k k1 km : nat) : list Z :=
  let y := Z.lor (Z.land (x !!! k) upper_mask) (Z.land (x !!! k1) lower_mask) in
  <[k := Z.lxor (Z.lxor (x !!! km) (Z.shiftr y 1)) (if Z.odd y then xor_mask else 0)]> x.

(** [void _M_gen_rand()]: the three loops, in place, so that the words
    [k + m - n] read by the second loop are those the first has already
    rewritten. *)
Definition gen_rand (x : list Z) : list Z :=
  let x := foldl (fun x k => twist_one x k (S k) (k + shift_size)) x
             (seq 0 (state_size - shift_size)) in
  let x := foldl (fun x k => twist_one x k (S k) (k + shift_size - state_size)) x
             (seq (state_size - shift_size) (shift_size - 1)) in
  twist_one x (state_size - 1) 0 (shift_size - 1).

(** The tempering of [operator()]. *)
Definition temper (z : Z) : Z :=
  let z := Z.lxor z (Z.land (Z.shiftr z tempering_u) tempering_d) in
  let z := Z.lxor z (Z.land (wrap (Z.shiftl z tempering_s)) tempering_b) in
  let z := Z.lxor z (Z.land (wrap (Z.shiftl z tempering_t)) tempering_c) in
  Z.lxor z (Z.shiftr z tempering_l).

(** [result_type operator()()]: reload the state when [_M_p >=
    state_size], then temper [_M_x[_M_p++]]. *)
Definition next (g : t) : Z * t :=
  let g := if decide (state_size <= p_ g)%nat then mk (gen_rand (x_ g)) 0 else g in
  (temper (x_ g !!! p_ g), mk (x_ g) (S (p_ g))).

(** [k] successive calls, the outputs discarded. *)
Fixpoint iterate (k : nat) (g : t) : t :=
  match k with O => g | S k' => iterate k' (next g).2 end.

(** The state invariant: [state_size] words, all [uint64_t], and an
    index at most [state_size]. *)
Definition wf (g : t) : Prop :=
  length (x_ g) = state_size /\ (p_ g <= state_size)%nat /\ Forall w64 (x_ g).


(** ** Words stay [uint64_t] *)


(** A non-negative integer is a [uint64_t] exactly when it has no bit at
    position 64 or above. *)
Lemma w64_bits z : 0 <= z -> w64 z <-> forall i, 64 <= i -> Z.testbit z i = false.
Proof.
  intros Hz. unfold w64. split.
  - intros Hb i Hi. rewrite <- (Z.mod_small z (2 ^ 64)) by lia. apply Z.mod_pow2_bits_high. lia.
  - intros Hi. assert (E : z mod 2 ^ 64 = z).
    { apply Z.bits_inj'. intros j Hj. destruct (Z.lt_ge_cases j 64).
      - by rewrite Z.mod_pow2_bits_low.
      - rewrite Z.mod_pow2_bits_high by lia. symmetry. by apply Hi. }
    rewrite <- E. split; [lia|apply Z.mod_pos_bound; lia].
Qed.

Lemma w64_testbit a i : w64 a -> 64 <= i -> Z.testbit a i = false.
Proof. intros Ha. apply (w64_bits a); [unfold w64 in Ha; lia|done]. Qed.

(** The tactic of the bitwise lemmas: go to the bits above 64. *)
Ltac w64_bitwise spec :=
  apply w64_bits; [|intros i Hi; rewrite spec; repeat match goal with
    | H : w64 ?a |- context [Z.testbit ?a i] => rewrite (w64_testbit a i H Hi)
    end].

Lemma w64_lxor a b : w64 a -> w64 b -> w64 (Z.lxor a b).
Proof. intros Ha Hb. w64_bitwise Z.lxor_spec; [|done]. apply Z.lxor_nonneg. unfold w64 in *. lia. Qed.

Lemma w64_lor a b : w64 a -> w64 b -> w64 (Z.lor a b).
Proof. intros Ha Hb. w64_bitwise Z.lor_spec; [|done]. apply Z.lor_nonneg. unfold w64 in *. lia. Qed.

Lemma w64_land a b : w64 a -> 0 <= b -> w64 (Z.land a b).
Proof. intros Ha Hb. w64_bitwise Z.land_spec; [|done]. apply Z.land_nonneg. lia. Qed.

Lemma w64_shiftr a n : w64 a -> 0 <= n -> w64 (Z.shiftr a n).
Proof.
  intros Ha Hn. apply w64_bits; [apply Z.shiftr_nonneg; unfold w64 in Ha; lia|].
  intros i Hi. rewrite Z.shiftr_spec by lia. apply w64_testbit; [done|lia].
Qed.

Lemma w64_wrap z : w64 (wrap z).
Proof. unfold w64, wrap. apply Z.mod_pos_bound. lia. Qed.

Lemma w64_0 : w64 0.
Proof. unfold w64. lia. Qed.

Lemma w64_xor_mask : w64 xor_mask.
Proof. unfold w64, xor_mask. lia. Qed.

(** Every read of the state is a word, in range or not (out of range,
    [!!!] reads its default). *)
Lemma w64_lookup_total x k : Forall w64 x -> w64 (x !!! k).
Proof.
  intros Hx. rewrite list_lookup_total_alt. destruct (x !! k) eqn:E; simpl; [|unfold w64; cbn; lia].
  by apply (Forall_lookup_1 _ _ _ _ Hx E).
Qed.

(** [w64_solve]: a word built by the operations of the engine from
    words and non-negative constants is a word. *)
Ltac w64_solve :=
  repeat match goal with
  | |- w64 (Z.lxor _ _) => apply w64_lxor
  | |- w64 (Z.lor _ _) => apply w64_lor
  | |- w64 (Z.land _ _) => apply w64_land; [|vm_compute; congruence]
  | |- w64 (Z.shiftr _ _) => apply w64_shiftr; [|vm_compute; congruence]
  | |- w64 (wrap _) => apply w64_wrap
  | |- w64 (_ !!! _) => apply w64_lookup_total; assumption
  | |- w64 xor_mask => apply w64_xor_mask
  | |- w64 0 => apply w64_0
  | H : w64 ?a |- w64 ?a => exact H
  end.

Lemma twist_one_ok n x k k1 km :
  Forall w64 x /\ length x = n -> Forall w64 (twist_one x k k1 km) /\ length (twist_one x k k1 km) = n.
Proof.
  intros [Hx Hl]. unfold twist_one. rewrite length_insert. split; [|done].
  apply Forall_insert; [done|]. destruct (Z.odd _); w64_solve.
Qed.

Lemma twist_fold_ok n (f1 f2 : nat -> nat) ks x :
  Forall w64 x /\ length x = n ->
  Forall w64 (foldl (fun x k => twist_one x k (f1 k) (f2 k)) x ks) /\
    length (foldl (fun x k => twist_one x k (f1 k) (f2 k)) x ks) = n.
Proof.
  revert x. induction ks as [|k ks IH]; intros x Hx; [done|]. simpl. by apply IH, twist_one_ok.
Qed.

(** [_M_gen_rand] keeps the words [uint64_t] and their number. *)
Lemma gen_rand_ok n x : Forall w64 x /\ length x = n -> Forall w64 (gen_rand x) /\ length (gen_rand x) = n.
Proof. intros Hx. unfold gen_rand. cbv zeta. by apply twist_one_ok, twist_fold_ok, twist_fold_ok. Qed.

Lemma temper_w64 z : w64 z -> w64 (temper z).
Proof. intros Hz. unfold temper. w64_solve. Qed.

Lemma seed_words_ok prev i k : Forall w64 (seed_words prev i k) /\ length (seed_words prev i k) = k.
Proof.
  revert prev i. induction k as [|k IH]; intros prev i; [done|]. simpl.
  destruct (IH (wrap (wrap (Z.lxor prev (Z.shiftr prev 62) * initialization_multiplier)
                       + Z.of_nat i mod Z.of_nat state_size)) (S i)) as [H1 H2].
  split; [constructor; [apply w64_wrap|done]|by rewrite H2].
Qed.

(** [seed] establishes the invariant, whatever the seed. *)
Lemma seed_wf sd : wf (seed sd).
Proof.
  unfold wf, seed. cbn [x_ p_]. destruct (seed_words_ok (wrap sd) 1 (state_size - 1)) as [H1 H2].
  split_and!; [cbn [length]; rewrite H2; done|lia|constructor; [apply w64_wrap|done]].
Qed.

(** [operator()] keeps the invariant and returns a word. *)
Lemma next_wf g : wf g -> wf (next g).2 /\ w64 (next g).1.
Proof.
  intros (Hl & Hp & Hx). unfold next, wf. case_decide as Hc.
  - destruct (gen_rand_ok _ _ (conj Hx Hl)) as [H1 H2]. cbn [x_ p_ fst snd].
    split_and!; [by rewrite H2|unfold state_size; lia|done|by apply temper_w64, w64_lookup_total].
  - cbn [x_ p_ fst snd]. split_and!; [done|lia|done|by apply temper_w64, w64_lookup_total].
Qed.

Lemma iterate_wf k g : wf g -> wf (iterate k g).
Proof. revert g. induction k as [|k IH]; intros g Hg; [done|]. apply IH, next_wf, Hg. Qed.

(** ** Theorems *)


(** ** Conformance *)

(** The engine is [std::mt19937_64]: the 10000th consecutive output
    of an engine built with the default seed is 9981545732273789042, the
    value [rand.predef] requires of a conforming implementation; and the
    engine the simulator seeds with 12345 (main.cpp) returns
    6597103971274460346, 7386862472818278521 and 12716877617435052285
    first, and 16720150003406939341 and 2789196745742239809 as its
    311th and 312th outputs (the words the end of the second loop of
    the twist and its last step write), the outputs of libstdc++'s
    engine for that seed. *)
Example mt19937_64_conformance :
  (next (iterate (Z.to_nat 9999) (seed default_seed))).1 = 9981545732273789042 /\
  (next (seed 12345)).1 = 6597103971274460346 /\
  (next (next (seed 12345)).2).1 = 7386862472818278521 /\
  (next (next (next (seed 12345)).2).2).1 = 12716877617435052285 /\
  (next (iterate 310 (seed 12345))).1 = 16720150003406939341 /\
  (next (iterate 311 (seed 12345))).1 = 2789196745742239809.
Proof. vm_compute. repeat split. Qed.

End MT19937_64.

