(* ===== verification/Distributions.v ===== *)
(** * The distributions the simulator draws from

    The libstdc++ (GCC 12) code of the three distributions
    [Simulator] holds (Simulator.h, lines 20-23), on [std::mt19937_64]
    ([Rng.v]): [generate_canonical<double, 53>], on which
    [uniform_real_distribution<double>] and [bernoulli_distribution]
    are built, and [uniform_int_distribution<uint32_t>], which reduces
    an engine output to its interval by Lemire's multiply-and-reject
    ([_S_nd] on [unsigned __int128]).  A distribution object holds only
    its parameters, so each draw is a function of the engine's state
    returning the value and the new state.

    The rejection loop of [_S_nd] redraws while the low half of the
    product is below [-range mod range] (616 of the [2^64] outputs for
    the simulator's range 1000); whether it stops depends on the
    engine's outputs, so it is fuelled, and [None] means the fuel ran
    out.  The theorems: every draw keeps the engine's invariant; an
    integer draw lies in its interval; the fuel only bounds the loop. *)

From Stdlib Require Import Floats.
From S2P Require Import Prelude Double Rng.
Local Open Scope Z_scope.

Module Distributions.
Import MT19937_64.

(** [std::generate_canonical<double, 53>(__urng)] on [std::mt19937_64]:
    [__r = 2^64], so [__log2r] is 64 (or 63, the [long double]
    logarithms rounding) and the loop runs [__m = 1] time; [__sum] is
    [double(__urng() - min())] and [__tmp] is [2^64].  A quotient that
    rounds to 1 is replaced by [std::nextafter(1.0, 0.0)]. *)
Definition two64 : float := Z.ldexp 1%float 64.
Definition below_one : float := 0x1.fffffffffffffp-1%float.
Definition generate_canonical (g : MT19937_64.t) : float * MT19937_64.t :=
  let '(x, g) := next g in
  let sum := (0 + Double.of_Z (x - min) * 1)%float in
  let tmp := (1 * two64)%float in
  let ret := (sum / tmp)%float in
  (if (1 <=? ret)%float then below_one else ret, g).

(** [uniform_real_distribution<double>::operator()]: [(__aurng() *
    (__p.b() - __p.a())) + __p.a()]. *)
Definition uniform_real (a b : float) (g : MT19937_64.t) : float * MT19937_64.t :=
  let '(c, g) := generate_canonical g in ((c * (b - a)) + a, g)%float.

(** [bernoulli_distribution::operator()]: [(__aurng() - __aurng.min()) <
    __p.p() * (__aurng.max() - __aurng.min())], with the adaptor's
    bounds 0 and 1. *)
Definition bernoulli (p : float) (g : MT19937_64.t) : bool * MT19937_64.t :=
  let '(c, g) := generate_canonical g in ((c - 0) <? p * (1 - 0), g)%float.

(** The [while (__low < __threshold)] loop of [_S_nd]: a new 128-bit
    product [_Wp(__g()) * _Wp(__range)] as long as its low 64 bits are
    below the threshold; [None] when the fuel runs out. *)
Fixpoint nd_while (fuel : nat) (range threshold product : Z) (g : MT19937_64.t) : option (Z * MT19937_64.t) :=
  if product mod 2 ^ 64 <? threshold then
    match fuel with
    | O => None
    | S fuel' => let '(x, g) := next g in nd_while fuel' range threshold (x * range) g
    end
  else Some (product, g).

(** [_S_nd<unsigned __int128>(__g, __range)]: the product of an engine
    output and the range, redrawn while its low half is below
    [-__range % __range] (computed in [uint64_t]) when it is below
    [__range]; the high half is the result. *)
Definition S_nd (fuel : nat) (g : MT19937_64.t) (range : Z) : option (Z * MT19937_64.t) :=
  let '(x, g) := next g in
  let product := x * range in
  '(product, g) ← (if product mod 2 ^ 64 <? range
                   then nd_while fuel range (wrap (- range) mod range) product g
                   else Some (product, g));
  Some (Z.shiftr product 64, g).

(** [uniform_int_distribution<uint32_t>::operator()] on a 64-bit engine
    ([__uctype] is [uint64_t]): when [__urngrange > __urange] the
    downscaling through [_S_nd] (the [__urngrange == __UINT64_MAX__]
    case); otherwise [__urange] equals [__urngrange] and the engine's
    output is the result.  The sum with [__param.a()] is converted back
    to [uint32_t]. *)
Definition uniform_int (fuel : nat) (a b : Z) (g : MT19937_64.t) : option (Z * MT19937_64.t) :=
  let urngrange := max - min in
  let urange := wrap (b - a) in
  '(ret, g) ← (if urange <? urngrange then S_nd fuel g (urange + 1)
               else let '(x, g) := next g in Some (wrap (x - min), g));
  Some (wrap (ret + a) mod 2 ^ 32, g).

(** ** Every draw keeps the engine's invariant *)

(** [next] as a pair of facts on a destructed call. *)
Lemma next_wf_eq g x g' : wf g -> next g = (x, g') -> wf g' /\ w64 x.
Proof. intros Hg E. pose proof (next_wf g Hg) as Hn. by rewrite E in Hn. Qed.

Lemma generate_canonical_wf g : wf g -> wf (generate_canonical g).2.
Proof.
  intros Hg. unfold generate_canonical. destruct (next g) as [x g'] eqn:E.
  apply (next_wf_eq g x g' Hg E).
Qed.

Lemma uniform_real_wf a b g : wf g -> wf (uniform_real a b g).2.
Proof.
  intros Hg. unfold uniform_real. pose proof (generate_canonical_wf g Hg).
  by destruct (generate_canonical g).
Qed.

Lemma bernoulli_wf p g : wf g -> wf (bernoulli p g).2.
Proof.
  intros Hg. unfold bernoulli. pose proof (generate_canonical_wf g Hg).
  by destruct (generate_canonical g).
Qed.

(** ** The integer draw *)

(** The loop returns a 128-bit product of a word and the range, from a
    state satisfying the invariant. *)
Lemma nd_while_ok fuel range thr product g v g' :
  0 < range -> 0 <= product < 2 ^ 64 * range -> wf g ->
  nd_while fuel range thr product g = Some (v, g') -> 0 <= v < 2 ^ 64 * range /\ wf g'.
Proof.
  revert product g. induction fuel as [|fuel IH]; intros product g Hr Hp Hg; cbn [nd_while];
    (destruct (_ <? thr); [|intros [= <- <-]; done]); [discriminate|].
  destruct (next g) as [x g1] eqn:E. destruct (next_wf_eq g x g1 Hg E) as [Hg1 Hx].
  intros H. refine (IH _ _ Hr _ Hg1 H). unfold w64 in Hx. nia.
Qed.

Lemma S_nd_range fuel g range v g' :
  0 < range <= 2 ^ 64 -> wf g -> S_nd fuel g range = Some (v, g') -> 0 <= v < range /\ wf g'.
Proof.
  intros Hr Hg. unfold S_nd. destruct (next g) as [x g1] eqn:E.
  destruct (next_wf_eq g x g1 Hg E) as [Hg1 Hx]. unfold w64 in Hx.
  assert (Hp : 0 <= x * range < 2 ^ 64 * range) by nia.
  destruct (if _ <? range then _ else _) as [[p g2]|] eqn:E2; [|done]. simpl. intros [= <- <-].
  assert (Hp2 : 0 <= p < 2 ^ 64 * range /\ wf g2).
  { destruct (_ <? range); [apply (nd_while_ok fuel range _ (x * range) g1 p g2 ltac:(lia) Hp Hg1 E2)|by simplify_eq]. }
  rewrite Z.shiftr_div_pow2 by lia. split; [|tauto]. split; [apply Z.div_pos; lia|].
  apply Z.div_lt_upper_bound; lia.
Qed.

(** More fuel gives the same result. *)
Lemma nd_while_mono fuel fuel' range thr product g r :
  nd_while fuel range thr product g = Some r -> (fuel <= fuel')%nat ->
  nd_while fuel' range thr product g = Some r.
Proof.
  revert fuel' product g. induction fuel as [|fuel IH]; intros [|fuel'] product g; cbn [nd_while];
    destruct (_ <? thr); try done; try lia.
  destruct (next g). intros H Hle. apply (IH _ _ _ H). lia.
Qed.

Lemma S_nd_mono fuel fuel' g range r :
  S_nd fuel g range = Some r -> (fuel <= fuel')%nat -> S_nd fuel' g range = Some r.
Proof.
  unfold S_nd. destruct (next g). destruct (_ <? range); [|done].
  destruct (nd_while fuel _ _ _ _) eqn:E; [|done]. intros H Hle. by rewrite (nd_while_mono _ _ _ _ _ _ _ E Hle).
Qed.

(** C28: a draw of [uniform_int_distribution<uint32_t>(a, b)] from an
    engine satisfying the invariant lies in [[a, b]] and leaves the
    invariant: the high half of the 128-bit product of a word and
    [b - a + 1] is at most [b - a], and adding [a] back does not wrap
    [uint32_t]. *)
Theorem uniform_int_range fuel a b g v g' :
  0 <= a <= b -> b < 2 ^ 32 -> wf g -> uniform_int fuel a b g = Some (v, g') -> a <= v <= b /\ wf g'.
Proof.
  intros Hab Hb Hg. unfold uniform_int, wrap, max, min.
  rewrite (Z.mod_small (b - a)) by lia. replace (b - a <? 2 ^ 64 - 1 - 0) with true by lia.
  destruct (S_nd fuel g (b - a + 1)) as [[ret g1]|] eqn:E; [|done]. simpl. intros [= <- <-].
  destruct (S_nd_range fuel g (b - a + 1) ret g1 ltac:(lia) Hg E) as [Hret Hg1].
  rewrite (Z.mod_small (ret + a) (2 ^ 64)), Z.mod_small by lia. split; [lia|done].
Qed.

(** The fuel only bounds the rejection loop of the integer draw:
    once the draw returns with some fuel, it returns the same value and
    engine state with any larger fuel, so the result is that of the
    code's unbounded [while] loop. *)
Theorem uniform_int_fuel_mono fuel fuel' a b g r :
  uniform_int fuel a b g = Some r -> (fuel <= fuel')%nat -> uniform_int fuel' a b g = Some r.
Proof.
  unfold uniform_int. destruct (_ <? _); [|done].
  destruct (S_nd fuel g _) eqn:E; [|done]. intros H Hle. by rewrite (S_nd_mono _ _ _ _ _ E Hle).
Qed.

End Distributions.
