(* ===== verification/DoubleOrder.v ===== *)
(** * The order of [double] away from NaN

    [std::map<double, ...>] needs its comparator [<] to be a strict weak
    order; on all doubles it is not ([Findings]: NaN is incomparable to
    everything).  Here: on the doubles that are not NaN it is one, since
    [<] there is the order of an integer [rank] (sign, exponent and
    mantissa of the IEEE 754 encoding); and the prices the simulator
    draws are never NaN, since every operation that computes them
    ([generate_canonical], [uniform_real_distribution]) rounds finite
    operands.  [nnfloat], the doubles that are not NaN, is then a price
    type the book's theorems apply to. *)

From Stdlib Require Import Floats.
From S2P Require Import Prelude Order Double Rng Distributions.
Local Open Scope Z_scope.

Module DoubleOrder.

(** A [double] that is not NaN. *)
Definition nnfloat := { f : float | PrimFloat.is_nan f = false }.

#[export] Instance nnfloat_inhabited : Inhabited nnfloat := populate (exist _ 0%float eq_refl).

(** [operator<] on the [double]s. *)
#[export] Instance nnfloat_price_lt : PriceLt nnfloat := fun a b => PrimFloat.ltb (proj1_sig a) (proj1_sig b).

(** The position of a non-NaN binary64 on the line: [(e + 1075) * 2^53 +
    m] for [m * 2^e], its opposite for a negative number, 0 for both
    zeros and [+-2^64] beyond every finite value for the infinities. *)
Definition rank (f : spec_float) : Z :=
  match f with
  | S754_zero _ | S754_nan => 0
  | S754_infinity s => if s then - 2 ^ 64 else 2 ^ 64
  | S754_finite s m e => let r := (e + 1075) * 2 ^ 53 + Zpos m in if s then - r else r
  end.

(** ** Lemmas *)

Lemma digits2_pos_bound m : Zpos m < 2 ^ Zpos (digits2_pos m).
Proof.
  induction m as [m IH|m IH|]; cbn [digits2_pos]; [| |reflexivity];
    rewrite Pos2Z.inj_succ, Z.pow_succ_r by lia; lia.
Qed.

(** A valid finite binary64 has an exponent in [[-1074, 971]] and a
    mantissa below [2^53]. *)
Lemma valid_finite_bounds s m e :
  valid_binary (S754_finite s m e) = true -> -1074 <= e <= 971 /\ Zpos m < 2 ^ 53.
Proof.
  unfold valid_binary, bounded, canonical_mantissa, fexp, emin, FloatOps.prec, FloatOps.emax.
  intros H. apply andb_prop in H as [H1 H2]. apply Z.eqb_eq in H1. apply Z.leb_le in H2.
  pose proof (digits2_pos_bound m). split; [lia|].
  assert (Zpos (digits2_pos m) <= 53) by lia.
  apply (Z.lt_le_trans _ _ _ H). apply Z.pow_le_mono_r; lia.
Qed.

(** The lexicographic comparison of exponent and mantissa is the
    comparison of the rank. *)
Lemma rank_compare_lex e1 e2 m1 m2 :
  -1074 <= e1 -> -1074 <= e2 -> Zpos m1 < 2 ^ 53 -> Zpos m2 < 2 ^ 53 ->
  Z.compare ((e1 + 1075) * 2 ^ 53 + Zpos m1) ((e2 + 1075) * 2 ^ 53 + Zpos m2) =
    match Z.compare e1 e2 with Lt => Lt | Gt => Gt | Eq => Pos.compare_cont Eq m1 m2 end.
Proof.
  intros. destruct (Z.compare_spec e1 e2) as [->|Hl|Hl].
  - rewrite Z.add_compare_mono_l. reflexivity.
  - apply Z.compare_lt_iff. nia.
  - apply Z.compare_gt_iff. nia.
Qed.

Lemma rank_finite_pos m e :
  -1074 <= e <= 971 -> Zpos m < 2 ^ 53 -> 0 < (e + 1075) * 2 ^ 53 + Zpos m < 2 ^ 64.
Proof. intros. nia. Qed.

(** On valid non-NaN binary64 values, [SFcompare] is the comparison of
    the ranks. *)
Lemma compare_rank x y :
  valid_binary x = true -> valid_binary y = true -> x <> S754_nan -> y <> S754_nan ->
  SFcompare x y = Some (Z.compare (rank x) (rank y)).
Proof.
  intros Hx Hy Nx Ny.
  destruct x as [sx|sx| |sx mx ex]; destruct y as [sy|sy| |sy my ey]; try done;
    repeat match goal with
    | H : valid_binary (S754_finite _ _ _) = true |- _ =>
        apply valid_finite_bounds in H as [? ?]
    end; cbn [SFcompare rank];
    repeat match goal with
    | |- context [(?e + 1075) * 2 ^ 53 + Zpos ?m] =>
        lazymatch goal with H : 0 < (e + 1075) * 2 ^ 53 + Zpos m < 2 ^ 64 |- _ => fail | _ =>
          assert (0 < (e + 1075) * 2 ^ 53 + Zpos m < 2 ^ 64) by (apply rank_finite_pos; lia) end
    end;
    repeat match goal with s : bool |- _ => destruct s end; f_equal; try reflexivity;
    try (symmetry; first [apply Z.compare_lt_iff | apply Z.compare_gt_iff | apply Z.compare_eq_iff]; lia).
  - rewrite Z.compare_opp, (Z.compare_antisym ((ex + 1075) * 2 ^ 53 + Zpos mx)), rank_compare_lex by lia.
    by destruct (Z.compare ex ey).
  - by rewrite rank_compare_lex by lia.
Qed.

(** [is_nan] is the NaN of the encoding. *)
Lemma is_nan_false f : PrimFloat.is_nan f = false -> Prim2SF f <> S754_nan.
Proof.
  unfold PrimFloat.is_nan. rewrite FloatAxioms.eqb_spec. intros H E. rewrite E in H. discriminate.
Qed.

Lemma not_nan_is_nan f : Prim2SF f <> S754_nan -> PrimFloat.is_nan f = false.
Proof.
  intros H. unfold PrimFloat.is_nan. rewrite FloatAxioms.eqb_spec. unfold SFeqb.
  rewrite compare_rank by (apply Prim2SF_valid || done). by rewrite Z.compare_refl.
Qed.

(** [<] on non-NaN doubles is [<] on their ranks. *)
Lemma ltb_rank x y :
  PrimFloat.is_nan x = false -> PrimFloat.is_nan y = false ->
  PrimFloat.ltb x y = (rank (Prim2SF x) <? rank (Prim2SF y)).
Proof.
  intros Hx Hy. rewrite FloatAxioms.ltb_spec. unfold SFltb.
  rewrite compare_rank by (apply Prim2SF_valid || by apply is_nan_false). reflexivity.
Qed.

(** [price_lt] on [nnfloat] is [<] on ranks. *)
Lemma nnfloat_lt_rank (a b : nnfloat) :
  price_lt a b = (rank (Prim2SF (proj1_sig a)) <? rank (Prim2SF (proj1_sig b))).
Proof. destruct a as [a Ha], b as [b Hb]. by apply ltb_rank. Qed.

Ltac nnfloat_rank := intros; rewrite ?nnfloat_lt_rank in *; rewrite ?Z.ltb_lt, ?Z.ltb_ge in *.

#[export] Instance nnfloat_order : StrictWeakOrder (price_lt (P:=nnfloat)).
Proof.
  split.
  - intros a. rewrite nnfloat_lt_rank. apply Z.ltb_irrefl.
  - nnfloat_rank. apply Z.ltb_lt. lia.
  - intros a b c. rewrite !nnfloat_lt_rank, !Z.ltb_lt. lia.
Qed.

(** ** No NaN out of finite operands *)

(** A finite binary64 (neither zero, infinite nor NaN). *)
Definition finite_sf (f : spec_float) : Prop :=
  match f with S754_finite _ _ _ => True | _ => False end.

Section NoNaN.
Context (prec emax : Z).

Lemma shr_1_nonneg r : 0 <= shr_m r -> 0 <= shr_m (shr_1 r).
Proof. destruct r as [[|p|p] rr ss]; cbn; [lia| |lia]. destruct p; cbn; lia. Qed.

Lemma iter_shr_1_nonneg p r : 0 <= shr_m r -> 0 <= shr_m (SpecFloat.iter_pos shr_1 p r).
Proof. revert r. induction p as [p IH|p IH|]; intros r Hr; cbn; auto using shr_1_nonneg. Qed.

Lemma shr_fexp_nonneg m e l : 0 <= m -> 0 <= shr_m (fst (shr_fexp prec emax m e l)).
Proof.
  intros Hm. unfold shr_fexp, shr.
  assert (H0 : 0 <= shr_m (shr_record_of_loc m l)) by (destruct l as [|[]]; exact Hm).
  destruct (_ - e); cbn [fst]; auto using iter_shr_1_nonneg.
Qed.

Lemma round_nearest_even_nonneg m l : 0 <= m -> 0 <= round_nearest_even m l.
Proof. intros Hm. destruct l as [|[]]; cbn; try destruct (Z.even m); lia. Qed.

(** Rounding a non-negative mantissa never gives NaN. *)
Lemma binary_round_aux_not_nan sx mx ex lx : 0 <= mx -> binary_round_aux prec emax sx mx ex lx <> S754_nan.
Proof.
  intros Hm. unfold binary_round_aux.
  pose proof (shr_fexp_nonneg mx ex lx Hm) as H1.
  destruct (shr_fexp prec emax mx ex lx) as [r1 e1]. cbn [fst] in H1.
  pose proof (shr_fexp_nonneg _ e1 loc_Exact (round_nearest_even_nonneg _ (loc_of_shr_record r1) H1)) as H2.
  destruct (shr_fexp prec emax _ e1 loc_Exact) as [r2 e2]. cbn [fst] in H2.
  destruct (shr_m r2); [done|by destruct (_ <=? _)|lia].
Qed.

Lemma binary_round_not_nan sx mx ex : binary_round prec emax sx mx ex <> S754_nan.
Proof. unfold binary_round. destruct (shl_align _ _ _). apply binary_round_aux_not_nan. lia. Qed.

Lemma binary_normalize_not_nan m e sz : binary_normalize prec emax m e sz <> S754_nan.
Proof. destruct m; [done|apply binary_round_not_nan..]. Qed.

Lemma SFdiv_core_nonneg m1 e1 m2 e2 mz ez lz :
  SFdiv_core_binary prec emax (Zpos m1) e1 (Zpos m2) e2 = (mz, ez, lz) -> 0 <= mz.
Proof.
  unfold SFdiv_core_binary. cbv zeta.
  match goal with |- context [Z.div_eucl ?a ?b] => set (m' := a);
    assert (Hm : 0 <= m') by (subst m'; destruct (_ - _); [lia|apply Z.shiftl_nonneg; lia|lia]);
    pose proof (Z_div_mod m' b ltac:(lia)) as Hd; destruct (Z.div_eucl m' b) as [q r] end.
  intros [= <- _ _]. nia.
Qed.

Lemma SFmul_not_nan x y : x <> S754_nan -> finite_sf y -> SFmul prec emax x y <> S754_nan.
Proof. destruct x, y; cbn; try done. intros _ _. apply binary_round_aux_not_nan. lia. Qed.

Lemma SFdiv_not_nan x y : x <> S754_nan -> finite_sf y -> SFdiv prec emax x y <> S754_nan.
Proof.
  destruct x as [| | |sx mx ex], y as [| | |sy my ey]; cbn [SFdiv finite_sf]; try done. intros _ _.
  destruct (SFdiv_core_binary prec emax _ ex _ ey) as [[mz ez] lz] eqn:E.
  apply binary_round_aux_not_nan. by apply (SFdiv_core_nonneg mx ex my ey mz ez lz).
Qed.

Lemma SFadd_finite_not_nan x y : x <> S754_nan -> finite_sf y -> SFadd prec emax x y <> S754_nan.
Proof.
  destruct x as [sx|sx| |sx mx ex], y as [| | |sy my ey]; cbn [SFadd finite_sf]; try done.
  intros _ _. apply binary_normalize_not_nan.
Qed.

Lemma SFadd_zero_not_nan s y : y <> S754_nan -> SFadd prec emax (S754_zero s) y <> S754_nan.
Proof. destruct y as [sy|sy| |sy my ey]; cbn; try done. by destruct s, sy. Qed.

Lemma SFldexp_not_nan f e : f <> S754_nan -> SFldexp prec emax f e <> S754_nan.
Proof. destruct f; cbn; try done. intros _. apply binary_round_not_nan. Qed.

End NoNaN.

(** The conversion of an integer to [double] never gives NaN. *)
Lemma of_Z_not_nan z : Prim2SF (Double.of_Z z) <> S754_nan.
Proof.
  unfold Double.of_Z. cbv zeta.
  match goal with |- Prim2SF (if _ then _ else ?r) <> _ =>
    assert (Hr : Prim2SF r <> S754_nan); [|destruct (z <? 0); [rewrite opp_spec; by destruct (Prim2SF r)|done]] end.
  destruct (_ <? 2 ^ 53).
  - rewrite of_uint63_spec. apply binary_normalize_not_nan.
  - rewrite Z_ldexp_spec. apply SFldexp_not_nan. rewrite of_uint63_spec. apply binary_normalize_not_nan.
Qed.

(** [generate_canonical] never returns NaN. *)
Lemma canonical_not_nan g : Prim2SF (Distributions.generate_canonical g).1 <> S754_nan.
Proof.
  unfold Distributions.generate_canonical. destruct (MT19937_64.next g) as [x g']. cbv zeta. cbn [fst].
  destruct (1 <=? _)%float; [vm_compute; discriminate|].
  rewrite div_spec. apply SFdiv_not_nan; [|vm_compute; exact I].
  rewrite add_spec. change (Prim2SF 0%float) with (S754_zero false). apply SFadd_zero_not_nan.
  rewrite mul_spec. apply SFmul_not_nan; [apply of_Z_not_nan|vm_compute; exact I].
Qed.

(** A draw of [uniform_real_distribution(a, b)] with finite [a] and
    [b - a] is never NaN. *)
Lemma uniform_real_not_nan a b g :
  finite_sf (Prim2SF a) -> finite_sf (Prim2SF (b - a)) -> PrimFloat.is_nan (Distributions.uniform_real a b g).1 = false.
Proof.
  intros Ha Hba. unfold Distributions.uniform_real. pose proof (canonical_not_nan g) as Hc.
  destruct (Distributions.generate_canonical g) as [c g']. cbn [fst] in *. apply not_nan_is_nan.
  rewrite add_spec. apply SFadd_finite_not_nan; [|done]. rewrite mul_spec. by apply SFmul_not_nan.
Qed.

End DoubleOrder.
