(* ===== verification/Benchmark.v ===== *)
(** * The timer

    [class Benchmark] ([src/src/Benchmark.h], [Benchmark.cpp]): two time
    points of [std::chrono::high_resolution_clock], set by [start] and
    [stop], and their difference in milliseconds as a [double].  The
    clock is outside the program: each call of [now()] is an input, the
    count of nanoseconds since the clock's epoch that it returns (the
    clock's [duration] is [std::chrono::nanoseconds] with an [int64_t]
    count in libstdc++).  The subtraction of two time points is exact
    for readings within [2^63] of each other, which the model assumes.
    [elapsedMilliseconds] converts the nanosecond count to a [double]
    and divides by [10^6], as [std::chrono::duration_cast] does for
    [duration<double, std::milli>]. *)

From Stdlib Require Import Floats.
From S2P Require Import Prelude Double.
Local Open Scope Z_scope.

Module Benchmark.

(** [begin_] and [end_], as nanosecond counts. *)
Record t := mk { begin_ : Z; end_ : Z }.

(** [Benchmark timer;]: both time points default-constructed, at the
    clock's epoch. *)
Definition create : t := mk 0 0.

(** [void start()]: [begin_ = now()]. *)
Definition start (b : t) (now : Z) : t := mk now (end_ b).

(** [void stop()]: [end_ = now()]. *)
Definition stop (b : t) (now : Z) : t := mk (begin_ b) now.

(** [double elapsedMilliseconds() const]:
    [duration<double, std::milli>(end_ - begin_).count()]. *)
Definition elapsedMilliseconds (b : t) : float :=
  (Double.of_Z (end_ b - begin_ b) / 1000000)%float.

End Benchmark.
