(* ===== verification/MemoryPool.v ===== *)
(** * The slab allocator

    [MemoryPool] of [src/src/MemoryPool.h] and [src/src/MemoryPool.cpp].
    The single block is a list of slots, as many as its byte count
    [capacity * sizeof(Order)] (a [size_t] product, which wraps) holds;
    a pointer [Order*] into it is a slot index and [nullptr] is [None].  The free
    list is threaded through the [next_free] field of the free slots, as
    in the code.  [free_chain] relates the links to the stack of free
    slot indices they encode; the abstract allocator is that stack, with
    [pop] and [push], and the theorems below show that the constructor
    (when the byte count does not wrap), [allocate] and [deallocate]
    refine it, and that [deallocate] undoes [allocate]. *)

From S2P Require Import Prelude Order.

Module MemoryPool.
Section Pool.
Context {P : Type} `{Inhabited P}.

Abbreviation order := (Order.t P).

(** ** State and operations *)

(** [class MemoryPool]: the block [blocks_[0]], [free_list_] and
  [capacity_]. *)
Record t := mk {
block : list order;
free_list : option nat;
capacity : nat
}.

(** The loop of the constructor: [for (i = ...; i < capacity; ++i)
  { obj = block + i; obj->next_free = free_list_; free_list_ = obj; }],
  [n] iterations left. *)
Fixpoint thread (i n : nat) (blk : list order) (head : option nat)
  : list order * option nat :=
match n with
| O => (blk, head)
| S n' => thread (S i) n' (<[i := Order.set_next_free (blk !!! i) head]> blk) (Some i)
end.

(** [sizeof(Order)] on the LP64 targets the code builds for: [id],
  [timestamp] and [price] (8 bytes each), [quantity], [side] and
  [type] (4 bytes each, the enumerations having [int] as underlying
  type), 4 bytes of padding, and the 8-byte [next_free]. *)
Definition sizeof_Order : Z := 48%Z.

(** The whole slots of the raw block [::operator new[](capacity *
  sizeof(Order))] (line 8): the product is a [size_t] and wraps
  around. *)
Definition block_slots (cap : nat) : nat :=
  Z.to_nat (((Z.of_nat cap * sizeof_Order) mod 2 ^ 64) / sizeof_Order)%Z.

(** [MemoryPool(capacity)]: one raw block of [block_slots capacity]
  slots, then the loop over [capacity] slots threading each into the
  free list.  A slot past the block is a write out of bounds in the
  code; the model leaves the block unchanged there. *)
Definition create (cap : nat) : t :=
let '(blk, head) := thread 0 cap (replicate (block_slots cap) inhabitant) None in
mk blk head cap.

(** [Order* allocate()]. *)
Definition allocate (p : t) : t * option nat :=
match free_list p with
| None => (p, None)
| Some i =>
    let obj := block p !!! i in
    (mk (<[i := Order.set_next_free obj None]> (block p)) (Order.next_free obj) (capacity p),
     Some i)
end.

(** [void deallocate(Order* order)]. *)
Definition deallocate (p : t) (o : option nat) : t :=
match o with
| None => p
| Some i =>
    mk (<[i := Order.set_next_free (block p !!! i) (free_list p)]> (block p))
       (Some i) (capacity p)
end.

(** [~MemoryPool()]: [::operator delete[]] of every block, then
  [blocks_.clear()] and [free_list_ = nullptr]; the capacity stays. *)
Definition destroy (p : t) : t := mk [] None (capacity p).

(** Reading and writing a slot through a pointer. *)
Definition read (p : t) (i : nat) : order := block p !!! i.
Definition write (p : t) (i : nat) (o : order) : t :=
mk (<[i := o]> (block p)) (free_list p) (capacity p).

(** ** The abstract allocator: a stack of free slot indices *)

Definition pop (free : list nat) : list nat * option nat :=
match free with
| [] => ([], None)
| i :: rest => (rest, Some i)
end.

Definition push (free : list nat) (o : option nat) : list nat :=
match o with
| None => free
| Some i => i :: free
end.

(** ** Representation of the free list *)

(** [free_chain blk head F]: following [next_free] from [head] visits
  the distinct slots [F] and ends in [nullptr]. *)
Inductive free_chain (blk : list order) : option nat -> list nat -> Prop :=
| chain_nil : free_chain blk None []
| chain_cons i o l :
  blk !! i = Some o -> i ∉ l -> free_chain blk (Order.next_free o) l ->
  free_chain blk (Some i) (i :: l).

(** The pool represents the free stack [F]. *)
Definition pool_rep (p : t) (F : list nat) : Prop :=
length (block p) = capacity p /\ free_chain (block p) (free_list p) F.

End Pool.

(** ** The allocator interface and its two implementations *)

(** What the book needs of an allocator ([acquire()] and [release(h)] of
    section 4.1 of the specification). *)
Class SlabAllocator (S : Type) := {
  acquire : S -> S * option nat;
  release : S -> option nat -> S
}.

(** The abstract allocator: a stack of free slot indices. *)
#[export] Instance stack_allocator : SlabAllocator (list nat) :=
  {| acquire := pop; release := push |}.

(** The linked implementation of [MemoryPool]. *)
#[export] Instance pool_allocator {P} `{Inhabited P} : SlabAllocator (@t P) :=
  {| acquire := allocate; release := deallocate |}.

(** A client's sequence of calls. *)
Inductive pool_op := Acquire | Release (o : option nat).

(** Running a sequence of calls; the result lists what each [acquire]
    returned. *)
Fixpoint run_ops {S} `{SlabAllocator S} (s : S) (ops : list pool_op) : S * list (option nat) :=
  match ops with
  | [] => (s, [])
  | Acquire :: ops' =>
      let '(s1, r) := acquire s in
      let '(s2, rs) := run_ops s1 ops' in (s2, r :: rs)
  | Release o :: ops' => run_ops (release s o) ops'
  end.

(** The client releases only slots that are in range and not free (a
    slot it holds, or [nullptr]), checked along the abstract run. *)
Fixpoint releases_ok (cap : nat) (F : list nat) (ops : list pool_op) : bool :=
  match ops with
  | [] => true
  | Acquire :: ops' => releases_ok cap (pop F).1 ops'
  | Release o :: ops' =>
      match o with
      | Some i => (i <? cap) && negb (bool_decide (i ∈ F))
      | None => true
      end && releases_ok cap (push F o) ops'
  end.

(** Check [free_chain] on a concrete pool by following its links. *)
Ltac solve_chain :=
  split; [reflexivity|]; vm_compute;
  repeat (eapply chain_cons; [reflexivity| vm_compute; set_solver |]); constructor.

(** A client that takes two slots, gives the first back, takes two
  more and releases [nullptr]. *)
Definition sample_ops : list pool_op :=
  [Acquire; Acquire; Release (Some 2%nat); Acquire; Acquire; Release None].

Section PoolLemmas.
Context {P : Type} `{Inhabited P}.
Implicit Types (blk : list (Order.t P)) (p : @t P).

(** ** Lemmas on the representation *)

Lemma free_chain_NoDup blk h F : free_chain blk h F -> NoDup F.
Proof. induction 1; constructor; auto. Qed.

Lemma free_chain_lt blk h F i : free_chain blk h F -> i ∈ F -> i < length blk.
Proof.
induction 1 as [|j o l Hj _ _ IH]; [set_solver|].
rewrite elem_of_cons. intros [->|Hi]; eauto using lookup_lt_Some.
Qed.

Lemma free_chain_head blk h F : free_chain blk h F -> h = head F.
Proof. by destruct 1. Qed.

(** Writing a slot that is not free leaves the free list intact. *)
Lemma free_chain_frame blk h F j o :
j ∉ F -> free_chain blk h F -> free_chain (<[j := o]> blk) h F.
Proof.
intros Hj Hc. induction Hc as [|i o' l Hi Hnot _ IH]; [constructor|].
apply chain_cons with o'; [|done|apply IH; set_solver].
rewrite list_lookup_insert_ne; [done|]. set_solver.
Qed.

Lemma pool_rep_NoDup p F : pool_rep p F -> NoDup F.
Proof. intros [_ Hc]. eauto using free_chain_NoDup. Qed.

Lemma pool_rep_lt p F i : pool_rep p F -> i ∈ F -> i < capacity p.
Proof. intros [Hl Hc] Hi. rewrite <- Hl. eauto using free_chain_lt. Qed.

Lemma pool_rep_write p F j o :
pool_rep p F -> j ∉ F -> pool_rep (write p j o) F.
Proof.
intros [Hl Hc] Hj. split; simpl.
- by rewrite length_insert.
- by apply free_chain_frame.
Qed.

Lemma read_write_eq p i o : i < length (block p) -> read (write p i o) i = o.
Proof. intros. unfold read, write; simpl. by rewrite list_lookup_total_insert_eq. Qed.

Lemma read_write_ne p i j o : i <> j -> read (write p i o) j = read p j.
Proof. intros. unfold read, write; simpl. by rewrite list_lookup_total_insert_ne. Qed.

Lemma capacity_write p i o : capacity (write p i o) = capacity p.
Proof. reflexivity. Qed.

Lemma length_write p i o : length (block (write p i o)) = length (block p).
Proof. apply length_insert. Qed.

(** [allocate] and [deallocate] write only the [next_free] field of
    the slot they hand out or take back. *)
Lemma allocate_read_ne p p' i h : allocate p = (p', Some i) -> i <> h -> read p' h = read p h.
Proof.
  unfold allocate, read. destruct (free_list p) as [j|]; intros E Hne; simplify_eq/=.
  by rewrite list_lookup_total_insert_ne.
Qed.

Lemma allocate_capacity p : capacity (allocate p).1 = capacity p.
Proof. unfold allocate. by destruct (free_list p). Qed.

Lemma deallocate_read_ne p i h : i <> h -> read (deallocate p (Some i)) h = read p h.
Proof. intros. unfold read; simpl. by rewrite list_lookup_total_insert_ne. Qed.

Lemma deallocate_capacity p o : capacity (deallocate p o) = capacity p.
Proof. by destruct o. Qed.

Lemma write_read p i : i < length (block p) -> write p i (read p i) = p.
Proof.
  intros Hi. destruct p as [blk fl cap]. unfold write, read; simpl. f_equal.
  apply list_insert_id. apply list_lookup_lookup_total. by apply lookup_lt_is_Some_2.
Qed.

(** When the byte count does not wrap, the block has a slot per unit
  of capacity. *)
Lemma block_slots_fit cap : (Z.of_nat cap * sizeof_Order < 2 ^ 64)%Z -> block_slots cap = cap.
Proof.
intros Hfit. unfold block_slots, sizeof_Order in *.
rewrite Z.mod_small by lia. rewrite Z.div_mul by lia. apply Nat2Z.id.
Qed.

Lemma create_capacity cap : capacity (create (P:=P) cap) = cap.
Proof. unfold create. by destruct (thread _ _ _ _). Qed.

Lemma allocate_none p p' : allocate p = (p', None) -> p' = p.
Proof. unfold allocate. destruct (free_list p); by intros [= <-]. Qed.

(** ** Refinement of the abstract stack allocator *)

Lemma free_chain_push blk h F i :
i < length blk -> i ∉ F -> free_chain blk h F ->
free_chain (<[i := Order.set_next_free (blk !!! i) h]> blk) (Some i) (i :: F).
Proof.
intros Hi HF Hc. econstructor; [by rewrite list_lookup_insert_eq|done|].
by apply free_chain_frame.
Qed.

Lemma thread_chain i n blk head F :
i + n <= length blk -> (forall j, j ∈ F -> j < i) -> free_chain blk head F ->
free_chain (thread i n blk head).1 (thread i n blk head).2 (rev (seq i n) ++ F)
/\ length (thread i n blk head).1 = length blk.
Proof.
revert i blk head F. induction n as [|n IH]; intros i blk head F Hlen HF Hc; [done|].
simpl. rewrite <- (assoc_L (++)). simpl.
destruct (IH (S i) (<[i := Order.set_next_free (blk !!! i) head]> blk) (Some i) (i :: F))
  as [Hc' Hl'].
- rewrite length_insert. lia.
- intros j. rewrite elem_of_cons. intros [->|Hj]; [lia|]. specialize (HF j Hj). lia.
- apply free_chain_push; [lia| |done]. intros Hi. specialize (HF i Hi). lia.
- split; [done|]. by rewrite Hl', length_insert.
Qed.

(** The constructor threads every slot into the free list, the last
  slot first: the free stack is [capacity-1, ..., 1, 0]. *)
Lemma create_rep cap :
  (Z.of_nat cap * sizeof_Order < 2 ^ 64)%Z -> pool_rep (create (P:=P) cap) (rev (seq 0 cap)).
Proof.
intros Hfit. unfold create. rewrite (block_slots_fit cap Hfit).
destruct (thread_chain 0 cap (replicate cap inhabitant) None [])
  as [Hc Hl]; [by rewrite length_replicate| set_solver | constructor |].
destruct (thread 0 cap _ None) as [blk head]. simpl in *.
rewrite app_nil_r in Hc. rewrite length_replicate in Hl. by split.
Qed.

(** Whatever the capacity, the block holds [block_slots] slots. *)
Lemma length_thread i n blk head : length (thread i n blk head).1 = length blk.
Proof. revert i blk head. induction n as [|n IH]; intros i blk head; [done|]. simpl. by rewrite IH, length_insert. Qed.

Lemma length_create_block cap : length (block (create (P:=P) cap)) = block_slots cap.
Proof.
unfold create. pose proof (length_thread 0 cap (replicate (block_slots cap) inhabitant) None) as Hl.
destruct (thread 0 cap _ None). simpl in *. by rewrite Hl, length_replicate.
Qed.

(** [allocate] pops the free stack: it returns its top slot, or
  [nullptr] when the stack is empty, and leaves the rest. *)
Lemma allocate_rep p F :
pool_rep p F ->
(allocate p).2 = (pop F).2 /\ pool_rep (allocate p).1 (pop F).1.
Proof.
intros [Hl Hc]. unfold allocate.
destruct (free_list p) as [i|] eqn:Ef; invc Hc; simpl;
  [|split; [done|split; [done|rewrite Ef; constructor]]].
match goal with Hi : block p !! i = Some _ |- _ => rewrite (list_lookup_total_correct _ _ _ Hi) end.
split; [done|split; simpl].
- by rewrite length_insert.
- by apply free_chain_frame.
Qed.

(** [deallocate] pushes a slot that is in range and not free; on
  [nullptr] it does nothing. *)
Lemma deallocate_rep p F o :
pool_rep p F -> (forall i, o = Some i -> i < capacity p /\ i ∉ F) ->
pool_rep (deallocate p o) (push F o).
Proof.
intros [Hl Hc] Ho. destruct o as [i|]; simpl; [|by split].
destruct (Ho i eq_refl) as [Hi HF]. split; simpl.
- by rewrite length_insert.
- apply free_chain_push; [lia|done|done].
Qed.

(** No slot is handed out twice: two successive allocations return
  distinct slots. *)
Theorem allocate_twice_distinct p F p1 p2 i j :
pool_rep p F -> allocate p = (p1, Some i) -> allocate p1 = (p2, Some j) -> i <> j.
Proof.
intros Hrep E1 E2.
destruct (allocate_rep p F Hrep) as [Hr1 Hp1]. rewrite E1 in Hr1, Hp1. simpl in *.
destruct (allocate_rep p1 _ Hp1) as [Hr2 _]. rewrite E2 in Hr2. simpl in *.
pose proof (pool_rep_NoDup p F Hrep) as Hnd.
destruct F as [|a [|b F]]; simpl in *; simplify_eq. by apply NoDup_cons_1_1, not_elem_of_cons in Hnd as [? _].
Qed.


(** C18: Refinement: on every sequence of calls whose releases are
  legitimate, the linked pool returns exactly what the abstract stack
  returns, and stays a representation of it. *)
Theorem pool_trace_refines (p : @t P) F ops :
  pool_rep p F -> releases_ok (capacity p) F ops = true ->
  (run_ops p ops).2 = (run_ops F ops).2 /\ pool_rep (run_ops p ops).1 (run_ops F ops).1.
Proof.
  revert p F. induction ops as [|[|o] ops IH]; intros p F Hr Hok; simpl in *; [done| |].
  - destruct (allocate_rep p F Hr) as [Hv Hp].
    destruct (allocate p) as [p1 r] eqn:Ea, (pop F) as [F1 r'] eqn:Ep. simpl in *. subst r'.
    rewrite <- (allocate_capacity p), Ea in Hok. simpl in Hok.
    destruct (IH p1 F1 Hp Hok) as [Hv' Hp'].
    destruct (run_ops p1 ops), (run_ops F1 ops). simpl in *. by subst.
  - apply andb_prop in Hok as [Hi Hok]. apply IH; [|by rewrite deallocate_capacity].
    apply deallocate_rep; [done|]. intros i ->. apply andb_prop in Hi as [Hi Hn].
    split; [by apply Nat.ltb_lt|]. by apply negb_true_iff, bool_decide_eq_false in Hn.
Qed.

(** C17: Handing back the slot [allocate] returned restores the pool
  exactly, whether or not a slot was free: [deallocate] undoes
  [allocate]. *)
Theorem deallocate_allocate (p : @t P) : deallocate (allocate p).1 (allocate p).2 = p.
Proof.
  destruct p as [blk [i|] cap]; [|done]. cbn [allocate deallocate block free_list capacity fst snd].
  rewrite list_insert_insert_eq. f_equal. apply list_insert_id'. intros Hi.
  rewrite list_lookup_lookup_total_lt by done. rewrite list_lookup_total_insert by done.
  case_decide as Hd; [by destruct (blk !!! i)|tauto].
Qed.

End PoolLemmas.
End MemoryPool.

(** ** Witnesses on a pool of three slots with integer prices *)

Section Witnesses.
Import MemoryPool.

Lemma pool_trace_refines_witness :
  let p := create (P:=Z) 3 in
  pool_rep p [2; 1; 0]%nat /\ releases_ok (capacity p) [2; 1; 0]%nat sample_ops = true /\
  (run_ops p sample_ops).2 = (run_ops [2; 1; 0]%nat sample_ops).2 /\
  pool_rep (run_ops p sample_ops).1 (run_ops [2; 1; 0]%nat sample_ops).1.
Proof.
  intros p. assert (Hr : pool_rep p [2; 1; 0]%nat) by solve_chain.
  assert (Hok : releases_ok (capacity p) [2; 1; 0]%nat sample_ops = true) by reflexivity.
  split; [exact Hr|]. split; [exact Hok|]. exact (pool_trace_refines p _ _ Hr Hok).
Defined.

Lemma allocate_twice_distinct_witness :
  let p := create (P:=Z) 3 in
  pool_rep p [2; 1; 0]%nat /\
  allocate p = ((allocate p).1, Some 2%nat) /\
  allocate (allocate p).1 = ((allocate (allocate p).1).1, Some 1%nat) /\ 2%nat <> 1%nat.
Proof.
  intros p. assert (Hr : pool_rep p [2; 1; 0]%nat) by solve_chain.
  assert (E1 : allocate p = ((allocate p).1, Some 2%nat)) by reflexivity.
  assert (E2 : allocate (allocate p).1 = ((allocate (allocate p).1).1, Some 1%nat)) by reflexivity.
  split; [exact Hr|]. split; [exact E1|]. split; [exact E2|].
  exact (allocate_twice_distinct p _ _ _ _ _ Hr E1 E2).
Defined.
End Witnesses.
