(* ===== verification/PriceLevels.v ===== *)
(** * Price levels

    The two sides of the book are [std::map<double, std::deque<Order*>,
    Cmp>] ([src/src/OrderBook.h], lines 42-44): [bids_] with
    [std::greater], [asks_] with [std::less].  A map is modelled by the
    list of its entries in iteration order, each a price and the FIFO
    deque of the slots resting at it; [std::map] keeps it sorted by its
    comparator [cmp] and identifies two keys when neither is [cmp]-less
    than the other.  The operations are those the code uses: [begin],
    [find], [erase], in-place update of a deque, and [operator[]]
    followed by [push_back]. *)

From Stdlib Require Import Sorted.
From S2P Require Import Prelude Order.

Module PriceLevels.
Section Levels.
Context {P : Type} (cmp : P -> P -> bool).
#[local] Set Default Proof Using "Type".

(** ** Data and operations *)

(** One entry: a price and its deque of slot indices. *)
Abbreviation level := (P * list nat)%type.

(** Key equivalence of [std::map]: neither key is less than the other. *)
Definition key_eqb (a b : P) : bool := negb (cmp a b) && negb (cmp b a).

(** [find(k)]: the deque of the entry whose key is equivalent to [k]
  (the search stops at the first key not less than [k]). *)
Fixpoint find (m : list level) (k : P) : option (list nat) :=
match m with
| [] => None
| (k', q) :: m' => if cmp k' k then find m' k else if cmp k k' then None else Some q
end.

(** [erase(it)] of the entry with key equivalent to [k]. *)
Fixpoint erase (m : list level) (k : P) : list level :=
match m with
| [] => []
| (k', q) :: m' =>
    if cmp k' k then (k', q) :: erase m' k else if cmp k k' then m else m'
end.

(** Assignment through the reference [auto& queueAtPrice = it->second]:
  the deque at [k] becomes [q]. *)
Fixpoint set_level (m : list level) (k : P) (q : list nat) : list level :=
match m with
| [] => []
| (k', q') :: m' =>
    if cmp k' k then (k', q') :: set_level m' k q else if cmp k k' then m else (k', q) :: m'
end.

(** [m[k].push_back(h)]: [operator[]] inserts an empty deque at [k]
  when no key is equivalent to it, then [h] goes to the back. *)
Fixpoint push_back (m : list level) (k : P) (h : nat) : list level :=
match m with
| [] => [(k, [h])]
| (k', q) :: m' =>
    if cmp k' k then (k', q) :: push_back m' k h
    else if cmp k k' then (k, [h]) :: m
    else (k', q ++ [h]) :: m'
end.

(** Every slot resting in the map, level by level, front first. *)
Definition handles (m : list level) : list nat := concat (map snd m).

(** Entries plus resting slots: bounds the iterations of matching. *)
Definition level_weight (m : list level) : nat := length m + length (handles m).

(** The image under [f] of every resting slot with its level's key,
  level by level, front first: the side as the matching loop sees it. *)
Definition side_map {A} (f : nat -> P -> A) (m : list level) : list A :=
concat ((fun l : level => (fun h => f h l.1) <$> l.2) <$> m).

(** ** Invariants of a side *)

(** Keys strictly increasing for [cmp] (so [begin()] is the best). *)
Definition sorted (m : list level) : Prop :=
StronglySorted (fun a b => cmp a.1 b.1 = true) m.

(** No entry has an empty deque. *)
Definition no_empty (m : list level) : Prop := Forall (fun l => l.2 <> []) m.

(** Every resting slot [x] of every entry [(k, q)] satisfies [R k x]. *)
Definition levels_ok (R : P -> nat -> Prop) (m : list level) : Prop :=
Forall (fun l => Forall (R l.1) l.2) m.

(** ** Lemmas *)

Lemma handles_cons k q m : handles ((k, q) :: m) = q ++ handles m.
Proof. reflexivity. Qed.

Lemma handles_app m1 m2 : handles (m1 ++ m2) = handles m1 ++ handles m2.
Proof. unfold handles. by rewrite map_app, concat_app. Qed.

(** [push_back] adds exactly one resting slot. *)
Lemma push_back_handles m k h : handles (push_back m k h) ≡ₚ h :: handles m.
Proof.
induction m as [|[k' q] m IH]; [done|]. simpl.
destruct (cmp k' k); [|destruct (cmp k k')]; rewrite ?handles_cons.
- rewrite IH. by rewrite Permutation_middle.
- done.
- rewrite <- (assoc_L (++)). simpl. by rewrite Permutation_middle.
Qed.

Lemma push_back_no_empty m k h : no_empty m -> no_empty (push_back m k h).
Proof.
unfold no_empty. induction m as [|[k' q] m IH]; intros Hm; simpl; [by repeat constructor|].
inversion Hm; subst.
destruct (cmp k' k); [|destruct (cmp k k')]; constructor; simpl; auto.
by destruct q.
Qed.

(** A property of every key survives [push_back] when the new key has it. *)
Lemma push_back_keys (Q : P -> Prop) m k h :
Forall (fun l => Q l.1) m -> Q k -> Forall (fun l => Q l.1) (push_back m k h).
Proof.
induction m as [|[k' q] m IH]; intros Hm Hk; simpl; [by repeat constructor|].
inversion Hm; subst. destruct (cmp k' k); [|destruct (cmp k k')]; constructor; auto.
Qed.

Lemma erase_keys (Q : level -> Prop) m k : Forall Q m -> Forall Q (erase m k).
Proof.
induction m as [|[k' q] m IH]; intros Hm; simpl; [done|].
inversion Hm; subst. destruct (cmp k' k); [|destruct (cmp k k')]; auto.
Qed.

Lemma set_level_keys (Q : P -> Prop) m k q :
Forall (fun l => Q l.1) m -> Forall (fun l => Q l.1) (set_level m k q).
Proof.
induction m as [|[k' q'] m IH]; intros Hm; simpl; [done|].
inversion Hm; subst. destruct (cmp k' k); [|destruct (cmp k k')]; constructor; auto.
Qed.

(** [find] locates an entry; [set_level] replaces its deque in place
    and [erase] removes it, the other entries keeping their order. *)
Lemma find_split m k q :
find m k = Some q -> exists m1 k' m2, m = m1 ++ (k', q) :: m2 /\
  (forall q', set_level m k q' = m1 ++ (k', q') :: m2) /\ erase m k = m1 ++ m2.
Proof.
induction m as [|[k1 q1] m IH]; simpl; [done|].
destruct (cmp k1 k); [|destruct (cmp k k1)]; intros Hf; simplify_eq.
- destruct (IH Hf) as (m1 & k' & m2 & -> & Hs & He).
  exists ((k1, q1) :: m1), k', m2. split_and!; [done| |by rewrite He]. intros q'. by rewrite Hs.
- by exists [], k1, m.
Qed.

(** What [find] finds, [erase] removes. *)
Lemma find_erase_handles m k q :
find m k = Some q -> handles m ≡ₚ q ++ handles (erase m k).
Proof.
induction m as [|[k' q'] m IH]; simpl; [done|].
destruct (cmp k' k); [|destruct (cmp k k')]; intros Hf; simplify_eq; [|done].
rewrite !handles_cons, IH by done. by rewrite !(assoc_L (++)), (comm (++) q' q).
Qed.

Lemma find_set_level_handles m k q q' :
find m k = Some q -> handles (set_level m k q') ≡ₚ q' ++ handles (erase m k).
Proof.
induction m as [|[k1 q1] m IH]; simpl; [done|].
destruct (cmp k1 k); [|destruct (cmp k k1)]; intros Hf; simplify_eq; [|done].
rewrite !handles_cons, IH by done. by rewrite !(assoc_L (++)), (comm (++) q1 q').
Qed.

Lemma erase_no_empty m k : no_empty m -> no_empty (erase m k).
Proof. apply erase_keys. Qed.

Lemma set_level_no_empty m k q : q <> [] -> no_empty m -> no_empty (set_level m k q).
Proof.
unfold no_empty. induction m as [|[k1 q1] m IH]; intros Hq Hm; simpl; [done|].
inversion Hm; subst. destruct (cmp k1 k); [|destruct (cmp k k1)]; constructor; auto.
Qed.

(** The deque found at [k] is the one [set_level] replaces. *)
Lemma set_level_levels_ok R m k q q' :
find m k = Some q -> (forall x, x ∈ q' -> x ∈ q) ->
levels_ok R m -> levels_ok R (set_level m k q').
Proof.
unfold levels_ok. induction m as [|[k1 q1] m IH]; simpl; [done|].
intros Hf Hsub Hm. inversion Hm as [|? ? Hl Hm']; subst.
destruct (cmp k1 k); [|destruct (cmp k k1)]; simplify_eq; constructor; auto.
simpl in *. rewrite Forall_forall in Hl |- *. auto.
Qed.

Lemma erase_levels_ok R m k : levels_ok R m -> levels_ok R (erase m k).
Proof. apply erase_keys. Qed.

Lemma elem_of_handles x m : x ∈ handles m <-> exists k q, (k, q) ∈ m /\ x ∈ q.
Proof.
induction m as [|[k' q'] m IH].
- split; [intros Hx; inversion Hx|intros (k & q & Hin & _); inversion Hin].
- rewrite handles_cons, elem_of_app, IH. split.
  + intros [Hx|(k & q & Hin & Hx)]; [exists k', q'|exists k, q];
      (split; [apply elem_of_cons|done]); auto.
  + intros (k & q & Hin & Hx). apply elem_of_cons in Hin as [Heq|Hin].
    * simplify_eq. by left.
    * right. eauto.
Qed.

(** The deque [find] returns rests in the map. *)
Lemma find_handles m k q x : find m k = Some q -> x ∈ q -> x ∈ handles m.
Proof.
intros Hf Hx. apply elem_of_handles.
induction m as [|[k' q'] m IH]; simpl in Hf; [done|].
destruct (cmp k' k); [|destruct (cmp k k')]; simplify_eq.
- destruct (IH Hf) as (k1 & q1 & Hin & Hx1). exists k1, q1. split; [by right|done].
- exists k', q. split; [by left|done].
Qed.

(** A per-level property only matters on the slots that rest. *)
Lemma levels_ok_impl (R R' : P -> nat -> Prop) m :
(forall k x, x ∈ handles m -> R k x -> R' k x) -> levels_ok R m -> levels_ok R' m.
Proof.
unfold levels_ok. intros HR Hm. rewrite Forall_forall in Hm |- *.
intros [k q] Hin. specialize (Hm _ Hin). rewrite Forall_forall in Hm |- *. simpl in *.
intros x Hx. apply HR; [|auto]. apply elem_of_handles. eauto.
Qed.

(** ** Views of a side *)

Lemma side_map_cons {A} (f : nat -> P -> A) k q m :
side_map f ((k, q) :: m) = ((fun h => f h k) <$> q) ++ side_map f m.
Proof. done. Qed.

Lemma side_map_app {A} (f : nat -> P -> A) m1 m2 : side_map f (m1 ++ m2) = side_map f m1 ++ side_map f m2.
Proof. unfold side_map. by rewrite fmap_app, concat_app. Qed.

(** Every slot of a side satisfies the test of its level. *)
Lemma levels_ok_handles (R : P -> nat -> Prop) m h :
levels_ok R m -> h ∈ handles m -> exists k, R k h.
Proof.
unfold levels_ok. rewrite Forall_forall. intros Hl (k & q & Hkq & Hh)%elem_of_handles.
exists k. specialize (Hl _ Hkq). rewrite Forall_forall in Hl. by apply Hl.
Qed.

(** A view has an element per resting slot. *)
Lemma length_side_map {A} (f : nat -> P -> A) m : length (side_map f m) = length (handles m).
Proof.
induction m as [|[k q] m IH]; [done|].
by rewrite side_map_cons, handles_cons, !length_app, length_fmap, IH.
Qed.

(** A view only looks at the slots resting in the side. *)
Lemma side_map_ext {A} (f g : nat -> P -> A) m :
(forall h k, h ∈ handles m -> f h k = g h k) -> side_map f m = side_map g m.
Proof.
induction m as [|[k q] m IH]; intros Hfg; [done|].
rewrite !side_map_cons, handles_cons in *. f_equal.
- apply list_fmap_ext. intros _ h Hh%list_elem_of_lookup_2. apply Hfg, elem_of_app. by left.
- apply IH. intros h k' Hh. apply Hfg, elem_of_app. by right.
Qed.

Lemma elem_of_side_map {A} (f : nat -> P -> A) m e :
e ∈ side_map f m -> exists h k, h ∈ handles m /\ e = f h k.
Proof.
induction m as [|[k q] m IH]; [intros Hn; by apply elem_of_nil in Hn|].
rewrite side_map_cons, handles_cons, elem_of_app.
intros [(h & -> & Hh)%list_elem_of_fmap|(h & k' & Hh & ->)%IH];
  (eexists _, _; split; [apply elem_of_app|done]); first [by left|by right].
Qed.

(** Filtering a view by a test every slot of the side passes keeps it. *)
Lemma side_map_filter_all {A} (Q : A -> Prop) `{!forall x, Decision (Q x)} (f : nat -> P -> A) m :
(forall h k, h ∈ handles m -> Q (f h k)) -> filter Q (side_map f m) = side_map f m.
Proof. intros HQ. apply filter_all, Forall_forall. intros e (h & k & Hh & ->)%elem_of_side_map. by apply HQ. Qed.

(** In a deque where only the slot at [pos] fails the test, filtering
  its view deletes position [pos]. *)
Lemma deque_filter_delete {A} (Q : A -> Prop) `{!forall x, Decision (Q x)} (f : nat -> A) (q : list nat) pos h :
q !! pos = Some h -> ~ Q (f h) -> (forall j h', q !! j = Some h' -> j <> pos -> Q (f h')) ->
filter Q (f <$> q) = f <$> delete pos q.
Proof.
intros Hpos Hn Hother. rewrite list_fmap_delete.
apply (filter_delete _ _ _ (f h)); [by rewrite list_lookup_fmap, Hpos|done|].
intros j e. rewrite list_lookup_fmap. destruct (q !! j) as [h'|] eqn:Hj; intros [= <-] Hne.
exact (Hother j h' Hj Hne).
Qed.

Section Ordered.
Context {Hswo : StrictWeakOrder cmp}.
#[local] Set Default Proof Using "Type Hswo".

Lemma key_eqb_refl a : key_eqb a a = true.
Proof. unfold key_eqb. by rewrite (swo_irrefl (cmp:=cmp)). Qed.

Lemma key_eqb_sym a b : key_eqb a b = key_eqb b a.
Proof. unfold key_eqb. by rewrite andb_comm. Qed.

(** A key equivalent to [a] compares as [a] does. *)
Lemma cmp_key_l a b c : key_eqb a b = true -> cmp b c = true -> cmp a c = true.
Proof.
unfold key_eqb. intros Hab Hbc. apply andb_prop in Hab as [H1 H2].
destruct (swo_neg_trans b a c Hbc) as [Hba|]; [|done]. by rewrite Hba in H2.
Qed.

Lemma cmp_key_r a b c : key_eqb b c = true -> cmp a b = true -> cmp a c = true.
Proof.
unfold key_eqb. intros Hbc Hab. apply andb_prop in Hbc as [H1 H2].
destruct (swo_neg_trans a c b Hab) as [|Hcb]; [done|]. by rewrite Hcb in H2.
Qed.

Lemma key_eqb_trans a b c : key_eqb a b = true -> key_eqb b c = true -> key_eqb a c = true.
Proof.
intros Hab Hbc. unfold key_eqb in Hbc. apply andb_prop in Hbc as [Hbc1 Hbc2].
apply negb_true_iff in Hbc1, Hbc2. unfold key_eqb.
destruct (cmp a c) eqn:Eac; [|destruct (cmp c a) eqn:Eca; [|done]].
- rewrite (cmp_key_l b a c) in Hbc1; [done| |done]. by rewrite key_eqb_sym.
- by rewrite (cmp_key_r c a b) in Hbc2.
Qed.

Lemma key_eqb_of_not_cmp a b : cmp a b = false -> cmp b a = false -> key_eqb a b = true.
Proof. unfold key_eqb. by intros -> ->. Qed.

(** [push_back] appends at the back of the deque at [k] (a new deque
  when there is none): FIFO order within a level. *)
Lemma find_push_back m k h :
find (push_back m k h) k = Some (default [] (find m k) ++ [h]).
Proof.
induction m as [|[k' q] m IH]; simpl.
- by rewrite (swo_irrefl (cmp:=cmp)).
- destruct (cmp k' k) eqn:E1; simpl; rewrite ?E1; [done|].
  destruct (cmp k k') eqn:E2; simpl; rewrite ?E1, ?E2; [|done].
  by rewrite (swo_irrefl (cmp:=cmp)).
Qed.

Lemma push_back_sorted m k h : sorted m -> sorted (push_back m k h).
Proof.
unfold sorted. induction m as [|[k' q] m IH]; intros Hm; simpl; [by repeat constructor|].
apply StronglySorted_inv in Hm as [Hm Hf].
destruct (cmp k' k) eqn:E1; [|destruct (cmp k k') eqn:E2].
- constructor; [auto|]. by apply (push_back_keys (fun x => cmp k' x = true)).
- constructor; [by constructor|]. constructor; [done|].
  eapply Forall_impl; [done|]. intros [k2 q2] H2. simpl in *. by apply (swo_trans k k' k2).
- constructor; [done|]. done.
Qed.

Lemma erase_sorted m k : sorted m -> sorted (erase m k).
Proof.
unfold sorted. induction m as [|[k' q] m IH]; intros Hm; simpl; [done|].
pose proof (StronglySorted_inv Hm) as [Hm' Hf].
destruct (cmp k' k); [|destruct (cmp k k')]; [|by constructor|done].
constructor; [auto|]. by apply erase_keys.
Qed.

Lemma set_level_sorted m k q : sorted m -> sorted (set_level m k q).
Proof.
unfold sorted. induction m as [|[k' q'] m IH]; intros Hm; simpl; [done|].
pose proof (StronglySorted_inv Hm) as [Hm' Hf].
destruct (cmp k' k); [|destruct (cmp k k')]; [|by constructor|by constructor].
constructor; [auto|]. by apply (set_level_keys (fun x => cmp k' x = true)).
Qed.

(** [push_back] keeps a per-level property that only depends on the
  key up to equivalence. *)
Lemma push_back_levels_ok (R : P -> nat -> Prop) m k h :
(forall k1 k2 x, key_eqb k1 k2 = true -> R k1 x -> R k2 x) ->
R k h -> levels_ok R m -> levels_ok R (push_back m k h).
Proof.
unfold levels_ok. intros HR Hk. induction m as [|[k' q] m IH]; intros Hm; simpl.
- by repeat constructor.
- inversion Hm as [|? ? Hl Hm']; subst.
  destruct (cmp k' k) eqn:E1; [|destruct (cmp k k') eqn:E2].
  + constructor; auto.
  + constructor; [by repeat constructor|done].
  + constructor; [|done]. simpl. apply Forall_app; split; [done|].
    constructor; [|done]. apply (HR k); [by apply key_eqb_of_not_cmp|done].
Qed.

(** On a sorted map, [find] finds the entry of every equivalent key. *)
Lemma find_complete m k k' q :
sorted m -> (k', q) ∈ m -> key_eqb k k' = true -> find m k = Some q.
Proof.
unfold sorted. induction m as [|[k1 q1] m IH]; intros Hm Hin Hk; [set_solver|].
apply StronglySorted_inv in Hm as [Hm Hf]. simpl.
apply elem_of_cons in Hin as [Heq|Hin].
- simplify_eq. unfold key_eqb in Hk. apply andb_prop in Hk as [H1 H2].
  apply negb_true_iff in H1, H2. by rewrite H1, H2.
- rewrite Forall_forall in Hf. specialize (Hf _ Hin). simpl in Hf.
  rewrite (cmp_key_r k1 k' k); [by apply IH| |done]. by rewrite key_eqb_sym.
Qed.

(** [begin()] of a sorted map is its best key. *)
Lemma sorted_head_best k q m :
sorted ((k, q) :: m) -> Forall (fun l => cmp k l.1 = true) m.
Proof. unfold sorted. intros Hm. by apply StronglySorted_inv in Hm as [_ Hf]. Qed.

Lemma sorted_tail k q q' m : sorted ((k, q) :: m) -> sorted ((k, q') :: m).
Proof. unfold sorted. intros Hm. apply StronglySorted_inv in Hm as [Hm Hf]. by constructor. Qed.

Lemma sorted_cons_inv l m : sorted (l :: m) -> sorted m.
Proof. unfold sorted. intros Hm. by apply StronglySorted_inv in Hm as [Hm _]. Qed.
End Ordered.

End Levels.
End PriceLevels.
