(* ===== verification/OrderBook.v ===== *)
(** * The order book

    [class OrderBook] of [src/src/OrderBook.h] and
    [src/src/OrderBook.cpp]: its state as a record, the matching
    functions, [addToBook], [totalActiveOrders] and the constructor
    ([processOrder] is defined in [ProcessOrder], [cancelOrder] in
    [Cancel], beside their theorems).  Every statement that reads or writes an order
    goes through the pool's slots, as the code goes through pointers,
    so that a write through one pointer is seen through another.  The
    two C++ branches of each matching function (BUY against [asks_],
    SELL against [bids_]) are one definition taking the incoming side:
    they differ only in the map they walk and in the direction of the
    price gate. *)

From S2P Require Import Prelude Order MemoryPool PriceLevels.
Local Open Scope Z_scope.
Local Open Scope lob_scope.

Module OrderBook.
Section Book.
Context {P : Type} `{Inhabited P} `{PriceLt P}.

Abbreviation order := (Order.t P).
Abbreviation fill := (Fill.t P).
Abbreviation pool := (@MemoryPool.t P).
Abbreviation level := (P * list nat)%type.

(** ** State *)

(** The members of [OrderBook] (OrderBook.h, lines 41-50). *)
Record t := mk {
pool_ : pool;
bids_ : list level;
asks_ : list level;
id_map_ : gmap Z nat;
max_orders_ : nat;
active_orders_ : Z
}.

Definition set_pool (b : t) (p : pool) : t :=
mk p (bids_ b) (asks_ b) (id_map_ b) (max_orders_ b) (active_orders_ b).

(** ** The two sides *)

(** The comparator of a side's map: [std::greater] for bids,
  [std::less] for asks. *)
Definition side_cmp (s : Side) : P -> P -> bool :=
match s with BUY => greater | SELL => price_lt end.

(** The map holding the orders of side [s]. *)
Definition side_levels (b : t) (s : Side) : list level :=
match s with BUY => bids_ b | SELL => asks_ b end.

Definition set_side_levels (b : t) (s : Side) (m : list level) : t :=
match s with
| BUY => mk (pool_ b) m (asks_ b) (id_map_ b) (max_orders_ b) (active_orders_ b)
| SELL => mk (pool_ b) (bids_ b) m (id_map_ b) (max_orders_ b) (active_orders_ b)
end.

Definition opposite (s : Side) : Side := match s with BUY => SELL | SELL => BUY end.

(** The price gate of [matchLimitOrder]: a BUY stops when
  [incoming->price < bestPrice] (line 133), a SELL when
  [incoming->price > bestPrice] (line 166). *)
Definition gate_blocks (s : Side) (limit best : P) : bool :=
match s with BUY => price_lt limit best | SELL => price_lt best limit end.

(** ** Matching *)

(** One iteration of the matching loop once the best level
  [(best, q) :: rest] of the opposite side [so] has been found
  (OrderBook.cpp, lines 137-156; the same text is repeated at lines
  170-189, 204-223 and 231-250): trade against the front record,
  decrement both quantities, and retire the resting record if it is
  exhausted. *)
Definition match_front (b : t) (so : Side) (inc : nat) (best : P) (q : list nat)
  (rest : list level) (fills : list fill) : t * list fill :=
let resting := default 0%nat (head q) in
let io := MemoryPool.read (pool_ b) inc in
let ro := MemoryPool.read (pool_ b) resting in
let traded := Z.min (Order.quantity io) (Order.quantity ro) in
let fills' := fills ++ [Fill.mk P (Order.id ro) (Order.id io) traded best] in
let p1 := MemoryPool.write (pool_ b) inc
            (Order.set_quantity io (Order.quantity io ⊖ traded)) in
let ro1 := MemoryPool.read p1 resting in
let p2 := MemoryPool.write p1 resting
            (Order.set_quantity ro1 (Order.quantity ro1 ⊖ traded)) in
let ro2 := MemoryPool.read p2 resting in
if Order.quantity ro2 =? 0 then
  let q' := tail q in
  let m' := match q' with [] => rest | _ => (best, q') :: rest end in
  let b' := mk (MemoryPool.deallocate p2 (Some resting)) (bids_ b) (asks_ b)
               (delete (Order.id ro2) (id_map_ b)) (max_orders_ b)
               (size_dec (active_orders_ b)) in
  (set_side_levels b' so m', fills')
else (set_pool b p2, fills').

(** The four loops of the code, as written.  Each is
  [while (incoming->quantity > 0 && !levels.empty())] over one map,
  with or without the price gate; [None] means the fuel ran out. *)

(** BUY limit against [asks_] (OrderBook.cpp, lines 128-157); the gate
  is [incoming->price < bestPrice] (line 133). *)
Fixpoint limit_buy_loop (fuel : nat) (b : t) (inc : nat) (fills : list fill)
  : option (t * list fill) :=
match fuel with
| O => None
| S fuel' =>
    let io := MemoryPool.read (pool_ b) inc in
    if 0 <? Order.quantity io then
      match asks_ b with
      | [] => Some (b, fills)
      | (best, q) :: rest =>
          if price_lt (Order.price io) best then Some (b, fills)
          else
            let '(b', fills') := match_front b SELL inc best q rest fills in
            limit_buy_loop fuel' b' inc fills'
      end
    else Some (b, fills)
end.

(** SELL limit against [bids_] (lines 161-190); the gate is
  [incoming->price > bestPrice] (line 166). *)
Fixpoint limit_sell_loop (fuel : nat) (b : t) (inc : nat) (fills : list fill)
  : option (t * list fill) :=
match fuel with
| O => None
| S fuel' =>
    let io := MemoryPool.read (pool_ b) inc in
    if 0 <? Order.quantity io then
      match bids_ b with
      | [] => Some (b, fills)
      | (best, q) :: rest =>
          if price_lt best (Order.price io) then Some (b, fills)
          else
            let '(b', fills') := match_front b BUY inc best q rest fills in
            limit_sell_loop fuel' b' inc fills'
      end
    else Some (b, fills)
end.

(** BUY market against [asks_] (lines 201-224), no gate. *)
Fixpoint market_buy_loop (fuel : nat) (b : t) (inc : nat) (fills : list fill)
  : option (t * list fill) :=
match fuel with
| O => None
| S fuel' =>
    let io := MemoryPool.read (pool_ b) inc in
    if 0 <? Order.quantity io then
      match asks_ b with
      | [] => Some (b, fills)
      | (best, q) :: rest =>
          let '(b', fills') := match_front b SELL inc best q rest fills in
          market_buy_loop fuel' b' inc fills'
      end
    else Some (b, fills)
end.

(** SELL market against [bids_] (lines 228-251), no gate. *)
Fixpoint market_sell_loop (fuel : nat) (b : t) (inc : nat) (fills : list fill)
  : option (t * list fill) :=
match fuel with
| O => None
| S fuel' =>
    let io := MemoryPool.read (pool_ b) inc in
    if 0 <? Order.quantity io then
      match bids_ b with
      | [] => Some (b, fills)
      | (best, q) :: rest =>
          let '(b', fills') := match_front b BUY inc best q rest fills in
          market_sell_loop fuel' b' inc fills'
      end
    else Some (b, fills)
end.

(** [void matchLimitOrder(Order* incoming, std::vector<Fill>& fills)]:
  the branch on [incoming->side] (line 126). *)
Definition matchLimitOrder (fuel : nat) (b : t) (inc : nat) (fills : list fill)
  : option (t * list fill) :=
match Order.side (MemoryPool.read (pool_ b) inc) with
| BUY => limit_buy_loop fuel b inc fills
| SELL => limit_sell_loop fuel b inc fills
end.

(** [void matchMarketOrder(Order* incoming, std::vector<Fill>& fills)]. *)
Definition matchMarketOrder (fuel : nat) (b : t) (inc : nat) (fills : list fill)
  : option (t * list fill) :=
match Order.side (MemoryPool.read (pool_ b) inc) with
| BUY => market_buy_loop fuel b inc fills
| SELL => market_sell_loop fuel b inc fills
end.

(** The one matching routine of section 4.3 of the specification,
  parameterized by the incoming side [s] and whether the price gate
  applies; the theorems are proved about it, and [Matching] shows the
  four loops above are its instances. *)
Fixpoint match_loop (fuel : nat) (gated : bool) (s : Side) (b : t) (inc : nat)
  (fills : list fill) : option (t * list fill) :=
match fuel with
| O => None
| S fuel' =>
    let io := MemoryPool.read (pool_ b) inc in
    if 0 <? Order.quantity io then
      match side_levels b (opposite s) with
      | [] => Some (b, fills)
      | (best, q) :: rest =>
          if gated && gate_blocks s (Order.price io) best then Some (b, fills)
          else
            let '(b', fills') := match_front b (opposite s) inc best q rest fills in
            match_loop fuel' gated s b' inc fills'
      end
    else Some (b, fills)
end.

(** ** Resting and submitting *)

(** [void addToBook(Order* order)]: [bids_[price].push_back(order)]
  or [asks_[price].push_back(order)]. *)
Definition addToBook (b : t) (o : nat) : t :=
let ord := MemoryPool.read (pool_ b) o in
let s := Order.side ord in
set_side_levels b s (PriceLevels.push_back (side_cmp s) (side_levels b s) (Order.price ord) o).

(** Lines 45-48 of [processOrder]: a LIMIT remainder rests in the book
    ([addToBook]), is indexed ([id_map_[incoming->id] = incoming]) and
    counted ([++active_orders_]). *)
Definition restOrder (b : t) (inc : nat) : t :=
  let io := MemoryPool.read (pool_ b) inc in
  let b3 := addToBook b inc in
  mk (pool_ b3) (bids_ b3) (asks_ b3) (<[Order.id io := inc]> (id_map_ b3)) (max_orders_ b3)
     (size_inc (active_orders_ b3)).

(** ** Queries and construction *)

(** [size_t totalActiveOrders() const]. *)
Definition totalActiveOrders (b : t) : Z := active_orders_ b.

(** [OrderBook(size_t max_orders)]. *)
Definition create (max_orders : nat) : t :=
mk (MemoryPool.create max_orders) [] [] ∅ max_orders 0.

(** ** The four loops are instances of [match_loop] *)

Ltac loop_eq IH :=
  cbn [limit_buy_loop limit_sell_loop market_buy_loop market_sell_loop match_loop
       side_levels opposite gate_blocks andb];
  repeat case_match; try done; apply IH.

Lemma limit_buy_loop_eq fuel b inc fills :
  limit_buy_loop fuel b inc fills = match_loop fuel true BUY b inc fills.
Proof. revert b fills. induction fuel as [|fuel IH]; intros b fills; [done|loop_eq IH]. Qed.

Lemma limit_sell_loop_eq fuel b inc fills :
  limit_sell_loop fuel b inc fills = match_loop fuel true SELL b inc fills.
Proof. revert b fills. induction fuel as [|fuel IH]; intros b fills; [done|loop_eq IH]. Qed.

Lemma market_buy_loop_eq fuel b inc fills :
  market_buy_loop fuel b inc fills = match_loop fuel false BUY b inc fills.
Proof. revert b fills. induction fuel as [|fuel IH]; intros b fills; [done|loop_eq IH]. Qed.

Lemma market_sell_loop_eq fuel b inc fills :
  market_sell_loop fuel b inc fills = match_loop fuel false SELL b inc fills.
Proof. revert b fills. induction fuel as [|fuel IH]; intros b fills; [done|loop_eq IH]. Qed.

Lemma matchLimitOrder_eq fuel b inc fills :
  matchLimitOrder fuel b inc fills =
  match_loop fuel true (Order.side (MemoryPool.read (pool_ b) inc)) b inc fills.
Proof.
  unfold matchLimitOrder. destruct (Order.side _);
    [apply limit_buy_loop_eq|apply limit_sell_loop_eq].
Qed.

Lemma matchMarketOrder_eq fuel b inc fills :
  matchMarketOrder fuel b inc fills =
  match_loop fuel false (Order.side (MemoryPool.read (pool_ b) inc)) b inc fills.
Proof.
  unfold matchMarketOrder. destruct (Order.side _);
    [apply market_buy_loop_eq|apply market_sell_loop_eq].
Qed.

(** C19: the four copies of the matching loop in the code (limit and
    market, BUY and SELL) all compute the one parameterized routine
    [match_loop] that section 4.3 of the specification asks for: with
    the gate for [matchLimitOrder], without it for [matchMarketOrder],
    on the side the incoming order names. *)
Theorem matching_routines_equiv fuel b inc fills :
  let s := Order.side (MemoryPool.read (pool_ b) inc) in
  matchLimitOrder fuel b inc fills = match_loop fuel true s b inc fills /\
  matchMarketOrder fuel b inc fills = match_loop fuel false s b inc fills.
Proof. split; [apply matchLimitOrder_eq|apply matchMarketOrder_eq]. Qed.

End Book.
End OrderBook.
