(* ===== verification/BookInvariant.v ===== *)
(** * The invariant of the order book

    [inv b F live] says that the book [b] is well formed when the pool's
    free list represents the stack [F] and the caller owns the slots
    [live] (the incoming order while [processOrder] runs):
    - every slot of the pool is exactly one of: free, owned by the
      caller, or resting in one of the two sides;
    - each side is sorted by its comparator, has no empty level, and
      every record resting at price [k] is a LIMIT order of that side,
      with a price equivalent to [k] and a quantity in [1, 2^32);
    - [id_map_] maps exactly the ids of the resting records to their
      slots, and those ids are distinct;
    - [active_orders_] is the number of resting records.
    A book between two calls is well formed ([wf]) when the caller owns
    no slot.  The lemmas below show that each state change the
    operations make keeps the invariant. *)

From S2P Require Import Prelude Order MemoryPool PriceLevels OrderBook.
Local Open Scope Z_scope.

Module BookInvariant.
Import OrderBook.
Section Invariant.
Context {P : Type} `{Inhabited P} `{PriceLt P} `{!StrictWeakOrder (price_lt (P:=P))}.

Abbreviation book := (@OrderBook.t P).
Abbreviation pool := (@MemoryPool.t P).
Abbreviation level := (P * list nat)%type.

(** ** Definitions *)

(** The slots resting in the book. *)
Definition resting (b : book) : list nat :=
PriceLevels.handles (bids_ b) ++ PriceLevels.handles (asks_ b).

Definition order_id (p : pool) (h : nat) : Z := Order.id (MemoryPool.read p h).

(** The record in slot [h] may rest at key [k] of side [s]. *)
Definition slot_ok (p : pool) (s : Side) (k : P) (h : nat) : Prop :=
let o := MemoryPool.read p h in
Order.side o = s /\ Order.type o = LIMIT /\
PriceLevels.key_eqb (side_cmp s) k (Order.price o) = true /\
0 < Order.quantity o < 2 ^ 32.

Definition side_ok (p : pool) (s : Side) (m : list level) : Prop :=
PriceLevels.sorted (side_cmp s) m /\ PriceLevels.no_empty m /\
PriceLevels.levels_ok (slot_ok p s) m.

Record inv (b : book) (F live : list nat) : Prop := {
inv_pool : MemoryPool.pool_rep (pool_ b) F;
inv_slots : F ++ live ++ resting b ≡ₚ seq 0 (MemoryPool.capacity (pool_ b));
inv_sides : forall s, side_ok (pool_ b) s (side_levels b s);
inv_ids : forall id h, id_map_ b !! id = Some h <-> h ∈ resting b /\ order_id (pool_ b) h = id;
inv_unique : NoDup (order_id (pool_ b) <$> resting b);
inv_active : active_orders_ b = Z.of_nat (length (resting b));
inv_cap : Z.of_nat (MemoryPool.capacity (pool_ b)) < 2 ^ 64
}.

(** A book between two calls. *)
Definition wf (b : book) : Prop := exists F, inv b F [].

(** A change of the pool that keeps, on every resting slot, the id and
    the admissibility at its level. *)
Definition pool_compat (p p' : pool) (l : list nat) : Prop :=
  forall h, h ∈ l ->
    order_id p' h = order_id p h /\ (forall s k, slot_ok p s k h -> slot_ok p' s k h).

(** ** Accessors of the two sides *)

Lemma resting_sides (b : book) s :
resting b ≡ₚ PriceLevels.handles (side_levels b s) ++ PriceLevels.handles (side_levels b (opposite s)).
Proof. unfold resting. destruct s; simpl; [done|]. by rewrite (comm (++)). Qed.

Lemma side_levels_set_eq (b : book) s m : side_levels (set_side_levels b s m) s = m.
Proof. by destruct s. Qed.

Lemma side_levels_set_opp (b : book) s m :
side_levels (set_side_levels b s m) (opposite s) = side_levels b (opposite s).
Proof. by destruct s. Qed.

Lemma side_levels_set_ne (b : book) s s' m :
s' <> s -> side_levels (set_side_levels b s m) s' = side_levels b s'.
Proof. destruct s, s'; simpl; congruence. Qed.

Lemma opposite_ne s : opposite s <> s.
Proof. by destruct s. Qed.

Lemma opposite_involutive s : opposite (opposite s) = s.
Proof. by destruct s. Qed.

Lemma resting_set_side (b : book) s m :
resting (set_side_levels b s m) ≡ₚ
  PriceLevels.handles m ++ PriceLevels.handles (side_levels b (opposite s)).
Proof.
rewrite (resting_sides _ s). by rewrite side_levels_set_eq, side_levels_set_opp.
Qed.

Lemma set_side_fields (b : book) s m :
pool_ (set_side_levels b s m) = pool_ b /\ id_map_ (set_side_levels b s m) = id_map_ b /\
active_orders_ (set_side_levels b s m) = active_orders_ b.
Proof. by destruct s. Qed.

(** ** Consequences of the slot partition *)

Lemma inv_NoDup b F live : inv b F live -> NoDup (F ++ live ++ resting b).
Proof. intros Hi. rewrite (inv_slots _ _ _ Hi). apply NoDup_seq. Qed.

Lemma inv_lt b F live x :
inv b F live -> x ∈ F ++ live ++ resting b -> (x < length (MemoryPool.block (pool_ b)))%nat.
Proof.
intros Hi. rewrite (inv_slots _ _ _ Hi), elem_of_seq.
destruct (inv_pool _ _ _ Hi) as [-> _]. lia.
Qed.

(** A slot of the partition is in range. *)
#[local] Hint Extern 2 (_ < length (MemoryPool.block _))%nat => 
  match goal with H : inv _ _ _ |- _ => eapply (inv_lt _ _ _ _ H); set_solver end : lob.

Lemma inv_live_not_resting b F live x : inv b F live -> x ∈ live -> x ∉ resting b.
Proof.
intros Hi. apply NoDup_app_disjoint, (NoDup_app_r F), inv_NoDup with (1 := Hi).
Qed.

Lemma inv_free_disjoint b F live x : inv b F live -> x ∈ F -> x ∉ live ++ resting b.
Proof. intros Hi. apply NoDup_app_disjoint, inv_NoDup with (1 := Hi). Qed.

Lemma inv_resting_not_free b F live x : inv b F live -> x ∈ resting b -> x ∉ F.
Proof. intros Hi Hx Hf. apply (inv_free_disjoint _ _ _ _ Hi Hf). set_solver. Qed.

Lemma inv_live_not_free b F live x : inv b F live -> x ∈ live -> x ∉ F.
Proof. intros Hi Hx Hf. apply (inv_free_disjoint _ _ _ _ Hi Hf). set_solver. Qed.

(** The counter and the free stack account for every slot. *)
Lemma inv_count b F live :
  inv b F live ->
  Z.of_nat (length F + length live) + active_orders_ b = Z.of_nat (MemoryPool.capacity (pool_ b)).
Proof.
  intros Hi. rewrite (inv_active _ _ _ Hi).
  pose proof (Permutation_length (inv_slots _ _ _ Hi)) as Hl.
  rewrite length_seq, !length_app in Hl. lia.
Qed.

(** ** Changing the pool without touching resting records *)

Lemma pool_compat_of_read (p p' : pool) l :
  (forall h, h ∈ l -> MemoryPool.read p' h = MemoryPool.read p h) -> pool_compat p p' l.
Proof. intros Hr h Hh. unfold order_id, slot_ok. by rewrite Hr. Qed.

Lemma side_ok_frame (p p' : pool) s m :
  pool_compat p p' (PriceLevels.handles m) -> side_ok p s m -> side_ok p' s m.
Proof.
  intros Hr (Hs & Hn & Hl). split; [done|split; [done|]].
  apply (PriceLevels.levels_ok_impl (slot_ok p s)); [|done].
  intros k x Hx. by apply Hr.
Qed.

Lemma inv_set_pool (b : book) F live p' F' live' :
  inv b F live ->
  MemoryPool.pool_rep p' F' -> MemoryPool.capacity p' = MemoryPool.capacity (pool_ b) ->
  F' ++ live' ++ resting b ≡ₚ F ++ live ++ resting b ->
  pool_compat (pool_ b) p' (resting b) ->
  inv (set_pool b p') F' live'.
Proof.
  intros Hi Hp Hc Hperm Hr.
  assert (Hid : order_id p' <$> resting b = order_id (pool_ b) <$> resting b).
  { apply list_fmap_ext. intros i x Hx.
    apply Hr. by eapply list_elem_of_lookup_2. }
  constructor; simpl; try rewrite Hc.
  - done.
  - rewrite Hperm. apply (inv_slots _ _ _ Hi).
  - intros s. eapply side_ok_frame; [|apply (inv_sides _ _ _ Hi)].
    intros h Hh. apply Hr. rewrite (resting_sides b s). set_solver.
  - intros id h. unfold resting; simpl. fold (resting b). rewrite (inv_ids _ _ _ Hi).
    split; intros [Hh <-]; (split; [done|]); by rewrite (proj1 (Hr h Hh)).
  - unfold resting; simpl. fold (resting b). rewrite Hid. apply (inv_unique _ _ _ Hi).
  - apply (inv_active _ _ _ Hi).
  - apply (inv_cap _ _ _ Hi).
Qed.

(** ** The pool operations of [processOrder] *)

(** Writing the slot the caller owns (placement new, the incoming
    quantity). *)
Lemma inv_write_live (b : book) F live inc o :
  inv b F live -> inc ∈ live -> inv (set_pool b (MemoryPool.write (pool_ b) inc o)) F live.
Proof.
  intros Hi Hinc. eapply inv_set_pool; [done| | done | done |].
  - apply MemoryPool.pool_rep_write; [apply Hi|]. by eapply inv_live_not_free.
  - apply pool_compat_of_read. intros h Hh. apply MemoryPool.read_write_ne.
    intros ->. by eapply inv_live_not_resting.
Qed.

(** [pool_.allocate()] hands the top free slot to the caller. *)
Lemma inv_allocate (b : book) F p1 inc :
  inv b F [] -> MemoryPool.allocate (pool_ b) = (p1, Some inc) ->
  exists F', F = inc :: F' /\ inv (set_pool b p1) F' [inc].
Proof.
  intros Hi Ha. destruct (MemoryPool.allocate_rep _ _ (inv_pool _ _ _ Hi)) as [Hr Hp].
  rewrite Ha in Hr, Hp. destruct F as [|j F']; simplify_eq/=. exists F'. split; [done|].
  eapply inv_set_pool; [done|done| | simpl; solve_Permutation |].
  - pose proof (MemoryPool.allocate_capacity (pool_ b)) as Hc. by rewrite Ha in Hc.
  - apply pool_compat_of_read. intros h Hh. apply (MemoryPool.allocate_read_ne _ _ _ _ Ha).
    intros ->. by apply (inv_resting_not_free _ _ _ _ Hi Hh), list_elem_of_here.
Qed.

(** [pool_.deallocate(incoming)] takes the caller's slot back. *)
Lemma inv_release (b : book) F inc :
  inv b F [inc] ->
  inv (set_pool b (MemoryPool.deallocate (pool_ b) (Some inc))) (inc :: F) [].
Proof.
  intros Hi. assert (Hinc : inc ∈ [inc]) by apply list_elem_of_here.
  eapply inv_set_pool; [done| | apply MemoryPool.deallocate_capacity | simpl; solve_Permutation |].
  - apply (MemoryPool.deallocate_rep _ _ (Some inc) (inv_pool _ _ _ Hi)). intros i [= <-]. split.
    + rewrite <- (proj1 (inv_pool _ _ _ Hi)). apply (inv_lt _ _ _ _ Hi). set_solver.
    + by eapply inv_live_not_free.
  - apply pool_compat_of_read. intros h Hh. apply MemoryPool.deallocate_read_ne.
    intros ->. by eapply inv_live_not_resting.
Qed.

(** ** The matching step *)

Lemma side_cmp_order s : StrictWeakOrder (side_cmp (P:=P) s).
Proof. destruct s; simpl; [apply greater_order|]; apply _. Qed.
#[local] Existing Instance side_cmp_order.

Lemma side_levels_mk (b : book) p ids mx act s :
  side_levels (mk p (bids_ b) (asks_ b) ids mx act) s = side_levels b s.
Proof. by destruct s. Qed.

Lemma resting_mk (b : book) p ids mx act :
  resting (mk p (bids_ b) (asks_ b) ids mx act) = resting b.
Proof. reflexivity. Qed.

(** A partial fill leaves the resting record with a positive quantity. *)
Lemma inv_fill_resting (b : book) F live r q :
  inv b F live -> r ∈ resting b -> 0 < q < 2 ^ 32 ->
  inv (set_pool b (MemoryPool.write (pool_ b) r (Order.set_quantity (MemoryPool.read (pool_ b) r) q)))
      F live.
Proof.
  intros Hi Hr Hq. eapply inv_set_pool; [done| |done|done|].
  - apply MemoryPool.pool_rep_write; [apply Hi|]. by eapply inv_resting_not_free.
  - intros h Hh. unfold order_id, slot_ok. destruct (decide (h = r)) as [->|Hne].
    + rewrite MemoryPool.read_write_eq by auto with lob.
      split; [done|]. simpl. intros s k (? & ? & ? & _). done.
    + by rewrite MemoryPool.read_write_ne by congruence.
Qed.

(** Popping the front record of the best level keeps the side well
    formed (the level goes when it empties). *)
Lemma side_ok_pop (p : pool) s best r q rest :
  side_ok p s ((best, r :: q) :: rest) ->
  side_ok p s (match q with [] => rest | _ => (best, q) :: rest end).
Proof.
  intros (Hs & Hn & Hl). unfold PriceLevels.levels_ok in Hl.
  inversion Hn as [|? ? _ Hn']; inversion Hl as [|? ? Hl1 Hl']; subst. inversion Hl1; subst.
  destruct q as [|x q].
  - split_and!; [exact (PriceLevels.sorted_cons_inv (side_cmp s) _ _ Hs)|done|done].
  - split_and!; [exact (PriceLevels.sorted_tail (side_cmp s) _ _ _ _ Hs)|by constructor|by constructor].
Qed.

(** Removing the resting record [r] from side [so] (the side becomes
    [m'], which must still be well formed): its id leaves the index, its
    slot (after a last write [o] that keeps the id) returns to the pool
    and the counter drops.  Both the retirement of a filled record and
    [cancelOrder] are instances. *)
Lemma inv_remove (b : book) F live so r m' o :
  inv b F live ->
  PriceLevels.handles (side_levels b so) ≡ₚ r :: PriceLevels.handles m' ->
  side_ok (pool_ b) so m' ->
  Order.id o = order_id (pool_ b) r ->
  inv (set_side_levels
         (mk (MemoryPool.deallocate (MemoryPool.write (pool_ b) r o) (Some r)) (bids_ b) (asks_ b)
             (delete (Order.id o) (id_map_ b)) (max_orders_ b) (size_dec (active_orders_ b)))
         so m')
      (r :: F) live.
Proof.
  intros Hi Hh Hside Ho.
  set (p' := MemoryPool.deallocate (MemoryPool.write (pool_ b) r o) (Some r)).
  set (b0 := mk p' (bids_ b) (asks_ b) (delete (Order.id o) (id_map_ b)) (max_orders_ b)
                (size_dec (active_orders_ b))).
  destruct (set_side_fields b0 so m') as (Hp & Hids & Hact). simpl in Hp, Hids, Hact.
  assert (Hperm : resting b ≡ₚ r :: resting (set_side_levels b0 so m')).
  { rewrite (resting_sides b so), resting_set_side, Hh. unfold b0. by rewrite side_levels_mk. }
  set (b' := set_side_levels b0 so m') in *.
  pose proof (inv_NoDup _ _ _ Hi) as Hnd. rewrite Hperm in Hnd.
  assert (Hrr : r ∈ resting b) by (rewrite Hperm; apply list_elem_of_here).
  assert (Hnr : r ∉ resting b').
  { apply NoDup_app_r, NoDup_app_r, NoDup_cons in Hnd. tauto. }
  assert (Hlt : (r < length (MemoryPool.block (pool_ b)))%nat) by auto with lob.
  assert (Hread : forall h, h ∈ resting b' -> MemoryPool.read p' h = MemoryPool.read (pool_ b) h).
  { intros h Hh'. assert (r <> h) by (intros ->; contradiction).
    unfold p'. rewrite MemoryPool.deallocate_read_ne by done. by apply MemoryPool.read_write_ne. }
  assert (Hcap : MemoryPool.capacity p' = MemoryPool.capacity (pool_ b)) by done.
  assert (Hlen : length (resting b) = S (length (resting b'))) by (by rewrite Hperm).
  constructor; rewrite ?Hp, ?Hids, ?Hact, ?Hcap.
  - apply (MemoryPool.deallocate_rep _ F (Some r)).
    + apply MemoryPool.pool_rep_write; [apply Hi|]. by eapply inv_resting_not_free.
    + intros i [= <-]. split; [|by eapply inv_resting_not_free].
      simpl. by rewrite <- (proj1 (inv_pool _ _ _ Hi)).
  - rewrite <- (inv_slots _ _ _ Hi), Hperm. solve_Permutation.
  - intros s. destruct (decide (s = so)) as [->|Hne].
    + unfold b'. rewrite side_levels_set_eq. apply side_ok_frame with (p := pool_ b); [|done].
      apply pool_compat_of_read. intros h Hh'. apply Hread. unfold b'.
      rewrite resting_set_side. set_solver.
    + unfold b'. rewrite side_levels_set_ne by done. unfold b0. rewrite side_levels_mk.
      apply side_ok_frame with (p := pool_ b); [|apply Hi].
      apply pool_compat_of_read. intros h Hh'. apply Hread. unfold b'.
      rewrite resting_set_side. destruct so, s; simpl in *; try congruence; set_solver.
  - intros id h. unfold order_id. rewrite lookup_delete_Some, (inv_ids _ _ _ Hi). split.
    + intros (Hne & Hh' & <-). assert (h <> r) by (intros ->; by rewrite Ho in Hne).
      assert (Hh'' : h ∈ resting b') by (rewrite Hperm in Hh'; set_solver).
      split; [done|]. unfold order_id. by rewrite Hread.
    + intros (Hh' & <-). rewrite Hread by done. split; [|split; [by rewrite Hperm; set_solver|done]].
      intros Heq. rewrite Ho in Heq. apply Hnr.
      replace r with h; [done|]. eapply (NoDup_fmap_inj_on (order_id (pool_ b)));
        [apply Hi|by rewrite Hperm; set_solver|done|done].
  - assert (Hu := inv_unique _ _ _ Hi). rewrite Hperm in Hu. simpl in Hu.
    apply NoDup_cons in Hu as [_ Hu].
    erewrite list_fmap_ext; [exact Hu|]. intros i x Hx. unfold order_id.
    rewrite Hread; [done|]. by eapply list_elem_of_lookup_2.
  - rewrite (inv_active _ _ _ Hi), Hlen, size_dec_nowrap; [lia|].
    pose proof (inv_cap _ _ _ Hi). pose proof (Permutation_length (inv_slots _ _ _ Hi)).
    rewrite length_seq, !length_app, Hlen in *. lia.
  - apply Hi.
Qed.

(** Retiring the exhausted front record [r] of the best level of side
    [so]: it leaves its deque, and the level goes if it empties. *)
Lemma inv_retire (b : book) F live so best r q rest o :
  inv b F live -> side_levels b so = (best, r :: q) :: rest ->
  Order.id o = order_id (pool_ b) r ->
  inv (set_side_levels
         (mk (MemoryPool.deallocate (MemoryPool.write (pool_ b) r o) (Some r)) (bids_ b) (asks_ b)
             (delete (Order.id o) (id_map_ b)) (max_orders_ b) (size_dec (active_orders_ b)))
         so (match q with [] => rest | _ => (best, q) :: rest end))
      (r :: F) live.
Proof.
  intros Hi Hb Ho. apply inv_remove; [done| |apply (side_ok_pop _ _ best r q rest); rewrite <- Hb; apply Hi|done].
  rewrite Hb. destruct q; simpl; by rewrite ?(assoc_L (++)).
Qed.

(** Resting a LIMIT remainder whose id no resting order carries:
    [addToBook], [id_map_[id] = incoming], [++active_orders_]. *)
Lemma inv_rest (b : book) F inc :
  inv b F [inc] ->
  Order.type (MemoryPool.read (pool_ b) inc) = LIMIT ->
  0 < Order.quantity (MemoryPool.read (pool_ b) inc) < 2 ^ 32 ->
  id_map_ b !! Order.id (MemoryPool.read (pool_ b) inc) = None ->
  inv (restOrder b inc) F [].
Proof.
  intros Hi Ht Hq Hfresh. unfold restOrder, addToBook.
  set (io := MemoryPool.read (pool_ b) inc) in *. remember (Order.side io) as s eqn:Hside.
  set (m' := PriceLevels.push_back (side_cmp s) (side_levels b s) (Order.price io) inc).
  destruct (set_side_fields b s m') as (Hp & Hids & Hact).
  assert (Hperm : resting (set_side_levels b s m') ≡ₚ inc :: resting b).
  { rewrite resting_set_side, (resting_sides b s). unfold m'.
    by rewrite PriceLevels.push_back_handles. }
  set (b3 := set_side_levels b s m') in *.
  assert (Hninc : inc ∉ resting b) by (eapply inv_live_not_resting; [done|apply list_elem_of_here]).
  assert (Hnew : forall h, h ∈ resting b -> order_id (pool_ b) h <> Order.id io).
  { intros h Hh Heq. assert (Hs : id_map_ b !! Order.id io = Some h) by (by apply Hi).
    by rewrite Hfresh in Hs. }
  constructor; simpl; rewrite ?resting_mk, ?Hp, ?Hids, ?Hact.
  - apply Hi.
  - rewrite Hperm, <- (inv_slots _ _ _ Hi). solve_Permutation.
  - intros s'. rewrite side_levels_mk. destruct (decide (s' = s)) as [->|Hne].
    + unfold b3. rewrite side_levels_set_eq. destruct (inv_sides _ _ _ Hi s) as (Hs & Hn & Hl).
      split_and!.
      * exact (PriceLevels.push_back_sorted (side_cmp s) _ _ _ Hs).
      * by apply PriceLevels.push_back_no_empty.
      * apply (PriceLevels.push_back_levels_ok (side_cmp s)); [| |done].
        -- intros k1 k2 x Hk (Hx1 & Hx2 & Hx3 & Hx4). repeat split; [done|done| |lia|lia].
           apply (PriceLevels.key_eqb_trans (side_cmp s) k2 k1); [|exact Hx3].
           rewrite PriceLevels.key_eqb_sym; [done|apply _].
        -- repeat split; [done|done|apply PriceLevels.key_eqb_refl, _|apply Hq|apply Hq].
    + unfold b3. rewrite side_levels_set_ne by done. apply Hi.
  - intros id h. rewrite lookup_insert_Some, (inv_ids _ _ _ Hi), Hperm, elem_of_cons.
    unfold order_id. fold io. split.
    + intros [[<- <-]|[Hne [Hh <-]]]; [by split; [left|]|by split; [right|]].
    + intros [[->|Hh] Heq]; [by left|right]. split; [|by split].
      intros <-. by apply (Hnew h).
  - rewrite Hperm. simpl. apply NoDup_cons. split; [|apply Hi].
    intros (h & Heq & Hh)%list_elem_of_fmap. by apply (Hnew h).
  - rewrite (inv_active _ _ _ Hi), Hperm, size_inc_nowrap; simpl; [lia|lia|].
    pose proof (inv_cap _ _ _ Hi). pose proof (Permutation_length (inv_slots _ _ _ Hi)).
    rewrite length_seq, !length_app in *. simpl in *. lia.
  - apply Hi.
Qed.

(** ** One iteration of the matching loop *)

(** Under the invariant, an iteration has one of two outcomes, written
    out: the front record [r] is exhausted and retired, or the incoming
    order is exhausted and [r] keeps the rest.  Both quantities are
    decremented without wrap-around. *)
Lemma match_front_cases (b : book) F inc so best r q rest fills :
  inv b F [inc] -> side_levels b so = (best, r :: q) :: rest ->
  0 < Order.quantity (MemoryPool.read (pool_ b) inc) < 2 ^ 32 ->
  let io := MemoryPool.read (pool_ b) inc in
  let ro := MemoryPool.read (pool_ b) r in
  let traded := Z.min (Order.quantity io) (Order.quantity ro) in
  let p2 := MemoryPool.write (MemoryPool.write (pool_ b) inc
                                (Order.set_quantity io (Order.quantity io - traded)))
              r (Order.set_quantity ro (Order.quantity ro - traded)) in
  let fl := fills ++ [Fill.mk P (Order.id ro) (Order.id io) traded best] in
  inc <> r /\ 0 < Order.quantity ro < 2 ^ 32 /\
  ((Order.quantity ro <= Order.quantity io /\
    match_front b so inc best (r :: q) rest fills =
      (set_side_levels
         (mk (MemoryPool.deallocate p2 (Some r)) (bids_ b) (asks_ b)
             (delete (Order.id ro) (id_map_ b)) (max_orders_ b) (size_dec (active_orders_ b)))
         so (match q with [] => rest | _ => (best, q) :: rest end), fl)) \/
   (Order.quantity io < Order.quantity ro /\
    match_front b so inc best (r :: q) rest fills = (set_pool b p2, fl))).
Proof.
  intros Hi Hb Hqi io ro traded p2 fl.
  assert (Hqi' : 0 < Order.quantity io < 2 ^ 32) by exact Hqi.
  assert (Ht : traded = Z.min (Order.quantity io) (Order.quantity ro)) by done.
  clearbody traded.
  assert (Hr : r ∈ resting b) by (rewrite (resting_sides b so), Hb; simpl; set_solver).
  assert (Hne : inc <> r) by (intros ->; exact (inv_live_not_resting _ _ _ r Hi (list_elem_of_here _ _) Hr)).
  assert (Hli : (inc < length (MemoryPool.block (pool_ b)))%nat) by auto with lob.
  assert (Hqr : 0 < Order.quantity ro < 2 ^ 32).
  { destruct (inv_sides _ _ _ Hi so) as (_ & _ & Hl). rewrite Hb in Hl.
    inversion Hl as [|? ? Hl1 _]; subst. inversion Hl1 as [|? ? (_ & _ & _ & Hq) _]. done. }
  split; [done|split; [done|]].
  assert (Hsub_i : u32_sub (Order.quantity io) traded = Order.quantity io - traded)
    by (apply u32_sub_nowrap; lia).
  assert (Hsub_r : u32_sub (Order.quantity ro) traded = Order.quantity ro - traded)
    by (apply u32_sub_nowrap; lia).
  unfold match_front. cbn [head tail default from_option Datatypes.id]. fold io ro. rewrite <- Ht.
  rewrite Hsub_i, (MemoryPool.read_write_ne _ inc r) by done. fold ro. rewrite Hsub_r.
  rewrite MemoryPool.read_write_eq by (by rewrite MemoryPool.length_write; auto with lob). fold p2.
  simpl Order.quantity. destruct (Z.eqb_spec (Order.quantity ro - traded) 0); [left|right]; split;
    [lia|done|lia|done].
Qed.

(** What an iteration does, in the terms the loop needs: it keeps the
    invariant, records its fill, decrements the incoming quantity, does
    not touch the incoming side or add ids, and either retires the
    front record (shrinking the side) or exhausts the incoming order. *)
Lemma match_front_spec (b : book) F inc so best r q rest fills :
  inv b F [inc] -> side_levels b so = (best, r :: q) :: rest ->
  0 < Order.quantity (MemoryPool.read (pool_ b) inc) < 2 ^ 32 ->
  let io := MemoryPool.read (pool_ b) inc in
  let ro := MemoryPool.read (pool_ b) r in
  let traded := Z.min (Order.quantity io) (Order.quantity ro) in
  let res := match_front b so inc best (r :: q) rest fills in
  (exists F', inv res.1 F' [inc]) /\
  res.2 = fills ++ [Fill.mk P (Order.id ro) (Order.id io) traded best] /\
  MemoryPool.read (pool_ res.1) inc = Order.set_quantity io (Order.quantity io - traded) /\
  side_levels res.1 (opposite so) = side_levels b (opposite so) /\
  id_map_ res.1 ⊆ id_map_ b /\
  ((Order.quantity ro <= Order.quantity io /\
    (PriceLevels.level_weight (side_levels res.1 so) < PriceLevels.level_weight (side_levels b so))%nat) \/
   (Order.quantity io < Order.quantity ro /\ side_levels res.1 so = side_levels b so)).
Proof.
  intros Hi Hb Hqi io ro traded res.
  destruct (match_front_cases b F inc so best r q rest fills Hi Hb Hqi) as (Hne & Hqr & Hc).
  fold io ro traded in Hc. unfold res.
  set (p1 := MemoryPool.write (pool_ b) inc (Order.set_quantity io (Order.quantity io - traded))).
  assert (Hr : r ∈ resting b) by (rewrite (resting_sides b so), Hb; simpl; set_solver).
  assert (Hi1 : inv (set_pool b p1) F [inc]) by (apply inv_write_live; [done|apply list_elem_of_here]).
  assert (Hro1 : MemoryPool.read p1 r = ro) by (by apply MemoryPool.read_write_ne).
  assert (Hrd_i : forall o, MemoryPool.read (MemoryPool.write p1 r o) inc
                            = Order.set_quantity io (Order.quantity io - traded)).
  { intros o. rewrite MemoryPool.read_write_ne by done. unfold p1.
    by rewrite MemoryPool.read_write_eq by auto with lob. }
  destruct Hc as [(Hle & ->)|(Hlt & ->)]; cbn [fst snd]; fold p1.
  - split_and!.
    + eexists. exact (inv_retire (set_pool b p1) F [inc] so best r q rest
                        (Order.set_quantity ro (Order.quantity ro - traded)) Hi1 Hb (eq_sym (f_equal Order.id Hro1))).
    + done.
    + rewrite (proj1 (set_side_fields _ _ _)).
      cbn [pool_]. rewrite MemoryPool.deallocate_read_ne by done. apply Hrd_i.
    + by rewrite side_levels_set_opp, side_levels_mk.
    + rewrite (proj1 (proj2 (set_side_fields _ _ _))). apply delete_subseteq.
    + left. split; [lia|]. rewrite side_levels_set_eq, Hb.
      unfold PriceLevels.level_weight. destruct q; rewrite !PriceLevels.handles_cons; simpl; rewrite ?length_app; simpl; lia.
  - split_and!.
    + eexists. pose proof (inv_fill_resting (set_pool b p1) F [inc] r
                             (Order.quantity ro - traded) Hi1 Hr) as Hf.
      simpl in Hf. rewrite Hro1 in Hf. apply Hf. unfold traded. fold io in Hqi. fold ro in Hqr. lia.
    + done.
    + apply Hrd_i.
    + done.
    + done.
    + right. split; [lia|done].
Qed.

(** ** The constructor *)

(** The constructor establishes the invariant with every slot free. *)
Lemma create_inv n :
  Z.of_nat n * MemoryPool.sizeof_Order < 2 ^ 64 -> inv (create n) (rev (seq 0 n)) [].
Proof.
  intros Hn. constructor; cbn [pool_ create active_orders_ id_map_].
  - by apply MemoryPool.create_rep.
  - rewrite MemoryPool.create_capacity. unfold resting. simpl. rewrite app_nil_r.
    symmetry. apply Permutation_rev.
  - intros []; repeat split; constructor.
  - intros id h. rewrite lookup_empty. unfold resting. simpl. set_solver.
  - constructor.
  - done.
  - rewrite MemoryPool.create_capacity. unfold MemoryPool.sizeof_Order in Hn. lia.
Qed.

(** C22: [OrderBook(max_orders)] builds a well-formed book: every slot
    free, both sides empty, no id indexed, no active order, provided
    the byte count of the pool's block does not wrap: [max_orders *
    sizeof(Order) = max_orders * 48 < 2^64].  (Past that bound the
    block is too small and the book is not well formed: [pool_block_wraps].) *)
Theorem create_wf n : Z.of_nat n * MemoryPool.sizeof_Order < 2 ^ 64 -> wf (create n).
Proof. intros Hn. exists (rev (seq 0 n)). by apply create_inv. Qed.

(** The index is the map from the id of each resting record to its slot. *)
Lemma id_map_list_to_map (b : book) F live :
  inv b F live ->
  id_map_ b = list_to_map ((fun h => (order_id (pool_ b) h, h)) <$> resting b).
Proof.
  intros Hi. assert (Hnd : NoDup (((fun h => (order_id (pool_ b) h, h)) <$> resting b).*1)).
  { rewrite <- list_fmap_compose. apply Hi. }
  apply map_eq. intros i. apply option_eq. intros h.
  rewrite <- elem_of_list_to_map by done. rewrite (inv_ids _ _ _ Hi), list_elem_of_fmap.
  split; [intros [Hh <-]; by exists h|intros (h' & Heq & Hh); injection Heq as -> ->; done].
Qed.

Lemma inv_active_size (b : book) F live :
  inv b F live -> active_orders_ b = Z.of_nat (size (id_map_ b)).
Proof.
  intros Hi. rewrite (inv_active _ _ _ Hi), (id_map_list_to_map _ _ _ Hi), map_size_list_to_map,
    length_fmap; [done|].
  rewrite <- list_fmap_compose. apply Hi.
Qed.

(** ** Index consistency *)

(** Between two calls, [totalActiveOrders] equals the number of entries
    of the id index and the number of records reachable by walking the
    price levels of both sides (section 8 of the specification). *)
Theorem active_orders_index (b : book) :
  wf b ->
  totalActiveOrders b = Z.of_nat (size (id_map_ b)) /\
  totalActiveOrders b =
    Z.of_nat (length (PriceLevels.handles (bids_ b)) + length (PriceLevels.handles (asks_ b))).
Proof.
  intros [F Hi]. unfold totalActiveOrders. split; [by apply (inv_active_size _ _ _ Hi)|].
  rewrite (inv_active _ _ _ Hi). unfold resting. by rewrite length_app.
Qed.

End Invariant.

#[export] Hint Extern 2 (_ < length (MemoryPool.block _))%nat => 
  match goal with H : inv _ _ _ |- _ => eapply (inv_lt _ _ _ _ H); set_solver end : lob.
End BookInvariant.
