(* ===== verification/WfCheck.v ===== *)
(** * An executable check of the invariant

    [wfb b] computes whether the book [b] is well formed: it walks the
    pool's free list (at most [capacity] slots, so the walk always
    ends), then checks each field of [inv] with a boolean test.  The
    theorem [wfb_correct] shows that [wfb] decides [wf], so the
    well-formedness of a concrete book is settled by evaluation. *)

From Stdlib Require Import Sorted.
From S2P Require Import Prelude Order MemoryPool PriceLevels OrderBook BookInvariant.
Local Open Scope Z_scope.

Module WfCheck.
Import OrderBook BookInvariant.
Section Check.
Context {P : Type} `{Inhabited P} `{PriceLt P} `{!StrictWeakOrder (price_lt (P:=P))}.

Abbreviation book := (@OrderBook.t P).
Abbreviation pool := (@MemoryPool.t P).
Abbreviation level := (P * list nat)%type.

(** ** The checks *)

(** The slots threaded by the free list from [h], following
    [next_free]; [None] when the walk leaves the block, meets a slot
    twice, or is longer than [fuel]. *)
Fixpoint free_walk (blk : list (Order.t P)) (h : option nat) (fuel : nat) : option (list nat) :=
  match h, fuel with
  | None, _ => Some []
  | Some _, O => None
  | Some i, S f =>
      o ← blk !! i;
      l ← free_walk blk (Order.next_free o) f;
      if decide (i ∈ l) then None else Some (i :: l)
  end.

(** A side is sorted: each key is [cmp]-less than every later one. *)
Fixpoint sortedb (cmp : P -> P -> bool) (m : list level) : bool :=
  match m with
  | [] => true
  | l :: m' => forallb (fun l' => cmp l.1 l'.1) m' && sortedb cmp m'
  end.

Definition slot_okb (p : pool) (s : Side) (k : P) (h : nat) : bool :=
  let o := MemoryPool.read p h in
  bool_decide (Order.side o = s) && bool_decide (Order.type o = LIMIT) &&
  PriceLevels.key_eqb (side_cmp s) k (Order.price o) && bool_decide (0 < Order.quantity o < 2 ^ 32).

Definition side_okb (p : pool) (s : Side) (m : list level) : bool :=
  sortedb (side_cmp s) m && forallb (fun l => bool_decide (l.2 <> [])) m &&
  forallb (fun l => forallb (slot_okb p s l.1) l.2) m.

(** Free and resting slots together are each slot of the pool once. *)
Definition slots_okb (F : list nat) (b : book) : bool :=
  let l := F ++ resting b in
  let n := MemoryPool.capacity (pool_ b) in
  bool_decide (NoDup l) && forallb (fun h => bool_decide (h < n)%nat) l && bool_decide (length l = n).

(** The index maps each resting id to its slot and nothing else. *)
Definition ids_okb (b : book) : bool :=
  forallb (fun e => bool_decide (e.2 ∈ resting b) && bool_decide (order_id (pool_ b) e.2 = e.1))
          (map_to_list (id_map_ b)) &&
  forallb (fun h => bool_decide (id_map_ b !! order_id (pool_ b) h = Some h)) (resting b).

Definition wfb (b : book) : bool :=
  let p := pool_ b in
  match free_walk (MemoryPool.block p) (MemoryPool.free_list p) (MemoryPool.capacity p) with
  | None => false
  | Some F =>
      bool_decide (length (MemoryPool.block p) = MemoryPool.capacity p) && slots_okb F b &&
      side_okb p BUY (bids_ b) && side_okb p SELL (asks_ b) && ids_okb b &&
      bool_decide (NoDup (order_id p <$> resting b)) &&
      bool_decide (active_orders_ b = Z.of_nat (length (resting b))) &&
      bool_decide (Z.of_nat (MemoryPool.capacity p) < 2 ^ 64)
  end.

(** ** The free list *)

Lemma free_walk_sound blk h fuel l :
  free_walk blk h fuel = Some l -> MemoryPool.free_chain blk h l.
Proof.
  revert h l. induction fuel as [|f IH]; intros [i|] l; simpl; try by intros [= <-]; constructor.
  destruct (blk !! i) as [o|] eqn:Ho; [simpl|done].
  destruct (free_walk blk (Order.next_free o) f) as [l'|] eqn:Hw; [simpl|done].
  case_decide; [done|]. intros [= <-]. econstructor; eauto.
Qed.

Lemma free_walk_complete blk h l fuel :
  MemoryPool.free_chain blk h l -> (length l <= fuel)%nat -> free_walk blk h fuel = Some l.
Proof.
  intros Hc. revert fuel. induction Hc as [|i o l Ho Hi _ IH]; intros [|f] Hf; simpl in *; try done; [lia|].
  rewrite Ho. simpl. rewrite IH by lia. simpl. by rewrite decide_False.
Qed.

(** ** Each check reflects its field of the invariant *)

Lemma sortedb_spec cmp m : sortedb cmp m = true <-> PriceLevels.sorted cmp m.
Proof.
  unfold PriceLevels.sorted. induction m as [|l m IH]; simpl; [split; [constructor|done]|].
  rewrite andb_true_iff, IH, (forallb_Forall _ (fun l' => cmp l.1 l'.1 = true)) by done.
  split; [intros [? ?]; by constructor|by intros [? ?]%StronglySorted_inv].
Qed.

Lemma slot_okb_spec p s k h : slot_okb p s k h = true <-> slot_ok p s k h.
Proof. unfold slot_okb, slot_ok. cbv zeta. rewrite !andb_true_iff, !bool_decide_eq_true. tauto. Qed.

Lemma side_okb_spec p s m : side_okb p s m = true <-> side_ok p s m.
Proof.
  unfold side_okb, side_ok, PriceLevels.no_empty, PriceLevels.levels_ok.
  assert (Hne : forall l : level, bool_decide (l.2 <> []) = true <-> l.2 <> [])
    by (intros; apply bool_decide_eq_true).
  assert (Hlv : forall l : level, forallb (slot_okb p s l.1) l.2 = true <-> Forall (slot_ok p s l.1) l.2)
    by (intros; apply forallb_Forall, slot_okb_spec).
  rewrite !andb_true_iff, sortedb_spec, (forallb_Forall _ _ _ Hne), (forallb_Forall _ _ _ Hlv). tauto.
Qed.

Lemma slots_okb_spec F (b : book) :
  slots_okb F b = true <-> F ++ resting b ≡ₚ seq 0 (MemoryPool.capacity (pool_ b)).
Proof.
  unfold slots_okb. cbv zeta.
  assert (Hlt : forall h, bool_decide (h < MemoryPool.capacity (pool_ b))%nat = true <->
                          (h < MemoryPool.capacity (pool_ b))%nat) by (intros; apply bool_decide_eq_true).
  rewrite perm_seq_iff, !andb_true_iff, !bool_decide_eq_true, (forallb_Forall _ _ _ Hlt). tauto.
Qed.

Lemma ids_okb_spec (b : book) :
  ids_okb b = true <->
  forall id h, id_map_ b !! id = Some h <-> h ∈ resting b /\ order_id (pool_ b) h = id.
Proof.
  unfold ids_okb. rewrite andb_true_iff, !forallb_forall. split.
  - intros [Hm Hr] id h. split.
    + intros Hl. apply elem_of_map_to_list, list_elem_of_In, Hm in Hl.
      by apply andb_true_iff in Hl as [?%bool_decide_eq_true ?%bool_decide_eq_true].
    + intros [Hh <-]. apply list_elem_of_In, Hr in Hh. by apply bool_decide_eq_true in Hh.
  - intros Hids. split.
    + intros [id h] He%list_elem_of_In%elem_of_map_to_list. apply Hids in He as [? ?].
      by apply andb_true_iff; split; apply bool_decide_eq_true.
    + intros h Hh%list_elem_of_In. apply bool_decide_eq_true, Hids. by split.
Qed.

(** ** The check decides the invariant *)

(** [wfb] decides [wf]: it returns [true] exactly on the well-formed
    books. *)
Theorem wfb_correct (b : book) : wfb b = true <-> wf b.
Proof.
  unfold wfb. split.
  - destruct (free_walk _ _ _) as [F|] eqn:Hw; [|done].
    rewrite !andb_true_iff, !bool_decide_eq_true, slots_okb_spec, !side_okb_spec, ids_okb_spec.
    intros (((((((Hl & Hs) & Hb) & Ha) & Hids) & Hu) & Hact) & Hcap).
    exists F. constructor; [split; [done|exact (free_walk_sound _ _ _ _ Hw)]|done|by intros []|done|done|done|done].
  - intros [F Hi]. destruct (inv_pool _ _ _ Hi) as [Hl Hc].
    assert (Hlen : (length F <= MemoryPool.capacity (pool_ b))%nat).
    { pose proof (Permutation_length (inv_slots _ _ _ Hi)). rewrite !length_app, length_seq in *. lia. }
    rewrite (free_walk_complete _ _ _ _ Hc Hlen).
    rewrite !andb_true_iff, !bool_decide_eq_true, slots_okb_spec, !side_okb_spec, ids_okb_spec.
    split_and!; [done|apply (inv_slots _ _ _ Hi)|apply (inv_sides _ _ _ Hi BUY)|apply (inv_sides _ _ _ Hi SELL)|
                 apply (inv_ids _ _ _ Hi)|apply (inv_unique _ _ _ Hi)|apply (inv_active _ _ _ Hi)|apply (inv_cap _ _ _ Hi)].
Qed.

End Check.
End WfCheck.
