(* ===== verification/Matching.v ===== *)
(** * The matching loop

    Theorems about [OrderBook.match_loop], the loop shared by
    [matchLimitOrder] and [matchMarketOrder]: with the fuel
    [processOrder] gives it, it always finishes on a well-formed book;
    it keeps the invariant; it only changes the opposite side; the
    fills it appends and the incoming remainder add up to the incoming
    quantity; every fill is for a positive quantity and, for a limit
    order, at a price the limit accepts; the fills trade the records of
    the opposite side in its priority order ([queue_order]: best level
    first, front to back), the first one the front record of the best
    level; and the fills take out of the
    opposite side exactly their total, counted as the [liquidity] of
    that side at the prices the incoming order accepts. *)

From S2P Require Import Prelude Order MemoryPool PriceLevels OrderBook BookInvariant.
Local Open Scope Z_scope.

Module Matching.
Import OrderBook BookInvariant.
Section Matching.
Context {P : Type} `{Inhabited P} `{PriceLt P} `{!StrictWeakOrder (price_lt (P:=P))}.

Abbreviation book := (@OrderBook.t P).
Abbreviation order := (Order.t P).
Abbreviation fill := (Fill.t P).
Abbreviation pool := (@MemoryPool.t P).

(** The quantity traded by a list of fills. *)
Definition fills_total (l : list fill) : Z := foldr (fun f acc => Fill.quantity f + acc) 0 l.

(** A fill produced for the incoming order [io] of side [s]: it names
    [io], trades a positive quantity and, when the price gate is on,
    at a price the gate lets through. *)
Definition fill_ok (gated : bool) (s : Side) (io : order) (f : fill) : Prop :=
  Fill.incoming_id f = Order.id io /\ 0 < Fill.quantity f /\
  (gated = true -> gate_blocks s (Order.price io) (Fill.price f) = false).

(** The quantity resting in the deque [q] of slots. *)
Definition queue_qty (p : pool) (q : list nat) : Z :=
  foldr (fun h acc => Order.quantity (MemoryPool.read p h) + acc) 0 q.

(** The liquidity of a side at the prices [accept] lets through: the
    resting quantity of every level whose price it accepts. *)
Fixpoint liquidity (accept : P -> bool) (p : pool) (m : list (P * list nat)) : Z :=
  match m with
  | [] => 0
  | (k, q) :: rest => (if accept k then queue_qty p q else 0) + liquidity accept p rest
  end.

(** The prices a submission of side [s], type [ty] and limit [price]
    may trade at: all of them for a MARKET order, those its limit
    accepts for a LIMIT order. *)
Definition tradable (gated : bool) (s : Side) (price : P) (k : P) : bool :=
  negb (gated && gate_blocks s price k).

(** The records of a side in the order the loop consumes them: best
    level first, each level front to back, as the pair of the record's
    id and the level's price. *)
Definition queue_order (p : pool) (m : list (P * list nat)) : list (Z * P) :=
  PriceLevels.side_map (fun h k => (order_id p h, k)) m.

(** What a fill says about the record it trades: its id and price. *)
Definition fill_key (f : fill) : Z * P := (Fill.resting_id f, Fill.price f).

Lemma fills_total_app l1 l2 : fills_total (l1 ++ l2) = fills_total l1 + fills_total l2.
Proof. induction l1; simpl; lia. Qed.

Lemma fills_total_nonneg gated s (io : order) l :
  Forall (fill_ok gated s io) l -> 0 <= fills_total l.
Proof. induction 1 as [|f l (_ & Hf & _) _ IH]; simpl; lia. Qed.

Lemma fill_ok_set_quantity gated s (io : order) q f :
  fill_ok gated s (Order.set_quantity io q) f <-> fill_ok gated s io f.
Proof. reflexivity. Qed.

(** The loop's result when it stops at once. *)
Lemma match_loop_stop_spec gated s (b : book) F inc fills :
  inv b F [inc] -> 0 <= Order.quantity (MemoryPool.read (pool_ b) inc) ->
  exists b' new F',
    Some (b, fills) = Some (b', fills ++ new) /\ inv b' F' [inc] /\
    MemoryPool.read (pool_ b') inc =
      Order.set_quantity (MemoryPool.read (pool_ b) inc) (Order.quantity (MemoryPool.read (pool_ b') inc)) /\
    side_levels b' s = side_levels b s /\ id_map_ b' ⊆ id_map_ b /\
    fills_total new + Order.quantity (MemoryPool.read (pool_ b') inc)
      = Order.quantity (MemoryPool.read (pool_ b) inc) /\
    0 <= Order.quantity (MemoryPool.read (pool_ b') inc) /\
    Forall (fill_ok gated s (MemoryPool.read (pool_ b) inc)) new.
Proof.
  intros Hi Hq. exists b, [], F. rewrite app_nil_r, set_quantity_self. by split_and!.
Qed.

(** The loop finishes within its fuel when the fuel exceeds the weight
    of the opposite side (or the incoming order is already filled), and
    then it keeps the invariant and conserves quantity. *)
Lemma match_loop_spec fuel gated s (b : book) F inc fills :
  inv b F [inc] ->
  let io := MemoryPool.read (pool_ b) inc in
  0 <= Order.quantity io < 2 ^ 32 ->
  ((PriceLevels.level_weight (side_levels b (opposite s)) < fuel)%nat \/
   (Order.quantity io = 0 /\ (0 < fuel)%nat)) ->
  exists b' new F',
    match_loop fuel gated s b inc fills = Some (b', fills ++ new) /\
    inv b' F' [inc] /\
    MemoryPool.read (pool_ b') inc = Order.set_quantity io (Order.quantity (MemoryPool.read (pool_ b') inc)) /\
    side_levels b' s = side_levels b s /\ id_map_ b' ⊆ id_map_ b /\
    fills_total new + Order.quantity (MemoryPool.read (pool_ b') inc) = Order.quantity io /\
    0 <= Order.quantity (MemoryPool.read (pool_ b') inc) /\
    Forall (fill_ok gated s io) new.
Proof.
  revert b F fills. induction fuel as [|fuel IH]; intros b F fills Hi io Hq Hf; [lia|].
  cbn [match_loop]. fold io.
  destruct (Z.ltb_spec 0 (Order.quantity io)) as [Hpos|Hz];
    [|by eapply match_loop_stop_spec; [exact Hi|exact (proj1 Hq)]].
  destruct (side_levels b (opposite s)) as [|[best q] rest] eqn:Hlv;
    [by eapply match_loop_stop_spec; [exact Hi|exact (proj1 Hq)]|].
  destruct q as [|r q].
  { destruct (inv_sides _ _ _ Hi (opposite s)) as (_ & Hn & _). rewrite Hlv in Hn.
    by inversion Hn. }
  destruct (gated && gate_blocks s (Order.price io) best) eqn:Hg;
    [by eapply match_loop_stop_spec; [exact Hi|exact (proj1 Hq)]|].
  destruct (match_front_spec b F inc (opposite s) best r q rest fills Hi Hlv)
    as ([F1 Hi1] & Hfills & Hread & Hopp & Hsub & Hcase); [fold io; lia|].
  destruct (match_front b (opposite s) inc best (r :: q) rest fills) as [b1 fills1].
  simpl in Hi1, Hfills, Hread, Hopp, Hsub, Hcase. fold io in Hread, Hfills, Hcase.
  set (ro := MemoryPool.read (pool_ b) r) in *.
  set (traded := Z.min (Order.quantity io) (Order.quantity ro)) in *.
  assert (Hqr : 0 < Order.quantity ro).
  { destruct (inv_sides _ _ _ Hi (opposite s)) as (_ & _ & Hl). rewrite Hlv in Hl.
    inversion Hl as [|? ? Hl1 _]; subst. inversion Hl1 as [|? ? (_ & _ & _ & Hq1) _]. exact (proj1 Hq1). }
  assert (Htr : 0 < traded <= Order.quantity io) by lia.
  destruct (IH b1 F1 fills1 Hi1) as (b' & new & F' & Hl & Hi' & Hr' & Hs' & Hsub' & Hsum & Hnn & Hok).
  { rewrite Hread. simpl. lia. }
  { rewrite Hread. simpl. destruct Hcase as [(Hle & Hw)|(Hlt & Hw)].
    - left. rewrite Hlv in Hw. destruct Hf as [Hf|Hf]; lia.
    - right. split; [lia|]. destruct Hf as [Hf|Hf]; [|lia].
      unfold PriceLevels.level_weight in Hf. simpl in Hf. lia. }
  exists b', (Fill.mk P (Order.id ro) (Order.id io) traded best :: new), F'.
  split_and!.
  - rewrite Hl, Hfills. by rewrite <- (assoc_L (++)).
  - done.
  - rewrite Hr', Hread. apply set_quantity_twice.
  - rewrite Hs'. rewrite <- (opposite_involutive s) at 1 2. by rewrite Hopp.
  - by trans (id_map_ b1).
  - simpl. rewrite Hread in Hsum. simpl in Hsum. lia.
  - done.
  - constructor.
    + split_and!; simpl; [done|lia|]. intros ->. by apply andb_false_iff in Hg as [|].
    + rewrite Hread in Hok. by apply Forall_impl with (1 := Hok).
Qed.

(** ** The order of the fills *)

(** An iteration appends exactly its fill. *)
Lemma match_front_fills (b : book) so inc best q rest fills :
  (match_front b so inc best q rest fills).2 =
  fills ++ [Fill.mk P (Order.id (MemoryPool.read (pool_ b) (default 0%nat (head q))))
                      (Order.id (MemoryPool.read (pool_ b) inc))
                      (Z.min (Order.quantity (MemoryPool.read (pool_ b) inc))
                             (Order.quantity (MemoryPool.read (pool_ b) (default 0%nat (head q)))))
                      best].
Proof. unfold match_front. by destruct (_ =? 0). Qed.

(** The loop only appends to the fills it is given. *)
Lemma match_loop_prefix fuel gated s (b b' : book) inc fills fills' :
  match_loop fuel gated s b inc fills = Some (b', fills') -> exists new, fills' = fills ++ new.
Proof.
  revert b fills. induction fuel as [|fuel IH]; intros b fills; cbn [match_loop]; [done|].
  case_match; [|intros [= _ <-]; exists []; by rewrite app_nil_r].
  destruct (side_levels b (opposite s)) as [|[best q] rest]; [intros [= _ <-]; exists []; by rewrite app_nil_r|].
  case_match; [intros [= _ <-]; exists []; by rewrite app_nil_r|].
  pose proof (match_front_fills b (opposite s) inc best q rest fills) as Hf.
  destruct (match_front b (opposite s) inc best q rest fills) as [b1 fills1].
  simpl in Hf. subst fills1. intros (new & ->)%IH. eexists. by rewrite <- (assoc_L (++)).
Qed.

(** The fuel only bounds the loop: once [match_loop] returns with
    some fuel, it returns the same book and fills with any larger fuel.
    So the result is that of the unbounded [while] loop of the code, and
    the fuel [processOrder] chooses never changes it. *)
Theorem match_loop_fuel_mono fuel fuel' gated s (b : book) inc fills r :
  (fuel <= fuel')%nat -> match_loop fuel gated s b inc fills = Some r ->
  match_loop fuel' gated s b inc fills = Some r.
Proof.
  revert fuel' b fills. induction fuel as [|fuel IH]; intros [|fuel'] b fills Hle; cbn [match_loop]; try done; [lia|].
  repeat case_match; try done. apply IH. lia.
Qed.

(** An iteration on a quantity left and an acceptable best level
    always trades: the loop returns more fills than it was given. *)
Lemma match_loop_progress fuel gated s (b b' : book) inc fills fills' best q rest :
  0 < Order.quantity (MemoryPool.read (pool_ b) inc) -> side_levels b (opposite s) = (best, q) :: rest ->
  tradable gated s (Order.price (MemoryPool.read (pool_ b) inc)) best = true ->
  match_loop (S fuel) gated s b inc fills = Some (b', fills') -> (length fills < length fills')%nat.
Proof.
  intros Hq Hs Ht. cbn [match_loop]. rewrite (proj2 (Z.ltb_lt _ _) Hq), Hs.
  apply negb_true_iff in Ht. rewrite Ht.
  pose proof (match_front_fills b (opposite s) inc best q rest fills) as Hf.
  destruct (match_front b (opposite s) inc best q rest fills) as [b1 fills1].
  simpl in Hf. subst fills1. intros (new & ->)%match_loop_prefix. rewrite !length_app. simpl. lia.
Qed.

Lemma app_cons_neq {A} (l : list A) x l' : l <> l ++ x :: l'.
Proof. intros Heq. apply (f_equal length) in Heq. rewrite length_app in Heq. simpl in Heq. lia. Qed.

(** The first fill the loop emits trades the front record of the best
    level of the opposite side, at that level's price, for the smaller
    of the two quantities. *)
Lemma match_loop_first fuel gated s (b b' : book) inc fills f new :
  match_loop fuel gated s b inc fills = Some (b', fills ++ f :: new) ->
  let io := MemoryPool.read (pool_ b) inc in
  exists best q rest,
    side_levels b (opposite s) = (best, q) :: rest /\
    f = Fill.mk P (Order.id (MemoryPool.read (pool_ b) (default 0%nat (head q)))) (Order.id io)
                (Z.min (Order.quantity io)
                       (Order.quantity (MemoryPool.read (pool_ b) (default 0%nat (head q))))) best.
Proof.
  destruct fuel as [|fuel]; cbn [match_loop]; [done|].
  case_match; [|intros [= _ Hn]; by apply app_cons_neq in Hn].
  destruct (side_levels b (opposite s)) as [|[best q] rest]; [intros [= _ Hn]; by apply app_cons_neq in Hn|].
  case_match; [intros [= _ Hn]; by apply app_cons_neq in Hn|].
  pose proof (match_front_fills b (opposite s) inc best q rest fills) as Hf.
  destruct (match_front b (opposite s) inc best q rest fills) as [b1 fills1].
  simpl in Hf. subst fills1. intros (new' & Hn)%match_loop_prefix.
  rewrite <- (assoc_L (++)) in Hn. apply app_inv_head in Hn. simpl in Hn.
  injection Hn as Hf _. by exists best, q, rest.
Qed.

(** ** Liquidity *)

Lemma queue_qty_cons (p : pool) h q :
  queue_qty p (h :: q) = Order.quantity (MemoryPool.read p h) + queue_qty p q.
Proof. done. Qed.

Lemma queue_qty_frame (p p' : pool) q :
  (forall h, h ∈ q -> MemoryPool.read p h = MemoryPool.read p' h) -> queue_qty p q = queue_qty p' q.
Proof.
  induction q as [|h q IH]; intros Hr; simpl; [done|].
  rewrite (Hr h), IH by set_solver. done.
Qed.

(** The liquidity of a side only reads the slots resting in it. *)
Lemma liquidity_frame accept (p p' : pool) m :
  (forall h, h ∈ PriceLevels.handles m -> MemoryPool.read p h = MemoryPool.read p' h) ->
  liquidity accept p m = liquidity accept p' m.
Proof.
  induction m as [|[k q] m IH]; intros Hr; simpl; [done|].
  rewrite PriceLevels.handles_cons in Hr.
  rewrite (queue_qty_frame p p' q), IH; [done| |]; intros h Hh; apply Hr; set_solver.
Qed.

Lemma queue_qty_nonneg (p : pool) s k q :
  Forall (slot_ok p s k) q -> 0 <= queue_qty p q.
Proof. induction 1 as [|h q Hh _ IH]; simpl; [done|]. destruct Hh as (_ & _ & _ & Hh). simpl in Hh. lia. Qed.

(** A side of a well-formed book has nonnegative liquidity. *)
Lemma liquidity_nonneg accept (b : book) F live s :
  inv b F live -> 0 <= liquidity accept (pool_ b) (side_levels b s).
Proof.
  intros Hi. destruct (inv_sides _ _ _ Hi s) as (_ & _ & Hl). revert Hl.
  generalize (side_levels b s) as m. intros m Hl. induction Hl as [|[k q] m Hq _ IH]; simpl; [done|].
  pose proof (queue_qty_nonneg _ _ _ _ Hq) as Hq0. simpl in Hq0. destruct (accept k); lia.
Qed.

(** An iteration of the loop writes the incoming slot and the front
    slot of the best level, and may release the latter: every other slot
    of that side reads the same afterwards. *)
Lemma match_front_frame (b : book) F inc so best r q rest o1 o2 h :
  inv b F [inc] -> side_levels b so = (best, r :: q) :: rest -> h ∈ q ++ PriceLevels.handles rest ->
  let p2 := MemoryPool.write (MemoryPool.write (pool_ b) inc o1) r o2 in
  MemoryPool.read p2 h = MemoryPool.read (pool_ b) h /\
  MemoryPool.read (MemoryPool.deallocate p2 (Some r)) h = MemoryPool.read (pool_ b) h.
Proof.
  intros Hi Hb Hh p2.
  assert (Hnd : NoDup (F ++ [inc] ++ ((r :: q) ++ PriceLevels.handles rest) ++
                       PriceLevels.handles (side_levels b (opposite so)))).
  { rewrite <- (PriceLevels.handles_cons best (r :: q) rest), <- Hb, <- (resting_sides b so).
    apply (inv_NoDup _ _ _ Hi). }
  apply NoDup_app in Hnd as (_ & _ & Hnd). apply NoDup_app in Hnd as (_ & Hd & Hnd).
  apply NoDup_app in Hnd as (Hnd & _). apply NoDup_cons in Hnd as [Hrq _].
  assert (r <> h) by (intros ->; contradiction).
  assert (inc <> h) by (intros ->; apply (Hd h); set_solver).
  assert (Hp2 : MemoryPool.read p2 h = MemoryPool.read (pool_ b) h)
    by (unfold p2; by rewrite !MemoryPool.read_write_ne).
  split; [done|]. by rewrite MemoryPool.deallocate_read_ne.
Qed.

(** An iteration of the loop at an accepted price takes exactly the
    traded quantity out of the liquidity of the side it trades
    against. *)
Lemma match_front_liquidity accept (b : book) F inc so best r q rest fills :
  inv b F [inc] -> side_levels b so = (best, r :: q) :: rest ->
  0 < Order.quantity (MemoryPool.read (pool_ b) inc) < 2 ^ 32 -> accept best = true ->
  let res := match_front b so inc best (r :: q) rest fills in
  liquidity accept (pool_ res.1) (side_levels res.1 so) +
    Z.min (Order.quantity (MemoryPool.read (pool_ b) inc)) (Order.quantity (MemoryPool.read (pool_ b) r))
  = liquidity accept (pool_ b) (side_levels b so).
Proof.
  intros Hi Hb Hqi Ha res.
  destruct (match_front_cases b F inc so best r q rest fills Hi Hb Hqi) as (Hne & Hqr & Hc).
  unfold res. clear res.
  set (io := MemoryPool.read (pool_ b) inc) in *. set (ro := MemoryPool.read (pool_ b) r) in *.
  set (traded := Z.min (Order.quantity io) (Order.quantity ro)) in *.
  set (p2 := MemoryPool.write (MemoryPool.write (pool_ b) inc (Order.set_quantity io (Order.quantity io - traded)))
                r (Order.set_quantity ro (Order.quantity ro - traded))) in Hc.
  assert (Hr : r ∈ resting b) by (rewrite (resting_sides b so), Hb; simpl; set_solver).
  pose proof (fun h => match_front_frame b F inc so best r q rest
                         (Order.set_quantity io (Order.quantity io - traded))
                         (Order.set_quantity ro (Order.quantity ro - traded)) h Hi Hb) as Hfr.
  cbv zeta in Hfr. fold p2 in Hfr.
  rewrite Hb. cbn [liquidity]. rewrite Ha. rewrite queue_qty_cons. fold ro.
  destruct Hc as [(Hle & ->)|(Hlt & ->)]; cbn [fst].
  - rewrite side_levels_set_eq, (proj1 (set_side_fields _ _ _)). cbn [pool_].
    destruct q as [|r' q']; cbn [liquidity].
    { rewrite (liquidity_frame _ _ (pool_ b) rest) by (intros; apply Hfr; set_solver).
      cbn [queue_qty foldr]. unfold traded. lia. }
    rewrite Ha, (liquidity_frame _ _ (pool_ b) rest), (queue_qty_frame _ (pool_ b) (r' :: q'))
      by (intros; apply Hfr; set_solver).
    unfold traded. lia.
  - unfold set_pool. rewrite side_levels_mk, Hb. cbn [pool_]. cbn [liquidity]. rewrite Ha. rewrite queue_qty_cons.
    rewrite (liquidity_frame _ p2 (pool_ b) rest), (queue_qty_frame p2 (pool_ b) q) by (intros; apply Hfr; set_solver).
    unfold p2. rewrite MemoryPool.read_write_eq by (by rewrite MemoryPool.length_write; auto with lob).
    simpl. unfold traded. lia.
Qed.

(** The loop conserves what it trades: the fills it appends add up to
    exactly the liquidity it removes from the opposite side at the
    prices the incoming order accepts. *)
Lemma match_loop_liquidity fuel gated s (b b' : book) F inc fills fills' :
  inv b F [inc] -> 0 <= Order.quantity (MemoryPool.read (pool_ b) inc) < 2 ^ 32 ->
  match_loop fuel gated s b inc fills = Some (b', fills') ->
  let accept := tradable gated s (Order.price (MemoryPool.read (pool_ b) inc)) in
  fills_total fills' + liquidity accept (pool_ b') (side_levels b' (opposite s))
  = fills_total fills + liquidity accept (pool_ b) (side_levels b (opposite s)).
Proof.
  revert b F fills. induction fuel as [|fuel IH]; intros b F fills Hi Hq; cbn [match_loop]; [done|].
  set (io := MemoryPool.read (pool_ b) inc) in *.
  destruct (Z.ltb_spec 0 (Order.quantity io)) as [Hpos|Hz]; [|by intros [= <- <-]].
  destruct (side_levels b (opposite s)) as [|[best q] rest] eqn:Hlv; [by intros [= <- <-]; rewrite Hlv|].
  destruct q as [|r q].
  { destruct (inv_sides _ _ _ Hi (opposite s)) as (_ & Hn & _). rewrite Hlv in Hn. by inversion Hn. }
  destruct (gated && gate_blocks s (Order.price io) best) eqn:Hg; [by intros [= <- <-]; rewrite Hlv|].
  assert (Ha : tradable gated s (Order.price io) best = true) by (unfold tradable; by rewrite Hg).
  destruct (match_front_cases b F inc (opposite s) best r q rest fills Hi Hlv) as (_ & Hqr & _); [fold io; lia|].
  pose proof (match_front_liquidity (tradable gated s (Order.price io)) b F inc (opposite s) best r q rest fills Hi Hlv) as Hl.
  destruct (match_front_spec b F inc (opposite s) best r q rest fills Hi Hlv)
    as ([F1 Hi1] & Hfills & Hread & _); [fold io; lia|].
  destruct (match_front b (opposite s) inc best (r :: q) rest fills) as [b1 fills1].
  cbn [fst snd] in Hl, Hi1, Hfills, Hread. fold io in Hl, Hfills, Hread.
  intros Hloop. cbn zeta. rewrite Hlv in Hl. rewrite <- (Hl ltac:(lia) Ha).
  specialize (IH b1 F1 fills1 Hi1). rewrite Hread in IH. cbn [Order.price Order.set_quantity Order.quantity] in IH.
  rewrite (IH ltac:(lia) Hloop), Hfills, fills_total_app. simpl. lia.
Qed.

(** ** Price-time order *)

Lemma queue_order_cons (p : pool) k q m :
  queue_order p ((k, q) :: m) = ((fun h => (order_id p h, k)) <$> q) ++ queue_order p m.
Proof. done. Qed.

Lemma queue_order_frame (p p' : pool) m :
  (forall h, h ∈ PriceLevels.handles m -> order_id p h = order_id p' h) ->
  queue_order p m = queue_order p' m.
Proof. intros Hr. apply PriceLevels.side_map_ext. intros h k Hh. by rewrite Hr. Qed.

Lemma queue_order_app (p : pool) m1 m2 :
  queue_order p (m1 ++ m2) = queue_order p m1 ++ queue_order p m2.
Proof. apply PriceLevels.side_map_app. Qed.

(** Once the incoming order is filled, the loop stops at once. *)
Lemma match_loop_filled fuel gated s (b b' : book) inc fills fills' :
  Order.quantity (MemoryPool.read (pool_ b) inc) = 0 ->
  match_loop fuel gated s b inc fills = Some (b', fills') -> b' = b /\ fills' = fills.
Proof. destruct fuel; cbn [match_loop]; [done|]. intros ->. by intros [= <- <-]. Qed.

(** The loop consumes the opposite side from the front of its priority
    order: the keys of the fills it appends are a prefix of the side's
    queue, and the queue it leaves is the old one without its first [n]
    entries, [n] the number of fills or one less (when the last record
    traded is only partly filled). *)
Lemma match_loop_queue fuel gated s (b b' : book) F inc fills fills' :
  inv b F [inc] -> 0 <= Order.quantity (MemoryPool.read (pool_ b) inc) < 2 ^ 32 ->
  match_loop fuel gated s b inc fills = Some (b', fills') ->
  exists new n, fills' = fills ++ new /\
    fill_key <$> new `prefix_of` queue_order (pool_ b) (side_levels b (opposite s)) /\
    queue_order (pool_ b') (side_levels b' (opposite s))
      = drop n (queue_order (pool_ b) (side_levels b (opposite s))) /\
    (length new = n \/ length new = S n).
Proof.
  revert b F fills. induction fuel as [|fuel IH]; intros b F fills Hi Hq; cbn [match_loop]; [done|].
  assert (Hstop : Some (b, fills) = Some (b', fills') -> exists new n, fills' = fills ++ new /\
             fill_key <$> new `prefix_of` queue_order (pool_ b) (side_levels b (opposite s)) /\
             queue_order (pool_ b') (side_levels b' (opposite s))
               = drop n (queue_order (pool_ b) (side_levels b (opposite s))) /\
             (length new = n \/ length new = S n)).
  { intros [= <- <-]. exists [], 0%nat. split_and!; [by rewrite app_nil_r|apply prefix_nil|done|by left]. }
  set (io := MemoryPool.read (pool_ b) inc) in *.
  destruct (Z.ltb_spec 0 (Order.quantity io)) as [Hpos|Hz]; [|done].
  destruct (side_levels b (opposite s)) as [|[best q] rest] eqn:Hlv; [done|].
  destruct q as [|r q].
  { destruct (inv_sides _ _ _ Hi (opposite s)) as (_ & Hn & _). rewrite Hlv in Hn. by inversion Hn. }
  destruct (gated && gate_blocks s (Order.price io) best); [done|]. clear Hstop.
  assert (Hr : r ∈ resting b) by (rewrite (resting_sides b (opposite s)), Hlv; simpl; set_solver).
  destruct (match_front_cases b F inc (opposite s) best r q rest fills Hi Hlv) as (_ & Hqr & Hc); [fold io; lia|].
  destruct (match_front_spec b F inc (opposite s) best r q rest fills Hi Hlv)
    as ([F1 Hi1] & Hfills & Hread & _); [fold io; lia|].
  set (ro := MemoryPool.read (pool_ b) r) in *.
  set (traded := Z.min (Order.quantity io) (Order.quantity ro)) in *.
  pose proof (fun h => match_front_frame b F inc (opposite s) best r q rest
                 (Order.set_quantity io (Order.quantity io - traded))
                 (Order.set_quantity ro (Order.quantity ro - traded)) h Hi Hlv) as Hfr.
  cbv zeta in Hfr.
  destruct (match_front b (opposite s) inc best (r :: q) rest fills) as [b1 fills1].
  cbn [fst snd] in Hi1, Hfills, Hread. intros Hloop.
  rewrite queue_order_cons, fmap_cons. subst fills1.
  destruct Hc as [(Hle & Hc)|(Hlt & Hc)]; apply (f_equal fst) in Hc; cbn [fst] in Hc; subst b1.
  - destruct (IH _ F1 _ Hi1 ltac:(rewrite Hread; cbn [Order.quantity Order.set_quantity]; unfold traded, io in *; lia) Hloop) as (new & n & -> & Hpre & Hdrop & Hlen).
    rewrite side_levels_set_eq, (proj1 (set_side_fields _ _ _)) in Hpre, Hdrop. cbn [pool_] in Hpre, Hdrop.
    rewrite (queue_order_frame _ (pool_ b)) in Hpre, Hdrop;
      [|intros h Hh; unfold order_id; f_equal; apply Hfr; destruct q; simpl in Hh; set_solver..].
    exists (Fill.mk P (Order.id ro) (Order.id io) traded best :: new), (S n).
    rewrite <- (assoc_L (++)). split_and!; [done| | |simpl; lia].
    + rewrite fmap_cons. apply prefix_cons. by destruct q.
    + rewrite Hdrop. by destruct q.
  - destruct (match_loop_filled _ _ _ _ _ _ _ _ ltac:(rewrite Hread; cbn [Order.quantity Order.set_quantity]; unfold traded, io in *; lia) Hloop) as [-> ->].
    eexists _, 0%nat. split_and!; [done|apply prefix_cons, prefix_nil| |by right].
    unfold set_pool. rewrite side_levels_mk, Hlv. cbn [pool_].
    rewrite (queue_order_frame _ (pool_ b)); [by rewrite queue_order_cons|].
    rewrite PriceLevels.handles_cons. intros h Hh.
    apply elem_of_cons in Hh as [->|Hh]; unfold order_id; [|f_equal; by apply Hfr].
    rewrite MemoryPool.read_write_eq by (by rewrite MemoryPool.length_write; auto with lob). done.
Qed.

End Matching.
End Matching.
