(* ===== verification/ProcessOrder.v ===== *)
(** * Submitting an order

    [OrderBook::processOrder] (OrderBook.cpp, lines 17-55) and the fuel
    it gives the matching loop, with their theorems: on a well-formed
    book and a fresh id it always returns (the matching fuel suffices) and leaves a
    well-formed book; the fills never exceed the submitted quantity; a
    limit order never trades beyond its limit; a limit remainder rests
    at the back of its price level and is indexed; the first fill
    trades the oldest record of the best opposite level; a market order
    never rests; and a full pool rejects the order without touching the
    book. *)

From S2P Require Import Prelude Order MemoryPool PriceLevels OrderBook BookInvariant Matching.
Local Open Scope Z_scope.

Module ProcessOrder.
Import OrderBook BookInvariant Matching.
Section ProcessOrder.
Context {P : Type} `{Inhabited P} `{PriceLt P} `{!StrictWeakOrder (price_lt (P:=P))}.

Abbreviation book := (@OrderBook.t P).
#[local] Existing Instance side_cmp_order.

(** Whether the matching loop of an order type applies the price gate. *)
Definition gated (ty : OType) : bool := match ty with MARKET => false | LIMIT => true end.

(** The fuel given to the matching loop: one more than the entries
  plus resting records of the opposite side. *)
Definition match_fuel (b : book) (s : Side) : nat :=
S (PriceLevels.level_weight (side_levels b (opposite s))).

(** [std::vector<Fill> processOrder(id, timestamp, price, quantity,
  side, type)]. *)
Definition processOrder (b : book) (id ts : Z) (price : P) (qty : Z) (s : Side) (ty : OType)
  : option (book * list (Fill.t P)) :=
let '(p1, slot) := MemoryPool.allocate (pool_ b) in
match slot with
| None => Some (set_pool b p1, [])
| Some inc =>
    let b1 := set_pool b (MemoryPool.write p1 inc (Order.make id ts price qty s ty)) in
    let r := match ty with
             | MARKET => matchMarketOrder (match_fuel b1 s) b1 inc []
             | LIMIT => matchLimitOrder (match_fuel b1 s) b1 inc []
             end in
    match r with
    | None => None
    | Some (b2, fills) =>
        let io := MemoryPool.read (pool_ b2) inc in
        if bool_decide (Order.type io = LIMIT) && (0 <? Order.quantity io) then
          Some (restOrder b2 inc, fills)
        else Some (set_pool b2 (MemoryPool.deallocate (pool_ b2) (Some inc)), fills)
    end
end.

(** [processOrder] on a book satisfying the invariant: either the pool is
    exhausted and nothing happens, or the incoming order takes a slot,
    the loop runs to completion, and the order is then rested or
    released according to its type and remainder. *)
Lemma processOrder_run (b : book) F id ts price qty s ty :
  inv b F [] -> 0 <= qty < 2 ^ 32 ->
  (F = [] /\ processOrder b id ts price qty s ty = Some (b, [])) \/
  (exists inc b2 fills F2,
     inv b2 F2 [inc] /\ id_map_ b2 ⊆ id_map_ b /\ side_levels b2 s = side_levels b s /\
     MemoryPool.read (pool_ b2) inc = Order.make id ts price (qty - fills_total fills) s ty /\
     0 <= qty - fills_total fills /\
     Forall (fill_ok (gated ty) s (Order.make id ts price qty s ty)) fills /\
     processOrder b id ts price qty s ty =
       Some (if bool_decide (ty = LIMIT) && (0 <? qty - fills_total fills)
             then restOrder b2 inc
             else set_pool b2 (MemoryPool.deallocate (pool_ b2) (Some inc)), fills)).
Proof.
  intros Hi Hq. unfold processOrder.
  destruct (MemoryPool.allocate (pool_ b)) as [p1 [inc|]] eqn:Ea.
  - right. destruct (inv_allocate b F p1 inc Hi Ea) as (F' & -> & Hi1).
    set (o := Order.make id ts price qty s ty).
    assert (Hi2 := inv_write_live _ _ _ inc o Hi1 (list_elem_of_here _ _)).
    set (b1 := set_pool b (MemoryPool.write p1 inc o)).
    assert (Hr1 : MemoryPool.read (pool_ b1) inc = o).
    { apply MemoryPool.read_write_eq. auto with lob. }
    destruct (match_loop_spec (match_fuel b1 s) (gated ty) s b1 F' inc [] Hi2)
      as (b2 & fills & F2 & Hl & Hi3 & Hr & Hs & Hsub & Hsum & Hnn & Hok).
    { rewrite Hr1. simpl. lia. }
    { left. unfold match_fuel. lia. }
    rewrite Hr1 in Hr, Hsum, Hok. simpl in Hsum.
    assert (Hq2 : Order.quantity (MemoryPool.read (pool_ b2) inc) = qty - fills_total fills) by lia.
    rewrite Hq2 in Hr.
    exists inc, b2, fills, F2.
    refine (conj _ (conj _ (conj _ (conj _ (conj _ (conj _ _))))));
      [done|done|done|by rewrite Hr|lia|done|].
    assert (Hm : (match ty with
                  | MARKET => matchMarketOrder (match_fuel b1 s) b1 inc []
                  | LIMIT => matchLimitOrder (match_fuel b1 s) b1 inc [] end)
                 = Some (b2, fills)).
    { rewrite matchMarketOrder_eq, matchLimitOrder_eq, Hr1. by destruct ty. }
    fold o b1. rewrite Hm, Hr. cbn. by destruct (bool_decide _ && _).
  - left. pose proof (MemoryPool.allocate_none _ _ Ea) as ->.
    destruct (MemoryPool.allocate_rep _ _ (inv_pool _ _ _ Hi)) as [Hr _].
    rewrite Ea in Hr. destruct F; [|done]. split; [done|]. by destruct b.
Qed.

(** The fields [restOrder] changes: the order's side gets the slot at
    the back of its price level, and the id index points to it. *)
Lemma restOrder_fields (b : book) inc :
  let io := MemoryPool.read (pool_ b) inc in
  pool_ (restOrder b inc) = pool_ b /\
  id_map_ (restOrder b inc) = <[Order.id io := inc]> (id_map_ b) /\
  side_levels (restOrder b inc) (Order.side io) =
    PriceLevels.push_back (side_cmp (Order.side io)) (side_levels b (Order.side io)) (Order.price io) inc.
Proof.
  intros io. unfold restOrder, addToBook. fold io.
  destruct (set_side_fields b (Order.side io) (PriceLevels.push_back (side_cmp (Order.side io))
    (side_levels b (Order.side io)) (Order.price io) inc)) as (Hp & Hi & _).
  rewrite side_levels_mk, side_levels_set_eq. cbn [pool_ id_map_]. by rewrite Hp, Hi.
Qed.

(** [restOrder] leaves the side opposite the order untouched. *)
Lemma restOrder_opposite (b : book) inc :
  let s := Order.side (MemoryPool.read (pool_ b) inc) in
  side_levels (restOrder b inc) (opposite s) = side_levels b (opposite s).
Proof. intros s. unfold restOrder, addToBook. by rewrite side_levels_mk, side_levels_set_opp. Qed.

(** A submission either finds the pool exhausted and changes nothing,
    or takes a slot [inc] and runs the loop on the book [b1] holding the
    new record, which has the sides and the resting records of [b]; the
    result is the loop's book with the order rested or released. *)
Lemma processOrder_exec (b : book) F id ts price qty s ty b' fills :
  inv b F [] -> processOrder b id ts price qty s ty = Some (b', fills) ->
  (F = [] /\ b' = b /\ fills = []) \/
  exists inc F' b1 b2,
    F = inc :: F' /\ inv b1 F' [inc] /\
    MemoryPool.read (pool_ b1) inc = Order.make id ts price qty s ty /\
    (forall s', side_levels b1 s' = side_levels b s') /\
    (forall h, h ∈ resting b -> MemoryPool.read (pool_ b1) h = MemoryPool.read (pool_ b) h) /\
    match_loop (match_fuel b1 s) (gated ty) s b1 inc [] = Some (b2, fills) /\
    b' = if bool_decide (Order.type (MemoryPool.read (pool_ b2) inc) = LIMIT) &&
            (0 <? Order.quantity (MemoryPool.read (pool_ b2) inc))
         then restOrder b2 inc else set_pool b2 (MemoryPool.deallocate (pool_ b2) (Some inc)).
Proof.
  intros Hi. unfold processOrder.
  destruct (MemoryPool.allocate (pool_ b)) as [p1 [inc|]] eqn:Ea.
  2:{ pose proof (MemoryPool.allocate_none _ _ Ea) as ->. intros [= <- <-]. left.
      destruct (MemoryPool.allocate_rep _ _ (inv_pool _ _ _ Hi)) as [Hr _].
      rewrite Ea in Hr. destruct F; [|done]. split; [done|]. by destruct b. }
  intros Heq. right. destruct (inv_allocate b F p1 inc Hi Ea) as (F' & -> & Hi1).
  set (o := Order.make id ts price qty s ty) in Heq. set (b1 := set_pool b (MemoryPool.write p1 inc o)) in Heq.
  assert (Hr1 : MemoryPool.read (pool_ b1) inc = o) by (apply MemoryPool.read_write_eq; auto with lob).
  assert (Hm : match ty with
                | MARKET => matchMarketOrder (match_fuel b1 s) b1 inc []
                | LIMIT => matchLimitOrder (match_fuel b1 s) b1 inc [] end
               = match_loop (match_fuel b1 s) (gated ty) s b1 inc []).
  { rewrite matchMarketOrder_eq, matchLimitOrder_eq, Hr1. by destruct ty. }
  rewrite Hm in Heq. destruct (match_loop (match_fuel b1 s) (gated ty) s b1 inc []) as [[b2 fl]|] eqn:El; [|done].
  cbn beta iota zeta in Heq.
  assert (Heq' : Some (if bool_decide (Order.type (MemoryPool.read (pool_ b2) inc) = LIMIT) &&
                          (0 <? Order.quantity (MemoryPool.read (pool_ b2) inc))
                       then restOrder b2 inc
                       else set_pool b2 (MemoryPool.deallocate (pool_ b2) (Some inc)), fl)
                 = Some (b', fills)) by (by destruct (_ && _)).
  injection Heq' as <- <-.
  exists inc, F', b1, b2. split_and!; [done| |done| | |done|done].
  - exact (inv_write_live _ _ _ inc o Hi1 (list_elem_of_here _ _)).
  - intros s'. apply side_levels_mk.
  - intros h Hh. cbn [b1 pool_ set_pool]. rewrite MemoryPool.read_write_ne.
    + by apply (MemoryPool.allocate_read_ne _ _ _ _ Ea); intros ->;
        apply (inv_resting_not_free _ _ _ _ Hi Hh), list_elem_of_here.
    + intros ->. by apply (inv_resting_not_free _ _ _ _ Hi Hh), list_elem_of_here.
Qed.

(** The last step of [processOrder], resting the remainder or
    releasing the slot, leaves the side opposite the order and the
    records resting in it untouched. *)
Lemma finish_opposite (b2 : book) F2 inc s b' :
  inv b2 F2 [inc] -> Order.side (MemoryPool.read (pool_ b2) inc) = s ->
  b' = restOrder b2 inc \/ b' = set_pool b2 (MemoryPool.deallocate (pool_ b2) (Some inc)) ->
  side_levels b' (opposite s) = side_levels b2 (opposite s) /\
  forall h, h ∈ PriceLevels.handles (side_levels b2 (opposite s)) ->
    MemoryPool.read (pool_ b') h = MemoryPool.read (pool_ b2) h.
Proof.
  intros Hi Hs [->| ->].
  - destruct (restOrder_fields b2 inc) as (-> & _). split; [|done].
    pose proof (restOrder_opposite b2 inc) as Ho. cbv zeta in Ho. by rewrite Hs in Ho.
  - unfold set_pool. rewrite side_levels_mk. split; [done|]. cbn [pool_]. intros h Hh.
    apply MemoryPool.deallocate_read_ne. intros <-.
    apply (inv_live_not_resting _ _ _ inc Hi (list_elem_of_here _ _)).
    rewrite (resting_sides b2 (opposite s)). set_solver.
Qed.

(** [processOrder] takes out of the side it trades against, at the
    prices the submission accepts, exactly the quantity it fills; the
    fills stay within the submitted quantity and the liquidity left is
    nonnegative. *)
Lemma processOrder_liquidity_eq (b : book) F id ts price qty s ty b' fills :
  inv b F [] -> 0 <= qty < 2 ^ 32 -> processOrder b id ts price qty s ty = Some (b', fills) ->
  let accept := tradable (gated ty) s price in
  fills_total fills + liquidity accept (pool_ b') (side_levels b' (opposite s))
    = liquidity accept (pool_ b) (side_levels b (opposite s)) /\
  fills_total fills <= qty /\ 0 <= liquidity accept (pool_ b') (side_levels b' (opposite s)).
Proof.
  intros Hi Hq Hp accept.
  destruct (processOrder_exec b F id ts price qty s ty _ _ Hi Hp)
    as [(_ & -> & ->)|(inc & F' & b1 & b2 & -> & Hi1 & Hr1 & Hsd & Hrd & El & Hb')].
  { pose proof (liquidity_nonneg accept b F [] (opposite s) Hi). simpl. lia. }
  destruct (match_loop_spec (match_fuel b1 s) (gated ty) s b1 F' inc [] Hi1)
    as (b2' & fills2 & F2 & El' & Hi3 & Hr & _ & _ & Hsum & Hnn & _);
    [rewrite Hr1; simpl; lia|left; unfold match_fuel; lia|].
  rewrite El in El'. injection El' as <- <-.
  assert (Hq1 : 0 <= Order.quantity (MemoryPool.read (pool_ b1) inc) < 2 ^ 32) by (rewrite Hr1; simpl; lia).
  pose proof (match_loop_liquidity _ (gated ty) s b1 b2 F' inc [] _ Hi1 Hq1 El) as Hl.
  rewrite Hr1 in Hl, Hr, Hsum. cbv zeta in Hl. simpl in Hsum.
  cbn [Order.price Order.make] in Hl. fold accept in Hl.
  assert (Hb1 : liquidity accept (pool_ b1) (side_levels b1 (opposite s))
                = liquidity accept (pool_ b) (side_levels b (opposite s))).
  { rewrite Hsd. apply liquidity_frame. intros h Hh. apply Hrd.
    rewrite (resting_sides b (opposite s)). set_solver. }
  destruct (finish_opposite b2 F2 inc s b' Hi3 ltac:(by rewrite Hr)
              ltac:(rewrite Hb'; destruct (_ && _); [left|right]; done)) as [Ho Hrd2].
  assert (Hb2 : liquidity accept (pool_ b') (side_levels b' (opposite s))
                = liquidity accept (pool_ b2) (side_levels b2 (opposite s)))
    by (rewrite Ho; apply liquidity_frame; intros h Hh; by apply Hrd2).
  pose proof (liquidity_nonneg accept b2 F2 [inc] (opposite s) Hi3).
  change (fills_total []) with 0 in Hl. lia.
Qed.

(** ** Theorems *)

(** One submission on a book satisfying the invariant with a fresh id:
    it returns, keeps the invariant, and indexes no id but its own. *)
Lemma processOrder_step (b : book) F id ts price qty s ty :
  inv b F [] -> 0 <= qty < 2 ^ 32 -> id_map_ b !! id = None ->
  exists b' fills F', processOrder b id ts price qty s ty = Some (b', fills) /\ inv b' F' [] /\
    forall k, is_Some (id_map_ b' !! k) -> is_Some (id_map_ b !! k) \/ k = id.
Proof.
  intros Hi Hq Hfresh.
  destruct (processOrder_run b F id ts price qty s ty Hi Hq)
    as [[_ ->]|(inc & b2 & fills & F2 & Hi2 & Hsub & _ & Hr & _ & Hok & ->)];
    [by eexists _, _, F; split_and!; [| |left]|].
  pose proof (fills_total_nonneg _ _ _ _ Hok).
  destruct (bool_decide (ty = LIMIT) && (0 <? qty - fills_total fills)) eqn:E.
  - apply andb_true_iff in E as [E1 E2%Z.ltb_lt]. apply bool_decide_eq_true in E1.
    exists (restOrder b2 inc), fills, F2. split_and!; [done| |].
    + apply inv_rest; rewrite ?Hr; simpl; [done|done|lia|]. by eapply lookup_weaken_None.
    + intros k. destruct (restOrder_fields b2 inc) as (_ & -> & _). rewrite Hr. simpl.
      rewrite lookup_insert_is_Some. intros [<-|[_ Hk]]; [by right|left].
      destruct Hk as [x Hx]. exists x. by eapply lookup_weaken.
  - exists (set_pool b2 (MemoryPool.deallocate (pool_ b2) (Some inc))), fills, (inc :: F2).
    split_and!; [done|by apply inv_release|]. intros k [x Hx]. left. exists x. by eapply lookup_weaken.
Qed.

(** No step of a submission resizes the pool. *)
Lemma match_front_capacity (b : book) so inc best q rest fills :
  MemoryPool.capacity (pool_ (match_front b so inc best q rest fills).1) = MemoryPool.capacity (pool_ b).
Proof. unfold match_front. cbv zeta. destruct (_ =? 0); [destruct so|]; reflexivity. Qed.

Lemma match_loop_capacity fuel gated s (b b' : book) inc fills fills' :
  match_loop fuel gated s b inc fills = Some (b', fills') ->
  MemoryPool.capacity (pool_ b') = MemoryPool.capacity (pool_ b).
Proof.
  revert b fills. induction fuel as [|fuel IH]; intros b fills; cbn [match_loop]; [done|].
  destruct (0 <? _); [|by intros [= <- _]].
  destruct (side_levels b (opposite s)) as [|[best q] rest]; [by intros [= <- _]|].
  destruct (_ && _); [by intros [= <- _]|].
  destruct (match_front b (opposite s) inc best q rest fills) as [b1 f1] eqn:E.
  intros Hl. rewrite (IH _ _ Hl), <- (match_front_capacity b (opposite s) inc best q rest fills), E. done.
Qed.

Lemma processOrder_capacity (b b' : book) id ts price qty s ty fills :
  processOrder b id ts price qty s ty = Some (b', fills) ->
  MemoryPool.capacity (pool_ b') = MemoryPool.capacity (pool_ b).
Proof.
  unfold processOrder. pose proof (MemoryPool.allocate_capacity (pool_ b)) as Hc.
  destruct (MemoryPool.allocate (pool_ b)) as [p1 [inc|]]; cbn [fst] in Hc; [|by intros [= <- _]].
  destruct ty; rewrite ?matchMarketOrder_eq, ?matchLimitOrder_eq;
    destruct (match_loop _ _ _ _ _ _) as [[b2 f2]|] eqn:El; try done; cbn beta iota zeta;
    apply match_loop_capacity in El; cbn [pool_ set_pool] in El;
    (destruct (_ && _); intros [= <- _]; [rewrite (proj1 (restOrder_fields b2 inc))|cbn [pool_ set_pool];
      cbn [MemoryPool.capacity]]; by rewrite El).
Qed.

(** A submission adds at most one id to the index: the loop only
    removes ids, and resting the remainder adds the order's own. *)
Lemma processOrder_index_size (b : book) F id ts price qty s ty b' fills :
  inv b F [] -> 0 <= qty < 2 ^ 32 -> processOrder b id ts price qty s ty = Some (b', fills) ->
  (size (id_map_ b') <= S (size (id_map_ b)))%nat.
Proof.
  intros Hi Hq. destruct (processOrder_run b F id ts price qty s ty Hi Hq)
    as [[_ ->]|(inc & b2 & fl & F2 & _ & Hsub & _ & _ & _ & _ & ->)]; intros [= <- _]; [lia|].
  apply map_subseteq_size in Hsub. destruct (_ && _); [|cbn [id_map_ set_pool]; lia].
  rewrite (proj1 (proj2 (restOrder_fields b2 inc))), map_size_insert. case_match; cbn; lia.
Qed.

(** With fewer active orders than slots, the free stack is not empty. *)
Lemma room_free (b : book) F :
  inv b F [] -> totalActiveOrders b < Z.of_nat (MemoryPool.capacity (pool_ b)) -> F <> [].
Proof. intros Hi Hc ->. pose proof (inv_count _ _ _ Hi). unfold totalActiveOrders in Hc. simpl in *. lia. Qed.

(** C1: on a well-formed book, a quantity that fits in [uint32_t] and
    an id that no resting order carries, [processOrder] returns (the
    fuel [match_fuel] is enough for the matching loop) and the book it
    leaves is well formed. *)
Theorem processOrder_wf (b : book) id ts price qty s ty :
  wf b -> 0 <= qty < 2 ^ 32 -> id_map_ b !! id = None ->
  exists b' fills, processOrder b id ts price qty s ty = Some (b', fills) /\ wf b'.
Proof.
  intros [F Hi] Hq Hfresh.
  destruct (processOrder_step b F id ts price qty s ty Hi Hq Hfresh) as (b' & fills & F' & Hp & Hi' & _).
  exists b', fills. split; [done|by exists F'].
Qed.

(** C2: the fills of a submission never trade more than the submitted
    quantity, and each of them names the incoming order and trades a
    positive quantity. *)
Theorem processOrder_conservation (b : book) id ts price qty s ty b' fills :
  wf b -> 0 <= qty < 2 ^ 32 -> processOrder b id ts price qty s ty = Some (b', fills) ->
  fills_total fills <= qty /\
  Forall (fun f => Fill.incoming_id f = id /\ 0 < Fill.quantity f) fills.
Proof.
  intros [F Hi] Hq.
  destruct (processOrder_run b F id ts price qty s ty Hi Hq)
    as [[_ ->]|(inc & b2 & fl & F2 & _ & _ & _ & _ & Hnn & Hok & ->)];
    intros [= _ <-]; [split; [simpl; lia|done]|].
  split; [lia|]. apply Forall_impl with (1 := Hok). by intros f (? & ? & _).
Qed.

(** C3: conservation against the book: the fills of a submission add
    up to exactly the quantity it takes out of the opposite side at the
    prices it accepts (every price for a MARKET order, those its limit
    lets through for a LIMIT order); so they never exceed the smaller
    of the submitted quantity and the opposite-side liquidity within
    the price gate. *)
Theorem processOrder_liquidity (b : book) id ts price qty s ty b' fills :
  wf b -> 0 <= qty < 2 ^ 32 -> processOrder b id ts price qty s ty = Some (b', fills) ->
  let accept := tradable (gated ty) s price in
  let before := liquidity accept (pool_ b) (side_levels b (opposite s)) in
  fills_total fills + liquidity accept (pool_ b') (side_levels b' (opposite s)) = before /\
  fills_total fills <= Z.min qty before.
Proof.
  intros [F Hi] Hq Hp accept before.
  destruct (processOrder_liquidity_eq b F id ts price qty s ty b' fills Hi Hq Hp) as (Heq & Hle & Hnn).
  split; [done|]. unfold before, accept. lia.
Qed.

(** C4: a LIMIT order never trades beyond its limit: a BUY never fills
    at a price above its limit, a SELL never below it (the gate of
    [matchLimitOrder]). *)
Theorem limit_price_gate (b : book) id ts price qty s b' fills :
  wf b -> 0 <= qty < 2 ^ 32 -> processOrder b id ts price qty s LIMIT = Some (b', fills) ->
  Forall (fun f => match s with
                   | BUY => price_lt price (Fill.price f) = false
                   | SELL => price_lt (Fill.price f) price = false end) fills.
Proof.
  intros [F Hi] Hq.
  destruct (processOrder_run b F id ts price qty s LIMIT Hi Hq)
    as [[_ ->]|(inc & b2 & fl & F2 & _ & _ & _ & _ & _ & Hok & ->)];
    intros [= _ <-]; [done|].
  apply Forall_impl with (1 := Hok). intros f (_ & _ & Hg). specialize (Hg eq_refl).
  by destruct s.
Qed.

(** C7: the unfilled remainder of a LIMIT order rests: the id index
    points to a slot holding the order with the remaining quantity, and
    that slot is appended at the back of the queue of its price level
    (time priority behind every order already resting there).  This
    holds when the pool has a free slot, which the order takes. *)
Theorem limit_remainder_rests (b : book) id ts price qty s b' fills :
  wf b -> 0 <= qty < 2 ^ 32 -> totalActiveOrders b < Z.of_nat (MemoryPool.capacity (pool_ b)) ->
  processOrder b id ts price qty s LIMIT = Some (b', fills) -> fills_total fills < qty ->
  exists h, id_map_ b' !! id = Some h /\
    MemoryPool.read (pool_ b') h = Order.make id ts price (qty - fills_total fills) s LIMIT /\
    PriceLevels.find (side_cmp s) (side_levels b' s) price =
      Some (default [] (PriceLevels.find (side_cmp s) (side_levels b s) price) ++ [h]).
Proof.
  intros [F Hi] Hq Hcap.
  destruct (processOrder_run b F id ts price qty s LIMIT Hi Hq)
    as [[-> _]|(inc & b2 & fl & F2 & _ & _ & Hs & Hr & _ & _ & ->)];
    [pose proof (inv_count _ _ _ Hi); unfold totalActiveOrders in Hcap; simpl in *; lia|].
  intros [= <- <-] Hlt.
  rewrite (proj2 (Z.ltb_lt _ _)) by lia.
  destruct (restOrder_fields b2 inc) as (-> & -> & Hside). rewrite Hr in Hside. simpl in Hside.
  exists inc. split_and!; [by rewrite Hr, lookup_insert_eq|done|].
  rewrite Hside, <- Hs. apply PriceLevels.find_push_back, _.
Qed.

(** C5: price-time priority.  The first fill of a submission trades
    the front record (the oldest) of the best level of the opposite side
    (the first entry of its map), at that level's price (the maker's),
    for the smaller of the two quantities. *)
Theorem processOrder_priority (b : book) id ts price qty s ty b' f fills :
  wf b -> processOrder b id ts price qty s ty = Some (b', f :: fills) ->
  exists best r q rest,
    side_levels b (opposite s) = (best, r :: q) :: rest /\
    Fill.resting_id f = Order.id (MemoryPool.read (pool_ b) r) /\ Fill.price f = best /\
    Fill.quantity f = Z.min qty (Order.quantity (MemoryPool.read (pool_ b) r)).
Proof.
  intros [F Hi] Hp.
  destruct (processOrder_exec b F id ts price qty s ty _ _ Hi Hp)
    as [(_ & _ & [=])|(inc & F' & b1 & b2 & -> & Hi1 & Hr1 & Hsd & Hrd & Hl & _)].
  apply (match_loop_first _ _ _ _ _ _ [] f fills) in Hl as (best & q & rest & Hs & ->).
  rewrite Hsd in Hs. destruct q as [|r q].
  { destruct (inv_sides _ _ _ Hi (opposite s)) as (_ & Hn & _). rewrite Hs in Hn. by inversion Hn. }
  assert (Hr : r ∈ resting b) by (rewrite (resting_sides b (opposite s)), Hs; simpl; set_solver).
  exists best, r, q, rest. cbn [default from_option head Datatypes.id]. rewrite Hr1, (Hrd r Hr). by split_and!.
Qed.

(** The fills of a submission follow the opposite side's queue. *)
Lemma processOrder_queue (b : book) id ts price qty s ty b' fills :
  wf b -> 0 <= qty < 2 ^ 32 -> processOrder b id ts price qty s ty = Some (b', fills) ->
  let Q := queue_order (pool_ b) (side_levels b (opposite s)) in
  fill_key <$> fills `prefix_of` Q /\
  exists n, queue_order (pool_ b') (side_levels b' (opposite s)) = drop n Q /\
    (length fills = n \/ length fills = S n).
Proof.
  intros [F Hi] Hq Hp Q.
  destruct (processOrder_exec b F id ts price qty s ty _ _ Hi Hp)
    as [(_ & -> & ->)|(inc & F' & b1 & b2 & -> & Hi1 & Hr1 & Hsd & Hrd & El & Hb')];
    [split; [apply prefix_nil|by exists 0%nat; split; [|left]]|].
  destruct (match_loop_spec (match_fuel b1 s) (gated ty) s b1 F' inc [] Hi1)
    as (b2' & fills2 & F2 & El' & Hi3 & Hr & _);
    [rewrite Hr1; simpl; lia|left; unfold match_fuel; lia|].
  rewrite El in El'. injection El' as <- <-. rewrite Hr1 in Hr.
  destruct (finish_opposite b2 F2 inc s b' Hi3 ltac:(by rewrite Hr)
              ltac:(rewrite Hb'; destruct (_ && _); [left|right]; done)) as [Ho Hrd2].
  assert (HQ : queue_order (pool_ b1) (side_levels b1 (opposite s)) = Q).
  { rewrite Hsd. apply queue_order_frame. intros h Hh. unfold order_id. f_equal. apply Hrd.
    rewrite (resting_sides b (opposite s)). set_solver. }
  destruct (match_loop_queue _ _ _ _ _ _ _ _ _ Hi1 ltac:(rewrite Hr1; simpl; lia) El)
    as (new & n & Hnew & Hpre & Hdrop & Hlen). simpl in Hnew. subst new.
  rewrite HQ in Hpre, Hdrop. split; [done|]. exists n. split; [|done].
  rewrite Ho, <- Hdrop. apply queue_order_frame. intros h Hh. unfold order_id. f_equal. by apply Hrd2.
Qed.

(** C20: a MARKET order, and a LIMIT order that is filled completely,
    never rests: no id is added to the index and the incoming side of
    the book is unchanged. *)
Theorem no_rest_without_remainder (b : book) id ts price qty s ty b' fills :
  wf b -> 0 <= qty < 2 ^ 32 -> processOrder b id ts price qty s ty = Some (b', fills) ->
  ty = MARKET \/ fills_total fills = qty ->
  id_map_ b' ⊆ id_map_ b /\ side_levels b' s = side_levels b s.
Proof.
  intros [F Hi] Hq.
  destruct (processOrder_run b F id ts price qty s ty Hi Hq)
    as [[_ ->]|(inc & b2 & fl & F2 & _ & Hsub & Hs & _ & _ & _ & ->)];
    intros Heq; injection Heq as E1 E2; subst b' fills; [done|]. intros Hty.
  assert (E : bool_decide (ty = LIMIT) && (0 <? qty - fills_total fl) = false).
  { destruct Hty as [-> | ->]; [done|]. by rewrite Z.sub_diag, andb_false_r. }
  rewrite E. by destruct s.
Qed.

(** C21: when every slot of the pool holds a resting order, a
    submission is rejected: [processOrder] returns no fill and leaves
    the book as it was. *)
Theorem processOrder_pool_full (b : book) id ts price qty s ty :
  wf b -> totalActiveOrders b = Z.of_nat (MemoryPool.capacity (pool_ b)) ->
  processOrder b id ts price qty s ty = Some (b, []).
Proof.
  intros [F Hi] Hfull. pose proof (inv_count _ _ _ Hi) as Hc. unfold totalActiveOrders in Hfull.
  destruct F; [|simpl in Hc; lia].
  destruct (MemoryPool.allocate_rep _ _ (inv_pool _ _ _ Hi)) as [Hr _].
  unfold processOrder. destruct (MemoryPool.allocate (pool_ b)) as [p1 [inc|]] eqn:Ea;
    simpl in Hr; [done|].
  apply MemoryPool.allocate_none in Ea as ->. by destruct b.
Qed.

(** C15: progress of matching: an order that can trade does. On a
    well-formed book with a free slot, a submission with a positive
    [uint32_t] quantity whose limit accepts the best price of the
    opposite side (any price, for a MARKET order) returns, with at
    least one fill. *)
Theorem processOrder_progress (b : book) id ts price qty s ty best q rest :
  wf b -> 0 < qty < 2 ^ 32 -> totalActiveOrders b < Z.of_nat (MemoryPool.capacity (pool_ b)) ->
  side_levels b (opposite s) = (best, q) :: rest -> tradable (gated ty) s price best = true ->
  exists b' f fills, processOrder b id ts price qty s ty = Some (b', f :: fills).
Proof.
  intros [F Hi] Hq Hcap Hs Ht. pose proof (room_free b F Hi Hcap) as HF.
  destruct (processOrder_run b F id ts price qty s ty Hi ltac:(lia))
    as [[? _]|(inc & b2 & fl & F2 & _ & _ & _ & _ & _ & _ & Hp)]; [done|].
  destruct (processOrder_exec b F id ts price qty s ty _ _ Hi Hp)
    as [(? & _)|(inc' & F' & b1 & b2' & _ & _ & Hr1 & Hsd & _ & El & _)]; [done|].
  destruct fl as [|f fl]; [|by eauto].
  apply match_loop_progress with (best := best) (q := q) (rest := rest) in El; [simpl in El; lia| | |];
    rewrite ?Hr1, ?Hsd; cbn [Order.quantity Order.price Order.make]; [lia|done|done].
Qed.

(** C6: price-time priority in full: a submission consumes the
    opposite side from the front of its priority order (best price
    first, front to back within a level).  The (resting id, price)
    pairs of its fills are a prefix of that side's queue, and the queue
    left afterwards is the old one without its first [n] entries, where
    [n] is the number of fills, or one less when the last record traded
    is only partly filled. *)
Theorem processOrder_fifo (b : book) id ts price qty s ty b' fills :
  wf b -> 0 <= qty < 2 ^ 32 -> processOrder b id ts price qty s ty = Some (b', fills) ->
  let Q := queue_order (pool_ b) (side_levels b (opposite s)) in
  fill_key <$> fills `prefix_of` Q /\
  exists n, queue_order (pool_ b') (side_levels b' (opposite s)) = drop n Q /\
    (length fills = n \/ length fills = S n).
Proof. apply processOrder_queue. Qed.

(** C16: a submission is bounded by the records it touches: it emits at
    most one fill per record resting on the opposite side when it is
    called, so its matching loop runs at most that many trading
    iterations. *)
Theorem processOrder_fills_bounded (b : book) id ts price qty s ty b' fills :
  wf b -> 0 <= qty < 2 ^ 32 -> processOrder b id ts price qty s ty = Some (b', fills) ->
  (length fills <= length (PriceLevels.handles (side_levels b (opposite s))))%nat.
Proof.
  intros Hw Hq Hp. destruct (processOrder_queue b id ts price qty s ty b' fills Hw Hq Hp) as [Hpre _].
  apply prefix_length in Hpre. rewrite length_fmap in Hpre. unfold queue_order in Hpre.
  by rewrite PriceLevels.length_side_map in Hpre.
Qed.

End ProcessOrder.
End ProcessOrder.
