(* ===== verification/Cancel.v ===== *)
(** * Cancelling an order

    [OrderBook::cancelOrder] (OrderBook.cpp, lines 60-112) and its
    theorems on a well-formed book: a
    cancel of an indexed id removes exactly that order (its id leaves the
    index, its slot returns to the pool, the counter drops by one) and
    keeps the book well formed; the queue of each side loses exactly
    the entries of that id, the other records keeping their priority
    order; a cancel of an id that is not indexed changes nothing and
    returns [false]; cancelling twice fails the second time. *)

From S2P Require Import Prelude Order MemoryPool PriceLevels OrderBook BookInvariant Matching.
Local Open Scope Z_scope.

Module Cancel.
Import OrderBook BookInvariant Matching.
Section Cancel.
Context {P : Type} `{Inhabited P} `{PriceLt P} `{!StrictWeakOrder (price_lt (P:=P))}.

Abbreviation book := (@OrderBook.t P).
Abbreviation pool := (@MemoryPool.t P).
#[local] Existing Instance side_cmp_order.

(** [bool cancelOrder(uint64_t id)]: look the id up, find the level at
  the order's price on its side, remove the first record of that
  deque carrying the id, and release the slot the id index points
  to. *)
Definition cancelOrder (b : book) (id : Z) : book * bool :=
match id_map_ b !! id with
| None => (b, false)
| Some h =>
    let o := MemoryPool.read (pool_ b) h in
    let s := Order.side o in
    let m := side_levels b s in
    match PriceLevels.find (side_cmp s) m (Order.price o) with
    | None => (b, false)
    | Some q =>
        match list_find (fun h' => Order.id (MemoryPool.read (pool_ b) h') = id) q with
        | None => (b, false)
        | Some (pos, _) =>
            let q' := delete pos q in
            let b' := mk (MemoryPool.deallocate (pool_ b) (Some h)) (bids_ b) (asks_ b)
                         (delete id (id_map_ b)) (max_orders_ b)
                         (size_dec (active_orders_ b)) in
            let m' := match q' with
                      | [] => PriceLevels.erase (side_cmp s) m (Order.price o)
                      | _ => PriceLevels.set_level (side_cmp s) m (Order.price o) q'
                      end in
            (set_side_levels b' s m', true)
        end
    end
end.

(** A resting slot lies on the side its record names, in the level
    [find] returns for its price. *)
Lemma resting_level (b : book) F live h :
  inv b F live -> h ∈ resting b ->
  let o := MemoryPool.read (pool_ b) h in
  exists q, PriceLevels.find (side_cmp (Order.side o)) (side_levels b (Order.side o)) (Order.price o)
              = Some q /\ h ∈ q.
Proof.
  intros Hi Hh o.
  assert (Hs : exists s, h ∈ PriceLevels.handles (side_levels b s)).
  { unfold resting in Hh. apply elem_of_app in Hh as [Hh|Hh]; [exists BUY|exists SELL]; done. }
  destruct Hs as [s Hs]. apply PriceLevels.elem_of_handles in Hs as (k & q & Hkq & Hhq).
  destruct (inv_sides _ _ _ Hi s) as (Hsort & _ & Hl).
  unfold PriceLevels.levels_ok in Hl. rewrite Forall_forall in Hl.
  specialize (Hl _ Hkq). rewrite Forall_forall in Hl.
  destruct (Hl h Hhq) as (Hside & _ & Hk & _). fold o in Hside, Hk. rewrite Hside.
  exists q. split; [|done].
  apply (PriceLevels.find_complete (side_cmp s) _ _ k); [done|done|].
  by rewrite (PriceLevels.key_eqb_sym (side_cmp s)).
Qed.

(** The level left after removing position [pos] of the deque [q]
    found at key [k]: [erase] when it empties, [operator=] otherwise. *)
Lemma side_ok_remove (p : pool) s m k q pos h :
  side_ok p s m -> PriceLevels.find (side_cmp s) m k = Some q -> q !! pos = Some h ->
  let m' := match delete pos q with
            | [] => PriceLevels.erase (side_cmp s) m k
            | _ => PriceLevels.set_level (side_cmp s) m k (delete pos q) end in
  side_ok p s m' /\ PriceLevels.handles m ≡ₚ h :: PriceLevels.handles m'.
Proof.
  intros (Hs & Hn & Hl) Hf Hq m'.
  pose proof (delete_Permutation _ _ _ Hq) as Hperm.
  pose proof (PriceLevels.find_erase_handles (side_cmp s) _ _ _ Hf) as He.
  unfold m', side_ok. destruct (delete pos q) as [|x q'] eqn:Ed.
  - split_and!; [exact (PriceLevels.erase_sorted (side_cmp s) _ _ Hs)|by apply PriceLevels.erase_no_empty|
                 by apply PriceLevels.erase_levels_ok|].
    by rewrite He, Hperm.
  - split_and!; [exact (PriceLevels.set_level_sorted (side_cmp s) _ _ _ Hs)|by apply PriceLevels.set_level_no_empty| |].
    + apply (PriceLevels.set_level_levels_ok (side_cmp s) _ _ _ q); [done| |done].
      intros y Hy. rewrite Hperm. by right.
    + by rewrite (PriceLevels.find_set_level_handles (side_cmp s) _ _ q), He, Hperm by done.
Qed.

(** What [cancelOrder] of an indexed id does under the invariant: the
    id's slot [h] is at some position [pos] of the deque [find] returns
    for the record's price on its side; that position is deleted (the
    level erased if it empties), the slot released, the id unindexed
    and the counter decremented. *)
Lemma cancelOrder_shape (b : book) F id h :
  inv b F [] -> id_map_ b !! id = Some h ->
  let o := MemoryPool.read (pool_ b) h in
  let s := Order.side o in
  exists q pos,
    PriceLevels.find (side_cmp s) (side_levels b s) (Order.price o) = Some q /\ q !! pos = Some h /\
    cancelOrder b id =
      (set_side_levels (mk (MemoryPool.deallocate (pool_ b) (Some h)) (bids_ b) (asks_ b)
                           (delete id (id_map_ b)) (max_orders_ b) (size_dec (active_orders_ b))) s
         (match delete pos q with
          | [] => PriceLevels.erase (side_cmp s) (side_levels b s) (Order.price o)
          | _ => PriceLevels.set_level (side_cmp s) (side_levels b s) (Order.price o) (delete pos q)
          end), true).
Proof.
  intros Hi Hid o s. pose proof Hid as [Hh Ho]%(inv_ids _ _ _ Hi).
  destruct (resting_level b F [] h Hi Hh) as (q & Hf & Hhq). fold o s in Hf.
  unfold cancelOrder. rewrite Hid. fold o s. rewrite Hf.
  set (Pid := fun h' => Order.id (MemoryPool.read (pool_ b) h') = id).
  destruct (list_find Pid q) as [[pos h']|] eqn:Efind.
  2:{ apply list_find_None in Efind. rewrite Forall_forall in Efind. by destruct (Efind h Hhq). }
  apply list_find_Some in Efind as (Hpos & Hid' & _).
  assert (h' = h) as ->.
  { eapply (NoDup_fmap_inj_on (order_id (pool_ b))); [apply Hi| | |].
    - rewrite (resting_sides b s), elem_of_app. left.
      eapply PriceLevels.find_handles; [exact Hf|by eapply list_elem_of_lookup_2].
    - done.
    - exact (eq_trans Hid' (eq_sym Ho)). }
  by exists q, pos.
Qed.

(** [cancelOrder] of an indexed id under the invariant: it returns
    [true], the slot [h] goes back to the pool, the id leaves the index
    and the counter drops by one. *)
Lemma cancelOrder_some (b : book) F id h :
  inv b F [] -> id_map_ b !! id = Some h ->
  exists b', cancelOrder b id = (b', true) /\ inv b' (h :: F) [] /\
    id_map_ b' = delete id (id_map_ b) /\ active_orders_ b' = active_orders_ b - 1.
Proof.
  intros Hi Hid. pose proof Hid as [Hh Ho]%(inv_ids _ _ _ Hi).
  destruct (cancelOrder_shape b F id h Hi Hid) as (q & pos & Hf & Hpos & ->).
  set (o := MemoryPool.read (pool_ b) h) in *. set (s := Order.side o) in *.
  destruct (side_ok_remove (pool_ b) s _ _ q pos h (inv_sides _ _ _ Hi s) Hf Hpos) as [Hok Hperm].
  pose proof (inv_remove b F [] s h _ o Hi Hperm Hok eq_refl) as Hi'.
  unfold o in Hi'. rewrite MemoryPool.write_read in Hi' by auto with lob.
  unfold order_id in Ho. rewrite Ho in Hi'.
  eexists; split_and!; [done|exact Hi'| |].
  - by destruct s.
  - rewrite (proj2 (proj2 (set_side_fields _ _ _))). simpl.
    rewrite size_dec_nowrap; [done|]. rewrite (inv_active _ _ _ Hi).
    pose proof (inv_cap _ _ _ Hi). pose proof (Permutation_length (inv_slots _ _ _ Hi)).
    assert (length (resting b) <> 0)%nat by (destruct (resting b); [set_solver|done]).
    rewrite length_seq, !length_app in *. lia.
Qed.

(** The two outcomes of [cancelOrder] under the invariant. *)
Lemma cancelOrder_cases (b : book) F id :
  inv b F [] ->
  (id_map_ b !! id = None /\ cancelOrder b id = (b, false)) \/
  (exists h b', id_map_ b !! id = Some h /\ cancelOrder b id = (b', true) /\
     inv b' (h :: F) [] /\ id_map_ b' = delete id (id_map_ b) /\
     active_orders_ b' = active_orders_ b - 1).
Proof.
  intros Hi. destruct (id_map_ b !! id) as [h|] eqn:Hid.
  - right. destruct (cancelOrder_some b F id h Hi Hid) as (b' & ? & ? & ? & ?). by exists h, b'.
  - left. unfold cancelOrder. by rewrite Hid.
Qed.

(** [cancelOrder] never resizes the pool. *)
Lemma cancelOrder_capacity (b : book) id :
  MemoryPool.capacity (pool_ (cancelOrder b id).1) = MemoryPool.capacity (pool_ b).
Proof. unfold cancelOrder. repeat case_match; try done. all: by destruct (Order.side (MemoryPool.read (pool_ b) _)). Qed.

(** ** Theorems *)

(** How [cancelOrder] acts on a view of a side that reads each slot's
    record: when [Q] tells the records of [id] from the others, the view
    afterwards is the view before filtered by [Q]. *)
Lemma cancelOrder_side_map {A} (f : pool -> nat -> P -> A) (Q : A -> Prop) `{!forall x, Decision (Q x)}
    (b : book) F id s' :
  inv b F [] ->
  (forall p p' h k, MemoryPool.read p h = MemoryPool.read p' h -> f p h k = f p' h k) ->
  (forall h k, h ∈ resting b -> Q (f (pool_ b) h k) <-> order_id (pool_ b) h <> id) ->
  PriceLevels.side_map (f (pool_ (cancelOrder b id).1)) (side_levels (cancelOrder b id).1 s')
    = filter Q (PriceLevels.side_map (f (pool_ b)) (side_levels b s')).
Proof.
  intros Hi Hf HQ.
  assert (Hres : forall s'' h', h' ∈ PriceLevels.handles (side_levels b s'') -> h' ∈ resting b)
    by (intros s'' h' Hh'; rewrite (resting_sides b s''); set_solver).
  assert (Hids : forall h', h' ∈ resting b -> order_id (pool_ b) h' = id -> id_map_ b !! id = Some h')
    by (intros h' Hh' He; by apply (inv_ids _ _ _ Hi)).
  destruct (id_map_ b !! id) as [h|] eqn:Hid.
  2:{ unfold cancelOrder. rewrite Hid. cbn [fst]. symmetry. apply PriceLevels.side_map_filter_all.
      intros h' k Hh'. apply HQ; [exact (Hres _ _ Hh')|]. intros He. discriminate (Hids h' (Hres _ _ Hh') He). }
  pose proof Hid as [Hhr Ho]%(inv_ids _ _ _ Hi).
  destruct (cancelOrder_shape b F id h Hi Hid) as (q & pos & Hfd & Hpos & ->). cbn [fst].
  set (o := MemoryPool.read (pool_ b) h) in *. set (s := Order.side o) in *.
  assert (Hother : forall h' k, h' ∈ resting b -> h' <> h -> Q (f (pool_ b) h' k)).
  { intros h' k Hh' Hne. apply HQ; [done|]. intros He. apply Hne. by injection (Hids h' Hh' He). }
  assert (Hhs : h ∈ PriceLevels.handles (side_levels b s))
    by (eapply PriceLevels.find_handles; [exact Hfd|by eapply list_elem_of_lookup_2]).
  assert (Hnd : NoDup (PriceLevels.handles (side_levels b s) ++ PriceLevels.handles (side_levels b (opposite s)))).
  { rewrite <- (resting_sides b s). exact (NoDup_app_r _ _ (inv_NoDup _ _ _ Hi)). }
  set (p' := MemoryPool.deallocate (pool_ b) (Some h)).
  assert (Hfr : forall m, h ∉ PriceLevels.handles m ->
                 PriceLevels.side_map (f p') m = PriceLevels.side_map (f (pool_ b)) m).
  { intros m Hm. apply PriceLevels.side_map_ext. intros x k Hx. apply Hf, MemoryPool.deallocate_read_ne. by intros ->. }
  rewrite (proj1 (set_side_fields _ _ _)). cbn [pool_]. fold p'.
  destruct (decide (s' = s)) as [->|Hs'].
  2:{ assert (s' = opposite s) as -> by (destruct s, s'; done).
      pose proof (NoDup_app_disjoint _ _ h Hnd Hhs) as Hh'.
      rewrite side_levels_set_opp, Hfr, PriceLevels.side_map_filter_all; [done| |done].
      intros h' k Hh''. apply Hother; [exact (Hres _ _ Hh'')|]. by intros ->. }
  rewrite side_levels_set_eq.
  destruct (PriceLevels.find_split _ _ _ _ Hfd) as (m1 & k' & m2 & Hm & Hset & Her).
  assert (Hq : q ≡ₚ h :: delete pos q) by (by apply delete_Permutation).
  apply NoDup_app in Hnd as (Hnd & _ & _).
  assert (Hs1 : forall h', h' ∈ PriceLevels.handles m1 ++ q ++ PriceLevels.handles m2 -> h' ∈ resting b).
  { intros h' Hh'. apply (Hres s). by rewrite Hm, PriceLevels.handles_app, PriceLevels.handles_cons. }
  rewrite Hm, PriceLevels.handles_app, PriceLevels.handles_cons in Hnd.
  assert (Hnq : NoDup q).
  { apply NoDup_app in Hnd as (_ & _ & Hn2). by apply NoDup_app in Hn2 as (? & _). }
  rewrite Hq, <- app_comm_cons, <- Permutation_middle in Hnd. apply NoDup_cons in Hnd as [Hh1 _].
  assert (Hnew : PriceLevels.side_map (f p') (match delete pos q with
                   | [] => PriceLevels.erase (side_cmp s) (side_levels b s) (Order.price o)
                   | _ => PriceLevels.set_level (side_cmp s) (side_levels b s) (Order.price o) (delete pos q)
                   end)
                 = PriceLevels.side_map (f (pool_ b)) (m1 ++ (k', delete pos q) :: m2)).
  { rewrite <- Hfr by (rewrite PriceLevels.handles_app, PriceLevels.handles_cons; done).
    destruct (delete pos q) eqn:Ed; [|by rewrite Hset].
    by rewrite Her, !PriceLevels.side_map_app, PriceLevels.side_map_cons. }
  assert (HQ1 : forall h' k, h' ∈ PriceLevels.handles m1 -> Q (f (pool_ b) h' k))
    by (intros h' k Hh'; apply Hother; [apply Hs1; set_solver|]; intros ->; set_solver).
  assert (HQ2 : forall h' k, h' ∈ PriceLevels.handles m2 -> Q (f (pool_ b) h' k))
    by (intros h' k Hh'; apply Hother; [apply Hs1; set_solver|]; intros ->; set_solver).
  assert (Hdq : filter Q ((fun h' => f (pool_ b) h' k') <$> q) = (fun h' => f (pool_ b) h' k') <$> delete pos q).
  { apply (PriceLevels.deque_filter_delete _ _ _ _ h Hpos).
    - intros HQh. apply HQ in HQh; [by apply HQh|done].
    - intros j h' Hj Hne. apply Hother.
      + apply Hs1. apply elem_of_app. right. apply elem_of_app. left. by eapply list_elem_of_lookup_2.
      + intros ->. by apply Hne, (NoDup_lookup q j pos h). }
  rewrite Hnew, Hm, !PriceLevels.side_map_app, !PriceLevels.side_map_cons, !filter_app,
    (PriceLevels.side_map_filter_all Q (f (pool_ b)) m1 HQ1),
    (PriceLevels.side_map_filter_all Q (f (pool_ b)) m2 HQ2), Hdq.
  done.
Qed.

(** C10: [cancelOrder] removes exactly the cancelled record from the
    book and keeps every other record of both sides, in its priority
    order: the queue of each side afterwards is its queue before with
    the entries of the id filtered out (there is at most one). *)
Theorem cancelOrder_queues (b : book) id s' :
  wf b ->
  queue_order (pool_ (cancelOrder b id).1) (side_levels (cancelOrder b id).1 s')
    = filter (fun e => e.1 <> id) (queue_order (pool_ b) (side_levels b s')).
Proof.
  intros [F Hi]. apply (cancelOrder_side_map (fun p h k => (order_id p h, k)) _ b F id s' Hi).
  - intros p p' h k Hr. unfold order_id. by rewrite Hr.
  - done.
Qed.

(** C8: [cancelOrder] keeps a book well formed, whatever the id. *)
Theorem cancelOrder_wf (b : book) id : wf b -> wf (cancelOrder b id).1.
Proof.
  intros [F Hi]. destruct (cancelOrder_cases b F id Hi) as [[_ ->]|(h & b' & _ & -> & Hi' & _)].
  - by exists F.
  - by exists (h :: F).
Qed.

(** C9: on a well-formed book, [cancelOrder] returns [true] exactly
    when the id is indexed; the id then leaves the index (every other
    id keeps its slot) and [totalActiveOrders] drops by one; otherwise
    nothing changes. *)
Theorem cancelOrder_result (b : book) id :
  wf b ->
  (cancelOrder b id).2 = bool_decide (is_Some (id_map_ b !! id)) /\
  id_map_ (cancelOrder b id).1 = delete id (id_map_ b) /\
  totalActiveOrders (cancelOrder b id).1 =
    totalActiveOrders b - (if (cancelOrder b id).2 then 1 else 0).
Proof.
  intros [F Hi]. unfold totalActiveOrders.
  destruct (cancelOrder_cases b F id Hi) as [[Hn ->]|(h & b' & Hs & -> & _ & Hm & Ha)]; simpl.
  - rewrite Hn, delete_id by done. split_and!; [|done|lia].
    symmetry. apply bool_decide_eq_false_2. by intros [? ?].
  - rewrite Hs. split_and!; [|done|done]. symmetry. apply bool_decide_eq_true_2. by eexists.
Qed.

(** Cancelling the same id twice fails the second time. *)
Theorem cancelOrder_twice (b : book) id :
  wf b -> (cancelOrder (cancelOrder b id).1 id).2 = false.
Proof.
  intros [F Hi]. destruct (cancelOrder_cases b F id Hi) as [[Hn ->]|(h & b' & _ & -> & Hi' & Hm & _)].
  - simpl. unfold cancelOrder. by rewrite Hn.
  - simpl. unfold cancelOrder. by rewrite Hm, lookup_delete_eq.
Qed.

End Cancel.
End Cancel.
