(* ===== verification/Refinement.v ===== *)
(** * The abstract order book and the refinement of the code by it

    The specification's view of the book (sections 3 and 4 of the
    specification): each side is the list of its resting orders, as
    (id, price, remaining quantity) entries, in priority order: best
    price first, then arrival.  On that view:
    - [amatch] matches an incoming order against the opposite side: it
      trades the front entry for the smaller quantity while the
      incoming order has quantity left and the front price is
      acceptable, removing exhausted entries;
    - [ainsert] rests a remainder behind every entry at a price at least
      as good;
    - [asubmit] and [acancel] are [submit] and [cancel].
    [abstr] maps a concrete book to that view, and the refinement
    theorems show that [processOrder] and [cancelOrder] of the code
    compute exactly [asubmit] and [acancel] on it, and [exec_refines]
    extends this to a session of calls ([exec] against [aexec]): a
    simulation of the abstract book by the concrete one.  The theorems on
    [processOrder] and sessions assume, as the section hypothesis
    [price_total], that price equivalence is equality (true of integer
    prices, not of [double], whose two zeros are equivalent); [std::map]
    otherwise merges equivalent prices into one level, and the fills
    then carry the level's price.  [session_quantities] does without
    it: a session whose ids are never reused ([session_ok]) runs to the
    end with positive [uint32_t] quantities in the book. *)

From Stdlib Require Import Sorted.
From S2P Require Import Prelude Order MemoryPool PriceLevels OrderBook BookInvariant Matching ProcessOrder Cancel.
Local Open Scope Z_scope.

Module Refinement.
Import OrderBook BookInvariant Matching ProcessOrder Cancel.
Section Abstract.
Context {P : Type} `{Inhabited P} `{PriceLt P} `{!StrictWeakOrder (price_lt (P:=P))}.

Abbreviation book := (@OrderBook.t P).
Abbreviation pool := (@MemoryPool.t P).
Abbreviation fill := (Fill.t P).
#[local] Existing Instance side_cmp_order.

(** ** The abstract book *)

Record entry := mk_entry { e_id : Z; e_price : P; e_qty : Z }.

Record abook := mk_abook { a_bids : list entry; a_asks : list entry }.

Definition a_side (a : abook) (s : Side) : list entry :=
  match s with BUY => a_bids a | SELL => a_asks a end.

Definition a_set_side (a : abook) (s : Side) (l : list entry) : abook :=
  match s with BUY => mk_abook l (a_asks a) | SELL => mk_abook (a_bids a) l end.

(** Matching the incoming order [inc] with quantity [q] against the
    side [l]: the fills, the side left and the quantity left. *)
Fixpoint amatch (accept : P -> bool) (inc q : Z) (l : list entry) : list fill * list entry * Z :=
  match l with
  | [] => ([], [], q)
  | e :: l' =>
      if (q <=? 0) || negb (accept (e_price e)) then ([], l, q)
      else if q <? e_qty e then
        ([Fill.mk P (e_id e) inc q (e_price e)], mk_entry (e_id e) (e_price e) (e_qty e - q) :: l', 0)
      else
        let '(fs, l'', r) := amatch accept inc (q - e_qty e) l' in
        (Fill.mk P (e_id e) inc (e_qty e) (e_price e) :: fs, l'', r)
  end.

(** Resting [e] on a side ordered by [better]: behind every entry whose
    price [e]'s does not beat. *)
Fixpoint ainsert (better : P -> P -> bool) (e : entry) (l : list entry) : list entry :=
  match l with
  | [] => [e]
  | x :: l' => if better (e_price e) (e_price x) then e :: l else x :: ainsert better e l'
  end.

(** Submitting an order: nothing happens when the book is full;
    otherwise it matches against the opposite side within its price
    gate, and a LIMIT remainder rests on its own side. *)
Definition asubmit (a : abook) (room : bool) (id : Z) (price : P) (qty : Z) (s : Side) (ty : OType)
  : abook * list fill :=
  if room then
    let '(fs, opp, r) := amatch (tradable (gated ty) s price) id qty (a_side a (opposite s)) in
    let a1 := a_set_side a (opposite s) opp in
    if bool_decide (ty = LIMIT) && (0 <? r)
    then (a_set_side a1 s (ainsert (side_cmp s) (mk_entry id price r) (a_side a1 s)), fs)
    else (a1, fs)
  else (a, []).

(** Cancelling an id: its entries leave both sides, if it has any. *)
Definition acancel (a : abook) (id : Z) : abook * bool :=
  if bool_decide (id ∈ e_id <$> a_bids a ++ a_asks a)
  then (mk_abook (filter (fun e => e_id e <> id) (a_bids a)) (filter (fun e => e_id e <> id) (a_asks a)), true)
  else (a, false).

(** ** The abstraction of a concrete book *)

Definition entry_of (p : pool) (h : nat) (k : P) : entry :=
  let o := MemoryPool.read p h in mk_entry (Order.id o) (Order.price o) (Order.quantity o).

Definition view (p : pool) (m : list (P * list nat)) : list entry := PriceLevels.side_map (entry_of p) m.

Definition abstr (b : book) : abook := mk_abook (view (pool_ b) (bids_ b)) (view (pool_ b) (asks_ b)).

(** Whether the pool has a free slot for the next order. *)
Definition has_room (b : book) : bool :=
  bool_decide (totalActiveOrders b < Z.of_nat (MemoryPool.capacity (pool_ b))).

(** ** Client sessions *)

(** A call a client makes on the book. *)
Inductive op :=
| SubmitOp (id ts : Z) (price : P) (qty : Z) (s : Side) (ty : OType)
| CancelOp (id : Z).

(** What the call returns: the fills, or whether the cancel succeeded. *)
Inductive reply := Fills (fs : list fill) | Cancelled (ok : bool).

(** One call on the concrete book: [processOrder] or [cancelOrder]. *)
Definition exec_op (b : book) (o : op) : option (book * reply) :=
  match o with
  | SubmitOp id ts price qty s ty =>
      (fun r : book * list fill => (r.1, Fills r.2)) <$> processOrder b id ts price qty s ty
  | CancelOp id => Some ((cancelOrder b id).1, Cancelled (cancelOrder b id).2)
  end.

(** The calls in order, each on the book the previous one left. *)
Fixpoint exec (b : book) (ops : list op) : option (book * list reply) :=
  match ops with
  | [] => Some (b, [])
  | o :: ops' =>
      r ← exec_op b o;
      r' ← exec r.1 ops';
      Some (r'.1, r.2 :: r'.2)
  end.

(** The number of resting entries of an abstract book. *)
Definition a_size (a : abook) : nat := length (a_bids a ++ a_asks a).

(** The same calls on an abstract book with room for [cap] entries. *)
Definition astep (cap : nat) (a : abook) (o : op) : abook * reply :=
  match o with
  | SubmitOp id _ price qty s ty =>
      let r := asubmit a (bool_decide (a_size a < cap)%nat) id price qty s ty in (r.1, Fills r.2)
  | CancelOp id => let r := acancel a id in (r.1, Cancelled r.2)
  end.

Fixpoint aexec (cap : nat) (a : abook) (ops : list op) : abook * list reply :=
  match ops with
  | [] => (a, [])
  | o :: ops' => let r := astep cap a o in let r' := aexec cap r.1 ops' in (r'.1, r.2 :: r'.2)
  end.

(** The calls the refinement covers: each submission has a [uint32_t]
    quantity and an id no resting entry carries. *)
Definition op_ok (a : abook) (o : op) : bool :=
  match o with
  | SubmitOp id _ _ qty _ _ =>
      bool_decide (0 <= qty < 2 ^ 32) && bool_decide (id ∉ e_id <$> a_bids a ++ a_asks a)
  | CancelOp _ => true
  end.

Fixpoint ops_ok (cap : nat) (a : abook) (ops : list op) : bool :=
  match ops with
  | [] => true
  | o :: ops' => op_ok a o && ops_ok cap (astep cap a o).1 ops'
  end.

(** The ids a session submits, in order. *)
Fixpoint submitted (ops : list op) : list Z :=
  match ops with
  | [] => []
  | SubmitOp id _ _ _ _ _ :: ops' => id :: submitted ops'
  | CancelOp _ :: ops' => submitted ops'
  end.

(** A session whose client never reuses an id: each submission has a
    [uint32_t] quantity and an id of its own, which the book the session
    starts from does not index. *)
Definition session_ok (b : book) (ops : list op) : bool :=
  forallb (fun o => match o with
                    | SubmitOp _ _ _ qty _ _ => bool_decide (0 <= qty < 2 ^ 32)
                    | CancelOp _ => true
                    end) ops &&
  bool_decide (NoDup (submitted ops)) &&
  forallb (fun id => bool_decide (id_map_ b !! id = None)) (submitted ops).

(** ** The abstract sides *)

Lemma a_side_set_eq a s l : a_side (a_set_side a s l) s = l.
Proof. by destruct s. Qed.

Lemma a_side_set_opp a s l : a_side (a_set_side a s l) (opposite s) = a_side a (opposite s).
Proof. by destruct s. Qed.

Lemma a_side_set_other a s l : a_side (a_set_side a (opposite s) l) s = a_side a s.
Proof. by destruct s. Qed.

Lemma a_side_abstr (b : book) s : a_side (abstr b) s = view (pool_ b) (side_levels b s).
Proof. by destruct s. Qed.

(** The abstraction of a book is determined by the views of its sides. *)
Lemma abstr_sides (b : book) a s :
  view (pool_ b) (side_levels b s) = a_side a s ->
  view (pool_ b) (side_levels b (opposite s)) = a_side a (opposite s) -> abstr b = a.
Proof. destruct a, s; unfold abstr; cbn [side_levels a_side opposite]; intros -> ->; done. Qed.

(** Under the invariant, the book has room exactly when the free list
    is not empty. *)
Lemma has_room_free (b : book) F : inv b F [] -> has_room b = bool_decide (F <> []).
Proof.
  intros Hi. unfold has_room, totalActiveOrders. rewrite (inv_active _ _ _ Hi).
  pose proof (Permutation_length (inv_slots _ _ _ Hi)) as Hl.
  rewrite !length_app, length_seq in Hl. cbn [length] in Hl.
  apply bool_decide_ext. destruct F; cbn [length] in Hl; split; intros; try done; lia.
Qed.

(** ** Cancel *)

(** The ids of the view of a side are those of its resting records. *)
Lemma elem_of_view_id (b : book) F live id :
  inv b F live ->
  id ∈ e_id <$> view (pool_ b) (bids_ b) ++ view (pool_ b) (asks_ b) <->
  exists h, h ∈ resting b /\ order_id (pool_ b) h = id.
Proof.
  intros Hi. rewrite fmap_app, elem_of_app, !list_elem_of_fmap. unfold resting. split.
  - intros [(e & -> & (h & k & Hh & ->)%PriceLevels.elem_of_side_map)|
            (e & -> & (h & k & Hh & ->)%PriceLevels.elem_of_side_map)];
      exists h; (split; [set_solver|done]).
  - intros (h & [Hh|Hh]%elem_of_app & <-); apply PriceLevels.elem_of_handles in Hh as (k & q & Hk & Hq);
      [left|right]; exists (entry_of (pool_ b) h k); split; try done;
      apply list_elem_of_In, in_concat; exists ((fun h' => entry_of (pool_ b) h' k) <$> q);
      (split; [apply list_elem_of_In, list_elem_of_fmap; by exists (k, q)|
               apply list_elem_of_In, list_elem_of_fmap; by exists h]).
Qed.

(** [cancelOrder] computes [acancel] on the abstract book. *)
Lemma cancelOrder_acancel (b : book) id :
  wf b -> (abstr (cancelOrder b id).1, (cancelOrder b id).2) = acancel (abstr b) id.
Proof.
  intros [F Hi]. unfold acancel. cbn [a_bids a_asks abstr].
  pose proof (elem_of_view_id b F [] id Hi) as Hv.
  assert (Hf : forall s', view (pool_ (cancelOrder b id).1) (side_levels (cancelOrder b id).1 s')
                          = filter (fun e => e_id e <> id) (view (pool_ b) (side_levels b s'))).
  { intros s'. apply (cancelOrder_side_map entry_of _ b F id s' Hi).
    - intros p p' h k Hr. unfold entry_of. by rewrite Hr.
    - done. }
  destruct (cancelOrder_cases b F id Hi) as [[Hn Hc]|(h & b' & Hs & Hc & _)]; rewrite Hc in Hf |- *; cbn [fst snd] in Hf |- *.
  - rewrite bool_decide_eq_false_2; [done|]. rewrite Hv. intros (h & Hh & He).
    assert (Hl : id_map_ b !! id = Some h) by (by apply (inv_ids _ _ _ Hi)). by rewrite Hn in Hl.
  - rewrite bool_decide_eq_true_2; [|apply Hv; exists h; by apply (inv_ids _ _ _ Hi)].
    pose proof (Hf BUY) as HB. pose proof (Hf SELL) as HS.
    unfold abstr. cbn [side_levels] in HB, HS. by rewrite HB, HS.
Qed.

(** ** Views *)

Lemma view_frame (p p' : pool) m :
  (forall h, h ∈ PriceLevels.handles m -> MemoryPool.read p h = MemoryPool.read p' h) ->
  view p m = view p' m.
Proof. intros Hr. apply PriceLevels.side_map_ext. intros h k Hh. unfold entry_of. by rewrite Hr. Qed.

Lemma view_head (p : pool) best r q rest :
  view p ((best, r :: q) :: rest) = entry_of p r best :: view p ((best, q) :: rest).
Proof. done. Qed.

Lemma amatch_nonpos accept inc q l : q <= 0 -> amatch accept inc q l = ([], l, q).
Proof. intros Hq. destruct l as [|e l]; simpl; [done|]. by rewrite (proj2 (Z.leb_le q 0) Hq). Qed.

(** An iteration of the loop on the views: the incoming order's side is
    untouched; on the side it trades against, the front entry either
    leaves (the resting order is exhausted) or keeps the rest of its
    quantity (the incoming order is). *)
Lemma match_front_view (b : book) F inc so best r q rest fills :
  inv b F [inc] -> side_levels b so = (best, r :: q) :: rest ->
  0 < Order.quantity (MemoryPool.read (pool_ b) inc) < 2 ^ 32 ->
  let io := MemoryPool.read (pool_ b) inc in
  let ro := MemoryPool.read (pool_ b) r in
  let b1 := (match_front b so inc best (r :: q) rest fills).1 in
  view (pool_ b1) (side_levels b1 (opposite so)) = view (pool_ b) (side_levels b (opposite so)) /\
  ((Order.quantity ro <= Order.quantity io /\
    view (pool_ b1) (side_levels b1 so) = view (pool_ b) ((best, q) :: rest)) \/
   (Order.quantity io < Order.quantity ro /\
    view (pool_ b1) (side_levels b1 so) =
      mk_entry (Order.id ro) (Order.price ro) (Order.quantity ro - Order.quantity io)
        :: view (pool_ b) ((best, q) :: rest))).
Proof.
  intros Hi Hb Hqi io ro b1.
  destruct (match_front_cases b F inc so best r q rest fills Hi Hb Hqi) as (Hne & Hqr & Hc).
  fold io ro in Hc. set (traded := Z.min (Order.quantity io) (Order.quantity ro)) in Hc.
  set (p2 := MemoryPool.write (MemoryPool.write (pool_ b) inc (Order.set_quantity io (Order.quantity io - traded)))
               r (Order.set_quantity ro (Order.quantity ro - traded))) in Hc.
  pose proof (fun h => match_front_frame b F inc so best r q rest
                 (Order.set_quantity io (Order.quantity io - traded))
                 (Order.set_quantity ro (Order.quantity ro - traded)) h Hi Hb) as Hfr.
  cbv zeta in Hfr. fold p2 in Hfr.
  assert (Hr : r ∈ PriceLevels.handles (side_levels b so)) by (rewrite Hb; simpl; set_solver).
  assert (Hopp : forall h, h ∈ PriceLevels.handles (side_levels b (opposite so)) ->
            MemoryPool.read p2 h = MemoryPool.read (pool_ b) h /\
            MemoryPool.read (MemoryPool.deallocate p2 (Some r)) h = MemoryPool.read (pool_ b) h).
  { intros h Hh.
    assert (Hnd : NoDup (PriceLevels.handles (side_levels b so) ++ PriceLevels.handles (side_levels b (opposite so))))
      by (rewrite <- (resting_sides b so); exact (NoDup_app_r _ _ (NoDup_app_r _ _ (inv_NoDup _ _ _ Hi)))).
    assert (r <> h) by (intros ->; exact (NoDup_app_disjoint _ _ h Hnd Hr Hh)).
    assert (inc <> h).
    { intros ->. apply (inv_live_not_resting _ _ _ h Hi (list_elem_of_here _ _)).
      rewrite (resting_sides b so). set_solver. }
    unfold p2. rewrite MemoryPool.deallocate_read_ne, !MemoryPool.read_write_ne by done. done. }
  unfold b1. destruct Hc as [(Hle & ->)|(Hlt & ->)]; cbn [fst].
  - rewrite side_levels_set_opp, side_levels_mk, side_levels_set_eq, (proj1 (set_side_fields _ _ _)).
    cbn [pool_]. split; [apply view_frame; intros h Hh; by apply Hopp|left; split; [done|]].
    destruct q as [|r' q]; [transitivity (view (pool_ b) rest); [|done]|];
      apply view_frame; intros h Hh; apply Hfr; simpl in Hh; set_solver.
  - unfold set_pool. rewrite !side_levels_mk. cbn [pool_].
    split; [apply view_frame; intros h Hh; by apply Hopp|right; split; [done|]].
    rewrite Hb, view_head, (view_frame p2 (pool_ b) ((best, q) :: rest))
      by (intros h Hh; apply Hfr; simpl in Hh; set_solver).
    f_equal. unfold entry_of, p2. rewrite MemoryPool.read_write_eq.
    + simpl. unfold traded. f_equal. lia.
    + rewrite MemoryPool.length_write. eapply inv_lt; [exact Hi|].
      rewrite (resting_sides b so). set_solver.
Qed.

(** [ainsert] passes the entries whose price the new one does not beat. *)
Lemma ainsert_skip better e l1 l2 :
  Forall (fun x => better (e_price e) (e_price x) = false) l1 ->
  ainsert better e (l1 ++ l2) = l1 ++ ainsert better e l2.
Proof. induction 1 as [|x l1 Hx _ IH]; [done|]. cbn. by rewrite Hx, IH. Qed.

(** ** Matching, under total prices *)

Section Total.
(** Two prices neither of which is less than the other are equal, as
    for integer prices. *)
Hypothesis price_total : forall a b : P, price_lt a b = false -> price_lt b a = false -> a = b.

Lemma key_eq s a b : PriceLevels.key_eqb (side_cmp s) a b = true -> a = b.
Proof.
  unfold PriceLevels.key_eqb. intros [H1 H2]%andb_prop. apply negb_true_iff in H1, H2.
  destruct s; cbn [side_cmp] in *; [unfold greater in *|]; by apply price_total.
Qed.

(** The front record of a side rests at the price of its level. *)
Lemma front_price (b : book) F live s best r q rest :
  inv b F live -> side_levels b s = (best, r :: q) :: rest -> Order.price (MemoryPool.read (pool_ b) r) = best.
Proof.
  intros Hi Hb. destruct (inv_sides _ _ _ Hi s) as (_ & _ & Hl). rewrite Hb in Hl.
  inversion Hl as [|? ? Hl1 _]; subst. inversion Hl1 as [|? ? (_ & _ & Hk & _) _]; subst.
  symmetry. exact (key_eq s _ _ Hk).
Qed.

(** The loop computes [amatch] on the views: its fills, the opposite
    side it leaves and the incoming quantity left are those of
    [amatch]; the incoming order's side is untouched. *)
Lemma match_loop_view fuel gated s (b b' : book) F inc fills fills' :
  inv b F [inc] -> 0 <= Order.quantity (MemoryPool.read (pool_ b) inc) < 2 ^ 32 ->
  match_loop fuel gated s b inc fills = Some (b', fills') ->
  exists new, fills' = fills ++ new /\
    amatch (tradable gated s (Order.price (MemoryPool.read (pool_ b) inc)))
           (Order.id (MemoryPool.read (pool_ b) inc)) (Order.quantity (MemoryPool.read (pool_ b) inc))
           (view (pool_ b) (side_levels b (opposite s)))
      = (new, view (pool_ b') (side_levels b' (opposite s)), Order.quantity (MemoryPool.read (pool_ b') inc)) /\
    view (pool_ b') (side_levels b' s) = view (pool_ b) (side_levels b s).
Proof.
  revert b F fills. induction fuel as [|fuel IH]; intros b F fills Hi Hq; cbn [match_loop]; [done|].
  set (io := MemoryPool.read (pool_ b) inc) in *.
  set (A := tradable gated s (Order.price io)).
  assert (Hstop : amatch A (Order.id io) (Order.quantity io) (view (pool_ b) (side_levels b (opposite s)))
                    = ([], view (pool_ b) (side_levels b (opposite s)), Order.quantity io) ->
                  Some (b, fills) = Some (b', fills') -> exists new, fills' = fills ++ new /\
                    amatch A (Order.id io) (Order.quantity io) (view (pool_ b) (side_levels b (opposite s)))
                    = (new, view (pool_ b') (side_levels b' (opposite s)), Order.quantity (MemoryPool.read (pool_ b') inc)) /\
                    view (pool_ b') (side_levels b' s) = view (pool_ b) (side_levels b s)).
  { intros Ha [= <- <-]. exists []. by rewrite app_nil_r. }
  destruct (Z.ltb_spec 0 (Order.quantity io)) as [Hpos|Hz]; [|apply Hstop, amatch_nonpos; lia].
  destruct (side_levels b (opposite s)) as [|[best q] rest] eqn:Hlv; [by apply Hstop|].
  destruct q as [|r q].
  { destruct (inv_sides _ _ _ Hi (opposite s)) as (_ & Hn & _). rewrite Hlv in Hn. by inversion Hn. }
  pose proof (front_price b F [inc] (opposite s) best r q rest Hi Hlv) as Hpr.
  rewrite view_head in Hstop |- *. set (ro := MemoryPool.read (pool_ b) r) in *.
  assert (Hcons : forall x y : list fill * list entry * Z, (if (Order.quantity io <=? 0) || negb (A best) then x else y) =
                              if A best then y else x).
  { intros x y. rewrite (proj2 (Z.leb_gt _ _) Hpos). by destruct (A best). }
  destruct (gated && gate_blocks s (Order.price io) best) eqn:Hg.
  { apply Hstop. cbn [amatch]. unfold entry_of. fold ro. cbn [e_price e_qty e_id].
    rewrite Hpr, Hcons. unfold A, tradable. by rewrite Hg. }
  assert (HA : A best = true) by (unfold A, tradable; by rewrite Hg).
  destruct (match_front_spec b F inc (opposite s) best r q rest fills Hi Hlv)
    as ([F1 Hi1] & Hfills & Hread & _); [fold io; lia|].
  destruct (match_front_view b F inc (opposite s) best r q rest fills Hi Hlv) as (Hown & Hc); [fold io; lia|].
  destruct (match_front_cases b F inc (opposite s) best r q rest fills Hi Hlv) as (_ & Hqr & _); [fold io; lia|].
  rewrite opposite_involutive in Hown.
  destruct (match_front b (opposite s) inc best (r :: q) rest fills) as [b1 fills1].
  cbn [fst snd] in Hi1, Hfills, Hread, Hown, Hc. fold io ro in Hfills, Hread, Hc, Hqr. subst fills1. intros Hloop.
  cbn [amatch]. unfold entry_of. fold ro. cbn [e_price e_qty e_id]. rewrite Hpr, Hcons, HA.
  destruct Hc as [(Hle & Hv)|(Hlt & Hv)].
  - rewrite (proj2 (Z.ltb_ge _ _) Hle).
    destruct (IH b1 F1 _ Hi1 ltac:(rewrite Hread; cbn [Order.quantity Order.set_quantity]; lia) Hloop)
      as (new & -> & Ham & Hown').
    rewrite Hread in Ham. cbn [Order.price Order.id Order.quantity Order.set_quantity] in Ham. fold A in Ham.
    rewrite Hv, Z.min_r in Ham by lia. rewrite Ham.
    exists (Fill.mk P (Order.id ro) (Order.id io) (Order.quantity ro) best :: new).
    rewrite Z.min_r by lia. rewrite <- (assoc_L (++)). split_and!; [done|done|by rewrite Hown', Hown].
  - rewrite (proj2 (Z.ltb_lt _ _) Hlt).
    destruct (match_loop_filled _ _ _ _ _ _ _ _ ltac:(rewrite Hread; cbn [Order.quantity Order.set_quantity]; lia) Hloop)
      as [-> ->].
    exists [Fill.mk P (Order.id ro) (Order.id io) (Order.quantity io) best].
    rewrite Z.min_l by lia. split_and!; [done| |done].
    rewrite Hv, Hread. cbn [Order.quantity Order.set_quantity]. rewrite Z.min_l by lia.
    rewrite Hpr. f_equal. lia.
Qed.

(** The entries of a level carry its price. *)
Lemma level_prices (p : pool) s k q :
  Forall (slot_ok p s k) q -> Forall (fun x => e_price x = k) ((fun h => entry_of p h k) <$> q).
Proof.
  intros Hq. apply Forall_fmap. eapply Forall_impl; [exact Hq|].
  intros h (_ & _ & Hk & _). symmetry. exact (key_eq s _ _ Hk).
Qed.

(** Resting a slot with [push_back] at its own price inserts its entry
    into the view as [ainsert] does: behind every entry at a price at
    least as good, in front of the first worse one. *)
Lemma push_back_view (p : pool) s m k h :
  side_ok p s m -> Order.price (MemoryPool.read p h) = k ->
  view p (PriceLevels.push_back (side_cmp s) m k h) = ainsert (side_cmp s) (entry_of p h k) (view p m).
Proof.
  intros (Hs & Hn & Hl) Hk. unfold PriceLevels.sorted in Hs.
  assert (He : e_price (entry_of p h k) = k) by exact Hk.
  induction m as [|[k' q'] m IH]; [done|].
  apply StronglySorted_inv in Hs as [Hs Hf]. apply Forall_cons in Hn as [Hq' Hn'].
  apply Forall_cons in Hl as [Hlq Hl']. cbn [fst snd] in Hq', Hlq, Hf.
  pose proof (level_prices p s k' q' Hlq) as Hpr.
  cbn [PriceLevels.push_back]. unfold view. rewrite !PriceLevels.side_map_cons.
  destruct (side_cmp s k' k) eqn:E1; [|destruct (side_cmp s k k') eqn:E2].
  - rewrite PriceLevels.side_map_cons. fold (view p m) (view p (PriceLevels.push_back (side_cmp s) m k h)).
    rewrite (IH Hs Hn' Hl'), ainsert_skip; [done|].
    eapply Forall_impl; [exact Hpr|]. intros x ->. rewrite He. by apply (swo_asym (side_cmp s)).
  - destruct q' as [|r q']; [done|]. cbn [fmap list_fmap app ainsert]. rewrite He.
    apply Forall_cons in Hpr as [Hr _]. rewrite Hr, E2. done.
  - assert (k' = k) as ->.
    { apply (key_eq s). unfold PriceLevels.key_eqb. by rewrite E1, E2. }
    rewrite PriceLevels.side_map_cons, fmap_app, <- (assoc_L (++)).
    fold (view p m). rewrite ainsert_skip.
    + f_equal. destruct m as [|[k'' q''] m'']; [done|].
      apply Forall_cons in Hn' as [Hq'' _]. apply Forall_cons in Hl' as [Hlq'' _].
      cbn [fst snd] in Hq'', Hlq''. pose proof (level_prices p s k'' q'' Hlq'') as Hpr''.
      apply Forall_cons in Hf as [Hk'' _]. cbn [fst] in Hk''.
      destruct q'' as [|r q'']; [done|]. apply Forall_cons in Hpr'' as [Hr _].
      unfold view. rewrite PriceLevels.side_map_cons. cbn [fmap list_fmap app ainsert].
      by rewrite He, Hr, Hk''.
    + eapply Forall_impl; [exact Hpr|]. intros x ->. by rewrite He, swo_irrefl.
Qed.

(** [processOrder] computes [asubmit] on the abstract book. *)
Lemma processOrder_asubmit (b : book) id ts price qty s ty b' fills :
  wf b -> 0 <= qty < 2 ^ 32 -> processOrder b id ts price qty s ty = Some (b', fills) ->
  (abstr b', fills) = asubmit (abstr b) (has_room b) id price qty s ty.
Proof.
  intros [F Hi] Hq Hp. rewrite (has_room_free b F Hi). unfold asubmit.
  destruct (processOrder_exec b F id ts price qty s ty _ _ Hi Hp)
    as [(-> & -> & ->)|(inc & F' & b1 & b2 & -> & Hi1 & Hr1 & Hsd & Hrd & El & Hb')];
    [by rewrite bool_decide_eq_false_2 by (intros Hn; by apply Hn)|].
  rewrite bool_decide_eq_true_2 by done.
  destruct (match_loop_spec (match_fuel b1 s) (gated ty) s b1 F' inc [] Hi1)
    as (b2' & fills2 & F2 & El' & Hi3 & Hr & _); [rewrite Hr1; simpl; lia|left; unfold match_fuel; lia|].
  rewrite El in El'. injection El' as <- <-. rewrite Hr1 in Hr.
  assert (Hq1 : 0 <= Order.quantity (MemoryPool.read (pool_ b1) inc) < 2 ^ 32) by (rewrite Hr1; simpl; lia).
  destruct (match_loop_view _ _ _ _ _ _ _ _ _ Hi1 Hq1 El) as (new & Hnew & Ham & Hown).
  cbn [app] in Hnew. subst new.
  rewrite Hr1 in Ham. cbn [Order.price Order.id Order.quantity Order.make] in Ham.
  assert (Hv1 : forall s', view (pool_ b1) (side_levels b1 s') = view (pool_ b) (side_levels b s')).
  { intros s'. rewrite Hsd. apply view_frame. intros h Hh. apply Hrd.
    rewrite (resting_sides b s'). set_solver. }
  rewrite Hv1 in Ham, Hown. rewrite a_side_abstr, Ham.
  set (rem := Order.quantity (MemoryPool.read (pool_ b2) inc)) in *.
  rewrite Hr in Hb'. cbn [Order.type Order.quantity Order.set_quantity Order.make] in Hb'.
  destruct (finish_opposite b2 F2 inc s b' Hi3 ltac:(by rewrite Hr)
              ltac:(rewrite Hb'; destruct (_ && _); [left|right]; done)) as [Ho Hrd2].
  assert (Hopp : view (pool_ b') (side_levels b' (opposite s)) = view (pool_ b2) (side_levels b2 (opposite s)))
    by (rewrite Ho; apply view_frame; intros h Hh; by apply Hrd2).
  destruct (bool_decide (ty = LIMIT) && (0 <? rem)); f_equal; subst b'.
  - apply abstr_sides with s.
    + rewrite a_side_set_eq.
      destruct (restOrder_fields b2 inc) as (-> & _ & Hs). cbv zeta in Hs. rewrite Hr in Hs. cbn in Hs.
      rewrite Hs, a_side_set_other, a_side_abstr, <- Hown, push_back_view.
      * do 2 f_equal. unfold entry_of. by rewrite Hr.
      * apply (inv_sides _ _ _ Hi3).
      * by rewrite Hr.
    + rewrite a_side_set_opp, a_side_set_eq. exact Hopp.
  - apply abstr_sides with (opposite s).
    + rewrite a_side_set_eq. exact Hopp.
    + rewrite opposite_involutive, a_side_set_other, a_side_abstr, <- Hown.
      unfold set_pool. rewrite side_levels_mk. cbn [pool_].
      apply view_frame. intros h Hh. apply MemoryPool.deallocate_read_ne. intros <-.
      apply (inv_live_not_resting _ _ _ inc Hi3 (list_elem_of_here _ _)).
      rewrite (resting_sides b2 s). set_solver.
Qed.

(** ** Sessions *)

(** Every entry of the abstraction of a well-formed book has a positive
    [uint32_t] quantity. *)
Lemma abstr_qty (b : book) :
  wf b -> Forall (fun e => 0 < e_qty e < 2 ^ 32) (a_bids (abstr b) ++ a_asks (abstr b)).
Proof.
  intros [F Hi]. apply Forall_app. cbn [abstr a_bids a_asks].
  split; apply Forall_forall; intros e (h & k & Hh & ->)%PriceLevels.elem_of_side_map;
    [destruct (inv_sides _ _ _ Hi BUY) as (_ & _ & Hl)|destruct (inv_sides _ _ _ Hi SELL) as (_ & _ & Hl)];
    destruct (PriceLevels.levels_ok_handles _ _ _ Hl Hh) as (k' & _ & _ & _ & Hq); exact Hq.
Qed.

(** Under the invariant, [has_room] compares the number of abstract
    entries with the capacity. *)
Lemma has_room_size (b : book) F :
  inv b F [] -> has_room b = bool_decide (a_size (abstr b) < MemoryPool.capacity (pool_ b))%nat.
Proof.
  intros Hi. unfold has_room, totalActiveOrders, a_size, abstr. cbn [a_bids a_asks].
  rewrite (inv_active _ _ _ Hi). unfold resting, view. rewrite !length_app, !PriceLevels.length_side_map.
  apply bool_decide_ext. lia.
Qed.

(** An id no abstract entry carries is not indexed. *)
Lemma fresh_abstr (b : book) F id :
  inv b F [] -> id ∉ e_id <$> a_bids (abstr b) ++ a_asks (abstr b) -> id_map_ b !! id = None.
Proof.
  intros Hi Hn. apply eq_None_not_Some. intros [h Hh]. apply Hn.
  apply (elem_of_view_id b F [] id Hi). exists h. by apply (inv_ids _ _ _ Hi).
Qed.

Lemma exec_op_refines (b : book) o :
  wf b -> op_ok (abstr b) o = true ->
  exists b' r, exec_op b o = Some (b', r) /\ wf b' /\
    MemoryPool.capacity (pool_ b') = MemoryPool.capacity (pool_ b) /\
    (abstr b', r) = astep (MemoryPool.capacity (pool_ b)) (abstr b) o.
Proof.
  intros [F Hi]. destruct o as [id ts price qty s ty|id]; cbn [op_ok exec_op astep].
  - rewrite andb_true_iff, !bool_decide_eq_true. intros [Hq Hf].
    destruct (processOrder_step b F id ts price qty s ty Hi Hq (fresh_abstr b F id Hi Hf))
      as (b' & fills & F' & Hp & Hi' & _).
    exists b', (Fills fills). rewrite Hp. split_and!; [done|by exists F'|exact (processOrder_capacity _ _ _ _ _ _ _ _ _ Hp)|].
    rewrite <- (has_room_size b F Hi), <- (processOrder_asubmit b id ts price qty s ty b' fills); [done|by exists F|done|done].
  - intros _. eexists _, _. split_and!; [done| |apply cancelOrder_capacity|].
    + destruct (cancelOrder_cases b F id Hi) as [[_ ->]|(h & b' & _ & -> & Hi' & _)]; [by exists F|by exists (h :: F)].
    + by rewrite <- (cancelOrder_acancel b id) by (by exists F).
Qed.

(** C11: the refinement of [processOrder], for prices whose equivalence
    is equality ([price_total]): on a well-formed book, with a
    quantity that fits in [uint32_t], the book [processOrder] leaves and
    the fills it returns are those [asubmit] computes on the abstract
    book: match the opposite side within the price gate, then rest a
    LIMIT remainder behind every entry at least as good. *)
Theorem processOrder_refines (b : book) id ts price qty s ty b' fills :
  wf b -> 0 <= qty < 2 ^ 32 -> processOrder b id ts price qty s ty = Some (b', fills) ->
  (abstr b', fills) = asubmit (abstr b) (has_room b) id price qty s ty.
Proof. apply processOrder_asubmit. Qed.

(** A session of calls the refinement covers runs to the end and is
    simulated by the abstract book. *)
Lemma exec_simulation (b : book) ops :
  wf b -> ops_ok (MemoryPool.capacity (pool_ b)) (abstr b) ops = true ->
  exists b' rs, exec b ops = Some (b', rs) /\ wf b' /\
    (abstr b', rs) = aexec (MemoryPool.capacity (pool_ b)) (abstr b) ops.
Proof.
  revert b. induction ops as [|o ops IH]; intros b Hw Hok; [by exists b, []|].
  cbn [ops_ok] in Hok. apply andb_true_iff in Hok as [Ho Hok].
  destruct (exec_op_refines b o Hw Ho) as (b1 & r & He & Hw1 & Hc & Ha).
  rewrite <- Ha, <- Hc in Hok. cbn [fst] in Hok.
  destruct (IH b1 Hw1 Hok) as (b' & rs & He' & Hw' & Ha').
  exists b', (r :: rs). cbn [exec aexec]. rewrite He. cbn [mbind option_bind fst snd]. rewrite He'.
  cbn [fst snd]. split_and!; [done|done|]. rewrite <- Ha. cbn [fst snd]. by rewrite <- Hc, <- Ha'.
Qed.

(** C13: the simulation of a client session, for prices whose
    equivalence is equality (the section's hypothesis [price_total],
    true of integer prices such as [Z] ticks and false of [double],
    whose two zeros are equivalent): from a well-formed book,
    any sequence of [processOrder] and [cancelOrder] calls whose
    submissions carry [uint32_t] quantities and fresh ids runs to the
    end, keeps the book well formed, and returns exactly the replies
    the abstract book returns, ending in the abstraction of the final
    book. *)
Theorem exec_refines (b : book) ops :
  wf b -> ops_ok (MemoryPool.capacity (pool_ b)) (abstr b) ops = true ->
  exists b' rs, exec b ops = Some (b', rs) /\ wf b' /\
    (abstr b', rs) = aexec (MemoryPool.capacity (pool_ b)) (abstr b) ops.
Proof. apply exec_simulation. Qed.

End Total.

(** ** Sessions of distinct ids *)

(** [session_ok] looks at the index only through the submitted ids. *)
Lemma session_ok_frame (b b' : book) ops :
  session_ok b ops = true ->
  (forall k, k ∈ submitted ops -> is_Some (id_map_ b' !! k) -> is_Some (id_map_ b !! k)) ->
  session_ok b' ops = true.
Proof.
  unfold session_ok. rewrite !andb_true_iff, !forallb_forall. intros [[Hq Hn] Hf] Hk.
  split_and!; [done|done|]. intros k Hin. specialize (Hf k Hin). rewrite bool_decide_eq_true in *.
  apply eq_None_not_Some. intros Hs. apply list_elem_of_In in Hin.
  destruct (Hk k Hin Hs) as [x Hx]. congruence.
Qed.

(** The first call of a session of distinct ids, and the session left. *)
Lemma session_ok_cons (b : book) o ops :
  session_ok b (o :: ops) = true -> session_ok b ops = true /\
  match o with
  | SubmitOp id _ _ qty _ _ => 0 <= qty < 2 ^ 32 /\ id_map_ b !! id = None /\ id ∉ submitted ops
  | CancelOp _ => True
  end.
Proof.
  unfold session_ok. destruct o as [id ts price qty s ty|id]; cbn [forallb submitted];
    rewrite !andb_true_iff, ?bool_decide_eq_true; [|tauto].
  intros [[[Hq Hqs] Hn] [Hf Hfs]]. inversion Hn as [|? ? Hn1 Hns]; subst.
  split_and!; try done; try lia.
Qed.

(** A session of distinct ids runs to the end and keeps the book well
    formed. *)
Lemma exec_session (b : book) ops :
  wf b -> session_ok b ops = true -> exists b' rs, exec b ops = Some (b', rs) /\ wf b'.
Proof.
  revert b. induction ops as [|o ops IH]; intros b [F Hi] Hok; [by exists b, []; split; [|exists F]|].
  apply session_ok_cons in Hok as [Hok Ho]. destruct o as [id ts price qty s ty|id].
  - destruct Ho as (Hq & Hf & Hnin).
    destruct (processOrder_step b F id ts price qty s ty Hi Hq Hf) as (b1 & fills & F1 & Hp & Hi1 & Hids).
    destruct (IH b1 (ex_intro _ F1 Hi1)) as (b' & rs & He & Hw).
    { apply (session_ok_frame b); [done|]. intros k Hk Hs. by destruct (Hids k Hs) as [? | ->]. }
    exists b', (Fills fills :: rs). cbn [exec exec_op]. rewrite Hp. cbn. by rewrite He.
  - destruct (IH (cancelOrder b id).1) as (b' & rs & He & Hw).
    + destruct (cancelOrder_cases b F id Hi) as [[_ ->]|(h & b1 & _ & -> & Hi1 & _)]; [by exists F|by exists (h :: F)].
    + apply (session_ok_frame b); [done|]. intros k _.
      destruct (cancelOrder_cases b F id Hi) as [[_ ->]|(h & b1 & _ & -> & _ & Hm & _)]; [done|].
      cbn [fst]. rewrite Hm, lookup_delete_is_Some. tauto.
    + exists b', (Cancelled (cancelOrder b id).2 :: rs). cbn [exec exec_op]. cbn. by rewrite He.
Qed.

(** C14: no negative quantity, over any session: from a well-formed
    book, every sequence of [processOrder] and [cancelOrder] calls whose
    submissions carry [uint32_t] quantities and ids never used before
    (distinct, and not indexed at the start) runs to the end, leaves a
    well-formed book, and each order resting in it has a remaining
    quantity that is positive and fits in [uint32_t].  Prices are any
    type with a strict weak order, [double] without NaN included. *)
Theorem session_quantities (b : book) ops :
  wf b -> session_ok b ops = true ->
  exists b' rs, exec b ops = Some (b', rs) /\ wf b' /\
    Forall (fun e => 0 < e_qty e < 2 ^ 32) (a_bids (abstr b') ++ a_asks (abstr b')).
Proof.
  intros Hw Hok. destruct (exec_session b ops Hw Hok) as (b' & rs & He & Hw').
  exists b', rs. split_and!; [done|done|]. by apply abstr_qty.
Qed.

(** C12: the refinement of [cancelOrder]: on a well-formed book, the book
    it leaves and the result it returns are those [acancel] computes on
    the abstract book: the entries of the id leave both sides, and the
    result tells whether there were any. *)
Theorem cancelOrder_refines (b : book) id :
  wf b -> (abstr (cancelOrder b id).1, (cancelOrder b id).2) = acancel (abstr b) id.
Proof. apply cancelOrder_acancel. Qed.

End Abstract.
End Refinement.
