(* ===== verification/Simulator.v ===== *)
(** * The simulator

    [class Simulator] ([src/src/Simulator.h], [Simulator.cpp]).  Here
    the values the generator draws, one [draw] per order, are an input,
    so that the theorems hold for any draws; [Seeded.v] draws them with
    the generator of [Rng.v] and [Distributions.v] and shows its run is
    this one.  [run_timed] is [Simulator::run] whole, with the
    [Benchmark] timer reading the clock (an input) before and after the
    loop, and the report it prints.  The theorems of this file: a
    simulation run never gets stuck (with the ids the simulator hands
    out, every submission returns and the book stays well formed), with
    a slot per order the pool's free list is never empty when an
    iteration allocates ([run_never_full]), and, for prices whose
    equivalence is equality, the run is the specification's session of
    its submissions ([run_refines]). *)

From Stdlib Require Import Floats.
From S2P Require Import Prelude Order Double Benchmark MemoryPool PriceLevels OrderBook BookInvariant Matching ProcessOrder Refinement.
Local Open Scope Z_scope.

Module Simulator.
Import OrderBook BookInvariant ProcessOrder.
Section Simulator.
Context {P : Type} `{Inhabited P} `{PriceLt P} `{!StrictWeakOrder (price_lt (P:=P))}.
(** The literal [0.0], the price the simulator gives a market order. *)
Context (zero : P).

Abbreviation book := (@OrderBook.t P).

(** What the generator draws for one order (Simulator.cpp, lines 23-26):
    [price_dist_(rng_)], [size_dist_(rng_)], [side_dist_(rng_)] and
    [type_dist_(rng_)]. *)
Record draw := mk_draw {
  d_price : P;
  d_qty : Z;
  d_buy : bool;
  d_market : bool
}.

(** The members of [Simulator] the run reads and writes (Simulator.h,
    lines 17-26), the book standing for [book_]. *)
Record t := mk {
  book_ : book;
  next_order_id_ : Z;
  next_timestamp_ : Z
}.

(** [Simulator(OrderBook& ob, uint64_t seed)]: both counters start at 1. *)
Definition create (ob : book) : t := mk ob 1 1.

(** The order a draw makes (lines 25-29): BUY when [side_dist_] draws
    true, MARKET when [type_dist_] does, and the price [0.0] for a
    market order. *)
Definition draw_side (d : draw) : Side := if d_buy d then BUY else SELL.
Definition draw_type (d : draw) : OType := if d_market d then MARKET else LIMIT.
Definition draw_price (d : draw) : P := match draw_type d with LIMIT => d_price d | MARKET => zero end.

(** One iteration of the loop of [Simulator::run] (Simulator.cpp, lines
    22-33): [processOrder] of the order the draw makes, with the
    post-incremented [uint64_t] counters.  [None] when [processOrder] does. *)
Definition run_one (sm : t) (d : draw) : option t :=
  let ts := next_timestamp_ sm in
  match processOrder (book_ sm) (next_order_id_ sm) ts (draw_price d) (d_qty d) (draw_side d) (draw_type d) with
  | None => None
  | Some (b', _) => Some (mk b' (size_inc (next_order_id_ sm)) (size_inc ts))
  end.

(** [void run(uint64_t total_orders)]: one iteration per draw. *)
Fixpoint run (sm : t) (draws : list draw) : option t :=
  match draws with
  | [] => Some sm
  | d :: ds => run_one sm d ≫= fun sm' => run sm' ds
  end.

(** What [run] prints after the loop (lines 39-40): the order count,
    the elapsed milliseconds and the throughput. *)
Record report := mk_report { r_orders : Z; r_elapsed_ms : float; r_throughput : float }.

(** [void run(uint64_t total_orders)] whole (lines 17-41): a timer
    started at the clock reading [t0] before the loop and stopped at
    [t1] after it, then [elapsed_ms = timer.elapsedMilliseconds()] and
    [throughput = (double)total_orders / (elapsed_ms / 1000.0)]. *)
Definition run_timed (sm : t) (draws : list draw) (t0 t1 : Z) : option (t * report) :=
  let timer := Benchmark.start Benchmark.create t0 in
  sm' ← run sm draws;
  let timer := Benchmark.stop timer t1 in
  let elapsed_ms := Benchmark.elapsedMilliseconds timer in
  let total := Z.of_nat (length draws) in
  Some (sm', mk_report total elapsed_ms (Double.of_Z total / (elapsed_ms / 1000))%float).

(** The calls [run] makes, as a client session of the book: per draw,
    one [processOrder] with the id and timestamp the counters hand out
    (lines 30-32). *)
Fixpoint session (id ts : Z) (draws : list draw) : list (Refinement.op (P:=P)) :=
  match draws with
  | [] => []
  | d :: ds => Refinement.SubmitOp id ts (draw_price d) (d_qty d) (draw_side d) (draw_type d)
               :: session (size_inc id) (size_inc ts) ds
  end.

(** ** The invariant of a run *)

(** The book is well formed and every indexed id is below the next id
    the simulator will hand out. *)
Definition sim_ok (sm : t) : Prop :=
  wf (book_ sm) /\ 0 <= next_order_id_ sm /\
  forall k, is_Some (id_map_ (book_ sm) !! k) -> k < next_order_id_ sm.

Lemma run_one_ok sm d :
  sim_ok sm -> 0 <= d_qty d < 2 ^ 32 -> next_order_id_ sm + 1 < 2 ^ 64 ->
  exists sm', run_one sm d = Some sm' /\ sim_ok sm' /\ next_order_id_ sm' = next_order_id_ sm + 1 /\
    totalActiveOrders (book_ sm') <= totalActiveOrders (book_ sm) + 1.
Proof.
  intros ([F Hi] & Hn & Hk) Hq Hb. unfold run_one.
  assert (Hfresh : id_map_ (book_ sm) !! next_order_id_ sm = None).
  { apply eq_None_not_Some. intros Hs. specialize (Hk _ Hs). lia. }
  destruct (processOrder_step (book_ sm) F (next_order_id_ sm) (next_timestamp_ sm) (draw_price d) (d_qty d)
              (draw_side d) (draw_type d) Hi Hq Hfresh) as (b' & fills & F' & Hp & Hi' & Hids).
  pose proof (processOrder_index_size _ _ _ _ _ _ _ _ _ _ Hi Hq Hp) as Hsz.
  rewrite Hp, size_inc_nowrap by lia.
  eexists. split_and!; [done| |simpl; lia|].
  2:{ cbn [book_]. unfold totalActiveOrders. rewrite (inv_active_size _ _ _ Hi), (inv_active_size _ _ _ Hi'). lia. } split_and!; [by exists F'|simpl; lia|].
  simpl. intros k Hs. destruct (Hids k Hs) as [Hs' | ->]; [specialize (Hk _ Hs')|]; lia.
Qed.

(** A simulation run from a state satisfying [sim_ok] never gets
    stuck: as long as the ids do not wrap around, every [processOrder]
    returns, the book stays well formed and one id is used per draw. *)
Lemma run_ok sm draws :
  sim_ok sm -> Forall (fun d => 0 <= d_qty d < 2 ^ 32) draws ->
  next_order_id_ sm + Z.of_nat (length draws) < 2 ^ 64 ->
  exists sm', run sm draws = Some sm' /\ sim_ok sm' /\
    next_order_id_ sm' = next_order_id_ sm + Z.of_nat (length draws) /\
    totalActiveOrders (book_ sm') <= totalActiveOrders (book_ sm) + Z.of_nat (length draws).
Proof.
  revert sm. induction draws as [|d ds IH]; intros sm Hok Hq Hb.
  - exists sm. simpl. split_and!; [done|done|lia|lia].
  - inversion Hq as [|? ? Hd Hds]; subst. simpl in Hb.
    destruct (run_one_ok sm d Hok Hd) as (sm1 & Hr & Hok1 & Hn1 & Ha1); [lia|].
    destruct (IH sm1 Hok1 Hds) as (sm' & Hr' & Hok' & Hn' & Ha'); [lia|].
    exists sm'. simpl. rewrite Hr. simpl. split_and!; [done|done|lia|lia].
Qed.

(** The simulator starts in a state satisfying [sim_ok]. *)
Lemma create_sim_ok cap : Z.of_nat cap * MemoryPool.sizeof_Order < 2 ^ 64 -> sim_ok (create (OrderBook.create cap)).
Proof.
  intros Hc. split_and!; [eexists; by apply create_inv|simpl; lia|].
  intros k [x Hx]. simpl in Hx. by rewrite lookup_empty in Hx.
Qed.

(** A run never resizes the pool. *)
Lemma run_one_capacity sm d sm' :
  run_one sm d = Some sm' ->
  MemoryPool.capacity (pool_ (book_ sm')) = MemoryPool.capacity (pool_ (book_ sm)).
Proof.
  unfold run_one. destruct (processOrder _ _ _ _ _ _ _) as [[b' f]|] eqn:E; [|done].
  intros [= <-]. exact (processOrder_capacity _ _ _ _ _ _ _ _ _ E).
Qed.

Lemma run_capacity sm draws sm' :
  run sm draws = Some sm' ->
  MemoryPool.capacity (pool_ (book_ sm')) = MemoryPool.capacity (pool_ (book_ sm)).
Proof.
  revert sm. induction draws as [|d ds IH]; intros sm; cbn [run]; [by intros [= <-]|].
  destruct (run_one sm d) as [sm1|] eqn:E; [|done]. cbn [mbind option_bind]. intros Hr.
  rewrite (IH _ Hr). exact (run_one_capacity _ _ _ E).
Qed.

(** The timer only observes the run: [run_timed] runs the loop and
    reports the two clock readings' difference. *)
Lemma run_timed_run sm draws t0 t1 :
  run_timed sm draws t0 t1 =
    (fun sm' => (sm', mk_report (Z.of_nat (length draws))
                   (Double.of_Z (t1 - t0) / 1000000)%float
                   (Double.of_Z (Z.of_nat (length draws)) / ((Double.of_Z (t1 - t0) / 1000000) / 1000))%float))
    <$> run sm draws.
Proof. unfold run_timed. by destruct (run sm draws). Qed.

(** ** The run as a session of the book *)

(** An iteration is the call of the session it stands for. *)
Lemma run_one_exec sm d sm1 :
  run_one sm d = Some sm1 ->
  exists r, Refinement.exec_op (book_ sm) (Refinement.SubmitOp (next_order_id_ sm) (next_timestamp_ sm)
                (draw_price d) (d_qty d) (draw_side d) (draw_type d)) = Some (book_ sm1, r) /\
    next_order_id_ sm1 = size_inc (next_order_id_ sm) /\ next_timestamp_ sm1 = size_inc (next_timestamp_ sm).
Proof.
  unfold run_one, Refinement.exec_op. destruct (processOrder _ _ _ _ _ _ _) as [[b' f]|]; [|done].
  intros [= <-]. by eexists.
Qed.

(** The id the simulator hands out rests nowhere in the book. *)
Lemma run_op_ok sm d :
  sim_ok sm -> 0 <= d_qty d < 2 ^ 32 ->
  Refinement.op_ok (Refinement.abstr (book_ sm)) (Refinement.SubmitOp (next_order_id_ sm) (next_timestamp_ sm)
                (draw_price d) (d_qty d) (draw_side d) (draw_type d)) = true.
Proof.
  intros ([F Hi] & _ & Hk) Hq. cbn [Refinement.op_ok Refinement.abstr Refinement.a_bids Refinement.a_asks].
  rewrite andb_true_iff, !bool_decide_eq_true. split; [done|].
  rewrite (Refinement.elem_of_view_id _ F [] _ Hi). intros (h & Hh & Hid).
  assert (Hs : is_Some (id_map_ (book_ sm) !! next_order_id_ sm)) by (exists h; by apply (inv_ids _ _ _ Hi)).
  specialize (Hk _ Hs). lia.
Qed.

Section Refines.
(** Price equivalence is equality, as for integer prices. *)
Hypothesis price_total : forall a b : P, price_lt a b = false -> price_lt b a = false -> a = b.

Lemma run_simulation sm draws :
  sim_ok sm -> Forall (fun d => 0 <= d_qty d < 2 ^ 32) draws ->
  next_order_id_ sm + Z.of_nat (length draws) < 2 ^ 64 ->
  exists sm' rs, run sm draws = Some sm' /\
    (Refinement.abstr (book_ sm'), rs) =
      Refinement.aexec (MemoryPool.capacity (pool_ (book_ sm))) (Refinement.abstr (book_ sm))
        (session (next_order_id_ sm) (next_timestamp_ sm) draws).
Proof.
  revert sm. induction draws as [|d ds IH]; intros sm Hok Hq Hb; [by exists sm, []|].
  inversion Hq as [|? ? Hd Hds]; subst. cbn [length] in Hb.
  destruct (run_one_ok sm d Hok Hd) as (sm1 & Hr & Hok1 & Hn1 & _); [lia|].
  destruct (run_one_exec _ _ _ Hr) as (r & He & Hid & Hts).
  destruct (Refinement.exec_op_refines price_total (book_ sm) _ (proj1 Hok) (run_op_ok sm d Hok Hd))
    as (b1 & r' & He' & _ & Hc & Ha).
  rewrite He in He'. injection He' as <- <-.
  destruct (IH sm1 Hok1 Hds) as (sm' & rs & Hr' & Ha'); [lia|].
  exists sm', (r :: rs). cbn [run session Refinement.aexec]. rewrite Hr. cbn [mbind option_bind]. split; [done|].
  rewrite <- Ha. cbn [fst snd]. by rewrite <- Hid, <- Hts, <- Hc, <- Ha'.
Qed.

End Refines.

(** ** Theorems *)

(** C24: a pool at least as large as the run never runs out of slots:
    when [pool_capacity] is at least the number of orders submitted (as
    with the defaults of [main], 2'000'000 slots for 1'000'000 orders,
    "to ensure enough preallocated slots"), before every iteration of
    the run the book has fewer active orders than slots and the pool's
    free list is not empty: the [allocate] the iteration's
    [processOrder] makes returns a slot, so no submission is dropped. *)
Theorem run_never_full (cap : nat) draws k :
  Z.of_nat cap * MemoryPool.sizeof_Order < 2 ^ 64 -> Forall (fun d => 0 <= d_qty d < 2 ^ 32) draws ->
  (length draws <= cap)%nat -> (k < length draws)%nat ->
  exists sm i, run (create (OrderBook.create cap)) (take k draws) = Some sm /\
    totalActiveOrders (book_ sm) < Z.of_nat cap /\
    (MemoryPool.allocate (pool_ (book_ sm))).2 = Some i.
Proof.
  intros Hc Hq Hl Hk. assert (Ht : length (take k draws) = k) by (rewrite length_take; lia).
  destruct (run_ok _ (take k draws) (create_sim_ok cap Hc)) as (sm & Hr & ([F Hi] & _) & _ & Ha);
    [by apply Forall_take|cbn [create next_order_id_]; unfold MemoryPool.sizeof_Order in Hc; lia|].
  cbn [create book_ OrderBook.create totalActiveOrders active_orders_] in Ha.
  assert (Hn : totalActiveOrders (book_ sm) < Z.of_nat cap) by (unfold totalActiveOrders in *; lia).
  assert (Hcap : MemoryPool.capacity (pool_ (book_ sm)) = cap).
  { rewrite (run_capacity _ _ _ Hr). cbn [create book_ OrderBook.create pool_]. apply MemoryPool.create_capacity. }
  pose proof (room_free _ _ Hi ltac:(by rewrite Hcap)) as HF.
  destruct (MemoryPool.allocate_rep _ _ (inv_pool _ _ _ Hi)) as [Ha' _].
  destruct F as [|i F]; [done|]. by exists sm, i.
Qed.

Section RefinesThm.
Hypothesis price_total : forall a b : P, price_lt a b = false -> price_lt b a = false -> a = b.

(** C26: the simulator composed with the book, for prices whose
    equivalence is equality (the section's hypothesis [price_total],
    true of integer prices such as [Z] ticks and false of [double],
    whose two zeros are equivalent): on a pool whose byte count
    does not wrap and [uint32_t] quantities, [run] from a fresh book
    returns, and the book it ends with is the specification's: the
    abstract book of the same capacity, started empty and given the
    session of the run's submissions, ends in the abstraction of the
    run's final book.  The ids the simulator hands out are fresh, so
    every call of the session is one the refinement covers. *)
Theorem run_refines (cap : nat) draws :
  Z.of_nat cap * MemoryPool.sizeof_Order < 2 ^ 64 -> Forall (fun d => 0 <= d_qty d < 2 ^ 32) draws ->
  1 + Z.of_nat (length draws) < 2 ^ 64 ->
  exists sm rs, run (create (OrderBook.create cap)) draws = Some sm /\
    (Refinement.abstr (book_ sm), rs) = Refinement.aexec cap (Refinement.mk_abook [] []) (session 1 1 draws).
Proof.
  intros Hc Hq Hb.
  destruct (run_simulation price_total _ draws (create_sim_ok cap Hc) Hq Hb) as (sm & rs & Hr & Ha).
  exists sm, rs. split; [done|]. rewrite Ha. cbn [create book_ OrderBook.create pool_ next_order_id_ next_timestamp_].
  by rewrite MemoryPool.create_capacity.
Qed.

End RefinesThm.

End Simulator.
End Simulator.
