(* ===== verification/Main.v ===== *)
(** * The entry point

    [int main(int argc, char* argv[])] ([src/src/main.cpp]): the default
    order count and pool capacity, replaced by the arguments through
    [std::stoull]; a book of that capacity; a simulator on it; the run,
    timed; the final count of active orders.  [std::stoull] is a
    parameter ([None] where it throws); the values the generator draws
    are a function [gen] of the iteration ([Seeded.v] computes them
    with the seeded generator); the clock's two readings are inputs.  The model returns the values [main] prints, in an
    [output]; the formatting of the console output is not modelled. *)

From Stdlib Require Import Floats.
From stdpp Require Import strings.
From S2P Require Import Prelude Order Double Benchmark MemoryPool OrderBook BookInvariant ProcessOrder Simulator.
Local Open Scope Z_scope.

Module Main.
Import OrderBook BookInvariant Simulator.
Section Main.
Context {P : Type} `{Inhabited P} `{PriceLt P} `{!StrictWeakOrder (price_lt (P:=P))}.
(** The literal [0.0] of the simulator. *)
Context (zero : P).
(** [std::stoull], a library function the model does not implement:
    [None] when it throws ([std::invalid_argument] or
    [std::out_of_range]), else the [unsigned long long] it parses. *)
Context (stoull : string -> option Z).

(** The values [main] prints (lines 19, 23, 26 and, through [run],
    the report). *)
Record output := mk_output {
  o_capacity : Z;
  o_total : Z;
  o_report : report;
  o_active : Z
}.

(** The defaults of [main] (lines 9-10). *)
Definition default_total_orders : Z := 1000000.
Definition default_pool_capacity : Z := 2000000.

(** Lines 9-17: the defaults, replaced by [argv[1]] when [argc >= 2]
    and by [argv[2]] when [argc >= 3], each through [std::stoull];
    [None] when a conversion throws, which ends the program. *)
Definition parse_args (argv : list string) : option (Z * Z) :=
  total ← (if decide (2 <= length argv)%nat then stoull (argv !!! 1%nat) else Some default_total_orders);
  cap ← (if decide (3 <= length argv)%nat then stoull (argv !!! 2%nat) else Some default_pool_capacity);
  Some (total, cap).

(** Lines 19-26: [OrderBook book(pool_capacity)], [Simulator sim(book,
    12345)], [sim.run(total_orders)] drawing [gen i] at iteration [i]
    with the clock read at [t0] and [t1], and the final
    [book.totalActiveOrders()]; [None] when the run gets stuck. *)
Definition main (pool_capacity total_orders : Z) (gen : nat -> draw) (t0 t1 : Z) : option output :=
  '(sm, r) ← run_timed zero (create (OrderBook.create (Z.to_nat pool_capacity)))
                (gen <$> seq 0 (Z.to_nat total_orders)) t0 t1;
  Some (mk_output pool_capacity total_orders r (totalActiveOrders (book_ sm))).

(** [int main(int argc, char* argv[])] (lines 6-28). *)
Definition main_argv (argv : list string) (gen : nat -> draw) (t0 t1 : Z) : option output :=
  '(total, cap) ← parse_args argv;
  main cap total gen t0 t1.

(** ** The run [main] makes *)

(** On a capacity whose byte count does not wrap, an order count whose
    ids do not wrap and [uint32_t] quantities, the run returns a
    well-formed book, and [main] prints its count, which lies between 0
    and the capacity. *)
Lemma main_run (cap total : Z) gen t0 t1 :
  0 <= cap -> cap * MemoryPool.sizeof_Order < 2 ^ 64 -> 0 <= total -> total + 1 < 2 ^ 64 ->
  (forall i, 0 <= d_qty (gen i) < 2 ^ 32) ->
  exists sm r, run zero (create (OrderBook.create (Z.to_nat cap))) (gen <$> seq 0 (Z.to_nat total)) = Some sm /\
    wf (book_ sm) /\ main cap total gen t0 t1 = Some (mk_output cap total r (totalActiveOrders (book_ sm))) /\
    r_orders r = total /\ 0 <= totalActiveOrders (book_ sm) <= cap.
Proof.
  intros Hc Hc' Ht Ht' Hg. unfold MemoryPool.sizeof_Order in Hc'.
  set (draws := gen <$> seq 0 (Z.to_nat total)).
  assert (Hl : length draws = Z.to_nat total) by (unfold draws; by rewrite length_fmap, length_seq).
  destruct (run_ok zero _ draws (create_sim_ok (Z.to_nat cap) ltac:(unfold MemoryPool.sizeof_Order; lia)))
    as (sm & Hr & ([F Hi] & _ & _) & _);
    [apply Forall_fmap, Forall_forall; intros i _; apply Hg|cbn [create next_order_id_]; lia|].
  unfold main. rewrite run_timed_run. fold draws. rewrite Hr. cbn [fmap option_fmap option_map mbind option_bind].
  assert (Hb : 0 <= totalActiveOrders (book_ sm) <= cap).
  { pose proof (inv_count _ _ _ Hi) as Hn. rewrite (run_capacity _ _ _ _ Hr) in Hn.
    cbn [create book_ OrderBook.create pool_] in Hn. rewrite MemoryPool.create_capacity in Hn.
    unfold totalActiveOrders. rewrite (inv_active _ _ _ Hi) in Hn |- *. lia. }
  eexists _, _. split_and!; [done|by exists F|done|cbn [r_orders]; lia|lia|lia].
Qed.

(** ** Theorems *)

(** C23: [main] on a pool whose byte count does not wrap and fewer than
    [2^64 - 1] draws of [uint32_t] quantities runs to the end: it
    prints the capacity and the order count it was given, a report of
    that many orders, and the size of the id index of the final,
    well-formed book. *)
Theorem main_returns (cap total : Z) gen t0 t1 :
  0 <= cap -> cap * MemoryPool.sizeof_Order < 2 ^ 64 -> 0 <= total -> total + 1 < 2 ^ 64 ->
  (forall i, 0 <= d_qty (gen i) < 2 ^ 32) ->
  exists sm o, run zero (create (OrderBook.create (Z.to_nat cap))) (gen <$> seq 0 (Z.to_nat total)) = Some sm /\
    wf (book_ sm) /\ main cap total gen t0 t1 = Some o /\
    o_capacity o = cap /\ o_total o = total /\ r_orders (o_report o) = total /\
    o_active o = Z.of_nat (size (id_map_ (book_ sm))).
Proof.
  intros Hc Hc' Ht Ht' Hg. destruct (main_run cap total gen t0 t1 Hc Hc' Ht Ht' Hg) as (sm & r & Hr & Hw & Hm & Ho & _).
  exists sm, (mk_output cap total r (totalActiveOrders (book_ sm))). split_and!; [done|done|exact Hm|done|done|done|].
  destruct Hw as [F Hi]. apply (inv_active_size _ _ _ Hi).
Qed.

(** The count [main] prints is bounded by the pool capacity: however
    many orders the run submits, at most [pool_capacity] of them rest in
    the book at the end (submissions on a full pool are dropped), and the
    [size_t] count never wraps below zero. *)
Theorem main_bounded (cap total : Z) gen t0 t1 o :
  0 <= cap -> cap * MemoryPool.sizeof_Order < 2 ^ 64 -> 0 <= total -> total + 1 < 2 ^ 64 ->
  (forall i, 0 <= d_qty (gen i) < 2 ^ 32) ->
  main cap total gen t0 t1 = Some o -> 0 <= o_active o <= cap.
Proof.
  intros Hc Hc' Ht Ht' Hg. destruct (main_run cap total gen t0 t1 Hc Hc' Ht Ht' Hg) as (sm & r & _ & _ & -> & _ & Hb).
  by intros [= <-].
Qed.


End Main.
End Main.
