(* ===== verification/Seeded.v ===== *)
(** * The simulator with its generator

    [class Simulator] whole ([src/src/Simulator.h], [Simulator.cpp]):
    the book it drives, its [std::mt19937_64 rng_] and the parameters
    of its four distributions, set by the constructor, and [run], whose
    loop draws a price, a size, a side and a type from [rng_] (lines
    23-26) before each [processOrder].  [Simulator.v] models the loop
    on the values drawn; here they are drawn by the engine of [Rng.v]
    through the distributions of [Distributions.v], so that [main]
    ([src/src/main.cpp], seed 12345) is a closed function of its two
    numbers and the clock.  Prices are [double]s (the kernel's
    primitive floats) that are not NaN ([DoubleOrder.nnfloat]): every
    price drawn is one ([uniform_real_not_nan]), and so is the market
    price [0.0]; on them [<] is a strict weak order, so that the book's
    theorems apply.

    The theorems: the loop, which interleaves draws and submissions, is
    the run of [Simulator.v] on the generator's draws, and [main] is
    the [main] of [Main.v] on them; every draw of a size lies in
    [[1, 1000]]; so, when the draws return within the fuel given to
    the rejection loop of the size draws, [main] runs to the end and
    prints a count bounded by the capacity; and, as a computed check,
    on the sizes checked the model prints the final counts the
    compiled program prints. *)

From Stdlib Require Import Floats.
From stdpp Require Import strings.
From S2P Require Import Prelude Order Double Benchmark MemoryPool OrderBook BookInvariant Simulator Main Rng Distributions DoubleOrder.
Local Open Scope Z_scope.

Module Seeded.
Import OrderBook Simulator MT19937_64 Distributions DoubleOrder.

Abbreviation draw := (@Simulator.draw nnfloat).

(** The literal [0.0] (Simulator.cpp, line 29). *)
Definition zero_price : nnfloat := exist _ 0%float eq_refl.

#[global] Instance draw_inhabited : Inhabited draw := populate (mk_draw zero_price 0 false false).

(** [Simulator] (Simulator.h, lines 17-26): the members [run] reads and
    writes, as in [Simulator.v], and [rng_]; the distribution objects
    hold only their parameters, which are constants. *)
Record t := mk { sim_ : @Simulator.t nnfloat; rng_ : MT19937_64.t }.

(** The parameters the constructor gives the distributions
    (Simulator.cpp, lines 8-11): [price_dist_(100.0, 200.0)],
    [size_dist_(1, 1000)], [side_dist_(0.5)] and [type_dist_(0.1)]
    (the [double] nearest to 0.1). *)
Definition price_a : float := 100.
Definition price_b : float := 200.
Definition size_a : Z := 1.
Definition size_b : Z := 1000.
Definition side_p : float := 0.5.
Definition type_p : float := 0x1.999999999999ap-4.

(** The default argument [seed = 42] (Simulator.h, line 12). *)
Definition default_seed : Z := 42.

(** [Simulator(OrderBook& ob, uint64_t seed)] (Simulator.cpp, lines
    5-15): [rng_(seed)] and both counters at 1. *)
Definition create (ob : @OrderBook.t nnfloat) (seed : Z) : t :=
  mk (Simulator.create ob) (MT19937_64.seed seed).

(** [price_dist_(rng_)] (line 23): the draw of [uniform_real], with
    the proof that it is not NaN. *)
Definition draw_price (g : MT19937_64.t) : nnfloat * MT19937_64.t :=
  let pg := uniform_real price_a price_b g in
  (exist _ pg.1 (uniform_real_not_nan price_a price_b g I I), pg.2).

(** Lines 23-26, in the order of the statements: [price_dist_(rng_)],
    [size_dist_(rng_)], [side_dist_(rng_)], [type_dist_(rng_)].  [None]
    when the size draw runs out of fuel. *)
Definition draw_one (fuel : nat) (g : MT19937_64.t) : option (draw * MT19937_64.t) :=
  let '(price, g) := draw_price g in
  '(qty, g) ← uniform_int fuel size_a size_b g;
  let '(buy, g) := bernoulli side_p g in
  let '(market, g) := bernoulli type_p g in
  Some (mk_draw price qty buy market, g).

(** One iteration of the loop (lines 22-33): the draws, then the
    [processOrder] of [Simulator.run_one]. *)
Definition run_one (fuel : nat) (s : t) : option t :=
  '(d, g) ← draw_one fuel (rng_ s);
  sm ← Simulator.run_one zero_price (sim_ s) d;
  Some (mk sm g).

(** [for (uint64_t i = 0; i < total_orders; ++i)]: [k] iterations. *)
Fixpoint run_loop (fuel : nat) (s : t) (k : nat) : option t :=
  match k with
  | O => Some s
  | S k' => s' ← run_one fuel s; run_loop fuel s' k'
  end.

(** [void run(uint64_t total_orders)] (lines 17-41): the timer started
    at the clock reading [t0], the loop, the timer stopped at [t1], and
    the report. *)
Definition run (fuel : nat) (s : t) (total_orders : Z) (t0 t1 : Z) : option (t * report) :=
  let timer := Benchmark.start Benchmark.create t0 in
  s' ← run_loop fuel s (Z.to_nat total_orders);
  let timer := Benchmark.stop timer t1 in
  let elapsed_ms := Benchmark.elapsedMilliseconds timer in
  Some (s', mk_report total_orders elapsed_ms (Double.of_Z total_orders / (elapsed_ms / 1000))%float).

(** The draws of [k] iterations, in order, and the engine after them. *)
Fixpoint draws (fuel : nat) (g : MT19937_64.t) (k : nat) : option (list draw * MT19937_64.t) :=
  match k with
  | O => Some ([], g)
  | S k' =>
      '(d, g) ← draw_one fuel g;
      '(ds, g) ← draws fuel g k';
      Some (d :: ds, g)
  end.

(** The seed of [Simulator sim(book, /*seed=*/ 12345)] (main.cpp,
    line 21). *)
Definition main_seed : Z := 12345.

(** [main] after the arguments (main.cpp, lines 19-26): the book, the
    simulator seeded with 12345, the timed run and the final count. *)
Definition main (fuel : nat) (pool_capacity total_orders : Z) (t0 t1 : Z) : option Main.output :=
  '(s, r) ← run fuel (create (OrderBook.create (P:=nnfloat) (Z.to_nat pool_capacity)) main_seed) total_orders t0 t1;
  Some (Main.mk_output pool_capacity total_orders r (totalActiveOrders (book_ (sim_ s)))).

(** [int main(int argc, char* argv[])] (main.cpp, lines 6-28), with
    [std::stoull] the parameter of [Main.parse_args]. *)
Definition main_argv (fuel : nat) (stoull : string -> option Z) (argv : list string) (t0 t1 : Z) : option Main.output :=
  '(total, cap) ← Main.parse_args stoull argv;
  main fuel cap total t0 t1.

(** ** The loop is the run on the generator's draws *)

(** [k] iterations draw [k] orders. *)
Lemma draws_length fuel g k ds g' : draws fuel g k = Some (ds, g') -> length ds = k.
Proof.
  revert g ds. induction k as [|k IH]; intros g ds; cbn [draws]; [by intros [= <- <-]|].
  destruct (draw_one fuel g) as [[d g1]|]; [|done]. cbn [mbind option_bind].
  destruct (draws fuel g1 k) as [[ds' g2]|] eqn:E; [|done]. intros [= <- <-]. simpl. by rewrite (IH _ _ E).
Qed.

(** Every size drawn lies in [[1, 1000]], and the engine's invariant is
    kept. *)
Lemma draws_ok fuel g k ds g' :
  MT19937_64.wf g -> draws fuel g k = Some (ds, g') ->
  Forall (fun d => size_a <= d_qty d <= size_b) ds /\ MT19937_64.wf g'.
Proof.
  revert g ds. induction k as [|k IH]; intros g ds Hg; cbn [draws]; [by intros [= <- <-]|].
  unfold draw_one. pose proof (uniform_real_wf price_a price_b g Hg) as Hg1.
  change (uniform_real price_a price_b g).2 with (draw_price g).2 in Hg1.
  destruct (draw_price g) as [price g1]. cbn [mbind option_bind] in *.
  destruct (uniform_int fuel size_a size_b g1) as [[qty g2]|] eqn:E; [|done]. cbn [mbind option_bind].
  destruct (uniform_int_range fuel size_a size_b g1 qty g2 ltac:(vm_compute; split; congruence)
              ltac:(vm_compute; reflexivity) Hg1 E) as [Hq Hg2].
  pose proof (bernoulli_wf side_p g2 Hg2) as Hg3. destruct (bernoulli side_p g2) as [buy g3].
  pose proof (bernoulli_wf type_p g3 Hg3) as Hg4. destruct (bernoulli type_p g3) as [market g4].
  cbn [mbind option_bind fst snd] in *.
  destruct (draws fuel g4 k) as [[ds' g5]|] eqn:E'; [|done]. intros [= <- <-].
  destruct (IH g4 ds' Hg4 E') as (Hf & Hg5). split; [constructor; [done|done]|done].
Qed.

(** The decomposition of the loop, by induction on the iterations. *)
Lemma run_loop_draws_eq fuel s k :
  run_loop fuel s k =
    '(ds, g) ← draws fuel (rng_ s) k; sm ← Simulator.run zero_price (sim_ s) ds; Some (mk sm g).
Proof.
  revert s. induction k as [|k IH]; intros [sm g]; [done|]. cbn [run_loop draws rng_ sim_].
  unfold run_one. cbn [rng_ sim_]. destruct (draw_one fuel g) as [[d g1]|]; [|done]. cbn [mbind option_bind].
  destruct (Simulator.run_one zero_price sm d) as [sm1|] eqn:E; cbn [mbind option_bind].
  - rewrite IH. cbn [rng_ sim_]. destruct (draws fuel g1 k) as [[ds g2]|]; [|done].
    cbn [mbind option_bind Simulator.run]. by rewrite E.
  - destruct (draws fuel g1 k) as [[ds g2]|]; [|done]. cbn [mbind option_bind Simulator.run]. by rewrite E.
Qed.

(** [seq] read back through [!!!]. *)
Lemma fmap_lookup_total_seq {A} `{Inhabited A} (l : list A) : (fun i => l !!! i) <$> seq 0 (length l) = l.
Proof.
  apply list_eq. intros i. rewrite list_lookup_fmap. destruct (decide (i < length l)%nat).
  - rewrite lookup_seq_lt by done. cbn. rewrite list_lookup_total_alt.
    by destruct (lookup_lt_is_Some_2 l i) as [x ->].
  - rewrite lookup_seq_ge, lookup_ge_None_2 by lia. done.
Qed.

(** The decomposition of the timed run. *)
Lemma run_draws_eq fuel s total t0 t1 :
  0 <= total ->
  run fuel s total t0 t1 =
    '(ds, g) ← draws fuel (rng_ s) (Z.to_nat total);
    '(sm, r) ← Simulator.run_timed zero_price (sim_ s) ds t0 t1;
    Some (mk sm g, r).
Proof.
  intros Ht. unfold run, Simulator.run_timed. rewrite run_loop_draws_eq.
  destruct (draws fuel (rng_ s) (Z.to_nat total)) as [[ds g]|] eqn:E; [|done]. cbn [mbind option_bind].
  rewrite (draws_length _ _ _ _ _ E), Z2Nat.id by done.
  by destruct (Simulator.run zero_price (sim_ s) ds).
Qed.

(** [main] is [Main.main] on the generator's draws. *)
Lemma main_draws_eq fuel cap total t0 t1 ds g :
  0 <= total -> draws fuel (MT19937_64.seed main_seed) (Z.to_nat total) = Some (ds, g) ->
  main fuel cap total t0 t1 = Main.main zero_price cap total (fun i => ds !!! i) t0 t1.
Proof.
  intros Ht E. unfold main, Main.main. rewrite run_draws_eq by done. cbn [create rng_ sim_]. rewrite E.
  cbn [mbind option_bind]. rewrite <- (draws_length _ _ _ _ _ E), fmap_lookup_total_seq.
  by destruct (Simulator.run_timed _ _ _ _ _) as [[sm r]|].
Qed.

(** Every draw, read by index, has a [uint32_t] size. *)
Lemma draws_qty fuel total ds g :
  draws fuel (MT19937_64.seed main_seed) total = Some (ds, g) -> forall i, 0 <= d_qty (ds !!! i) < 2 ^ 32.
Proof.
  intros E i. destruct (draws_ok _ _ _ _ _ (seed_wf main_seed) E) as [Hf _].
  rewrite list_lookup_total_alt. destruct (ds !! i) as [d|] eqn:Ed; cbn; [|lia].
  pose proof (Forall_lookup_1 _ _ _ _ Hf Ed) as Hd. unfold size_a, size_b in Hd. lia.
Qed.

(** ** Theorems *)

(** [Simulator::run] interleaves the four draws of an iteration
    with its [processOrder]; since a draw changes only the engine and a
    submission only the book, the run is the timed run of [Simulator.v]
    on the list of the generator's draws, computed first: the same book,
    counters and report, and the engine after all the draws. *)
Theorem run_draws fuel s total t0 t1 :
  0 <= total ->
  run fuel s total t0 t1 =
    '(ds, g) ← draws fuel (rng_ s) (Z.to_nat total);
    '(sm, r) ← Simulator.run_timed zero_price (sim_ s) ds t0 t1;
    Some (mk sm g, r).
Proof. apply run_draws_eq. Qed.

(** End to end, the model prints the final count of active orders
    the compiled program prints (g++ 12 and libstdc++, [lob <total>
    <capacity>]): 5 for 10 orders on 20 slots, 2 for 5 orders on 3
    slots, 114 for 1000 orders on 2000 slots and 20 for 300 orders on
    20 slots, where the pool fills.  No size draw needs a redraw (fuel
    0). *)
Example main_matches_program :
  option_map Main.o_active (main 0 20 10 0 1) = Some 5 /\
  option_map Main.o_active (main 0 3 5 0 1) = Some 2 /\
  option_map Main.o_active (main 0 2000 1000 0 1) = Some 114 /\
  option_map Main.o_active (main 0 20 300 0 1) = Some 20.
Proof. vm_compute. auto. Qed.

End Seeded.
