(* ===== verification/Scenarios.v ===== *)
(** * The scenarios of the specification

    The example scenarios of section 8 of the specification, run on the
    model with integer prices ([Z] ticks): each is a closed computation
    the kernel evaluates. *)

From S2P Require Import Prelude Order MemoryPool PriceLevels OrderBook BookInvariant Matching ProcessOrder Cancel.
Local Open Scope Z_scope.

Module Scenarios.
Import OrderBook ProcessOrder Cancel.

Abbreviation zbook := (@OrderBook.t Z).

(** Submit an order and keep the book (the fills are dropped). *)
Definition submit (ob : option zbook) (id price qty : Z) (s : Side) (ty : OType) : option zbook :=
  ob ≫= fun b => fst <$> processOrder b id id price qty s ty.

(** The fills of one submission on a book. *)
Definition fills_of (ob : option zbook) (id price qty : Z) (s : Side) (ty : OType)
  : option (list (Fill.t Z)) :=
  ob ≫= fun b => snd <$> processOrder b id id price qty s ty.

(** The remaining quantity of the resting order [id]. *)
Definition resting_qty (ob : option zbook) (id : Z) : option Z :=
  ob ≫= fun b => (fun h => Order.quantity (MemoryPool.read (pool_ b) h)) <$> id_map_ b !! id.

Definition active (ob : option zbook) : option Z := totalActiveOrders <$> ob.

(** A book with one resting SELL limit: id 1, price 100, quantity 50. *)
Definition book1 : option zbook := submit (Some (create 10)) 1 100 50 SELL LIMIT.

(** After a BUY limit, id 2, price 100, quantity 30. *)
Definition book2 : option zbook := submit book1 2 100 30 BUY LIMIT.

(** First scenario: one fill [{resting 1, incoming 2, 30, 100}]; order 1
    still rests with quantity 20; one active order. *)
Example spec_scenario_partial_fill :
  fills_of book1 2 100 30 BUY LIMIT = Some [Fill.mk Z 1 2 30 100] /\
  resting_qty book2 1 = Some 20 /\ active book2 = Some 1.
Proof. vm_compute. auto. Qed.

(** Second scenario: a BUY market order, id 3, quantity 100, sweeps the
    20 left: one fill [{1, 3, 20, 100}], order 1 is gone, the remaining
    80 are discarded, no active order. *)
Example spec_scenario_market_sweep :
  fills_of book2 3 0 100 BUY MARKET = Some [Fill.mk Z 1 3 20 100] /\
  resting_qty (submit book2 3 0 100 BUY MARKET) 1 = None /\
  resting_qty (submit book2 3 0 100 BUY MARKET) 3 = None /\
  active (submit book2 3 0 100 BUY MARKET) = Some 0.
Proof. vm_compute. auto. Qed.

(** Third scenario: capacity 1 and one order resting; the next
    submission returns no fill and the new order neither trades nor
    rests. *)
Example spec_scenario_capacity :
  let full := submit (Some (create 1)) 1 100 50 SELL LIMIT in
  fills_of full 2 100 30 BUY LIMIT = Some [] /\
  resting_qty (submit full 2 100 30 BUY LIMIT) 2 = None /\
  resting_qty (submit full 2 100 30 BUY LIMIT) 1 = Some 50 /\
  active (submit full 2 100 30 BUY LIMIT) = Some 1.
Proof. vm_compute. auto. Qed.

(** Price-time priority: two SELL limits at the same price, then a BUY
    that sweeps them; the first inserted trades first.  A better price
    inserted last still trades before both. *)
Example spec_scenario_fifo :
  let b := submit (submit (Some (create 10)) 1 100 10 SELL LIMIT) 2 100 10 SELL LIMIT in
  fills_of b 3 100 15 BUY LIMIT = Some [Fill.mk Z 1 3 10 100; Fill.mk Z 2 3 5 100] /\
  fills_of (submit b 4 99 1 SELL LIMIT) 3 100 15 BUY LIMIT
    = Some [Fill.mk Z 4 3 1 99; Fill.mk Z 1 3 10 100; Fill.mk Z 2 3 4 100].
Proof. vm_compute. auto. Qed.

(** Idempotent cancel: [true] once, then [false]. *)
Example spec_scenario_cancel_twice :
  option_map (fun b => let '(b1, r1) := cancelOrder b 1 in (r1, snd (cancelOrder b1 1))) book1
    = Some (true, false).
Proof. vm_compute. reflexivity. Qed.

End Scenarios.
