(* ===== verification/Findings.v ===== *)
(** * What the model shows about inputs outside the contract

    Four behaviours of the code on inputs the specification leaves open,
    shown on concrete runs of the model:
    - reusing the id of a resting order (section 9 of the specification
      calls it an open question, and says the id index "is simply
      overwritten"): a later [cancelOrder] of that id removes one record
      from the level but releases the slot of the other, so a slot is
      both free and resting; the next submission at that price trades
      against itself, the [uint32_t] quantities wrap around, and the
      matching loop never ends;
    - a pool capacity whose byte count [capacity * sizeof(Order)]
      wraps around [2^64]: the constructor gets a block smaller than
      the capacity and writes past it;
    - a [double] price that is NaN (prices are the kernel's IEEE
      doubles here): [<] on [double] is then not a strict weak order
      (what [std::map] requires), and a BUY limit at NaN passes the
      price gate of [matchLimitOrder] against every ask;
    - a clock that does not advance during a run, or steps back: the
      throughput [Simulator::run] prints is infinite, NaN or negative. *)

From Stdlib Require Import Floats.
From S2P Require Import Prelude Order Double Benchmark MemoryPool PriceLevels OrderBook BookInvariant Matching ProcessOrder Cancel Simulator Scenarios.
Local Open Scope Z_scope.

Module Findings.
Import OrderBook BookInvariant ProcessOrder Cancel Scenarios Double.

(** ** Reusing an active id *)

(** Two BUY limits at price 100 carrying the same id 7, in a pool of 4
    slots (they take slots 3 and 2; the index keeps slot 2). *)
Definition dup_book : option zbook :=
  submit (submit (Some (create 4)) 7 100 10 BUY LIMIT) 7 100 5 BUY LIMIT.

(** Then [cancelOrder 7]. *)
Definition dup_cancelled : option zbook := (fun b => fst (cancelOrder b 7)) <$> dup_book.

(** The book the matching loop of the next SELL limit (id 9, price 100,
    quantity 3) starts from: the order is written into the slot the pool
    hands out, slot 2, which still rests in the bid level. *)
Definition loop_book : zbook :=
  match dup_cancelled with
  | Some b => set_pool b (MemoryPool.write (MemoryPool.allocate (pool_ b)).1 2
                            (Order.make 9 9 100 3 SELL LIMIT))
  | None => create 0
  end.

(** ** Theorems on id reuse *)

(** ** The byte count of the pool *)

(** A pool capacity [main] accepts from [argv[2]]: [2^64 / 48 + 1],
    a [size_t]. *)
Definition overflow_capacity : nat := Z.to_nat 384307168202282326.

(** Two iterations of the loop on [loop_book] come back to it: the order
    trades 3 against itself, its quantity wraps to [2^32 - 3], then it
    trades that and the quantity wraps back to 3. *)
Lemma loop_book_period n fills :
  match_loop (S (S n)) true SELL loop_book 2 fills =
  match_loop n true SELL loop_book 2
    ((fills ++ [Fill.mk Z 9 9 3 100]) ++ [Fill.mk Z 9 9 (2 ^ 32 - 3) 100]).
Proof. exact eq_refl. Qed.

(** The cancel returns [true] but leaves slot 2 both at the head of the
    free list and resting in the bid level at 100, slot 3 in neither (it
    leaks), an empty index and a counter of 1. *)
Example dup_id_cancel_frees_resting_slot :
  option_map snd (option_map (fun b => cancelOrder b 7) dup_book) = Some true /\
  option_map (fun b => MemoryPool.free_list (pool_ b)) dup_cancelled = Some (Some 2%nat) /\
  option_map bids_ dup_cancelled = Some [(100, [2%nat])] /\
  option_map (fun b => size (id_map_ b)) dup_cancelled = Some 0%nat /\
  active dup_cancelled = Some 1.
Proof. vm_compute. auto. Qed.

(** A book in which a slot is free and resting is not well formed. *)
Lemma free_and_resting_not_wf (b : zbook) h :
  MemoryPool.free_list (pool_ b) = Some h -> h ∈ resting b -> ~ wf b.
Proof.
  intros Hf Hr [F Hi]. destruct (inv_pool _ _ _ Hi) as [_ Hc].
  rewrite Hf in Hc. inversion Hc; subst. exact (inv_resting_not_free _ _ _ h Hi Hr (list_elem_of_here _ _)).
Qed.

(** C29: Reusing the id of a resting order and cancelling it leaves a book
    that is not well formed; the next SELL limit at the bid's price then
    never finishes matching: the loop does not end whatever its fuel
    (the C++ loop runs forever, appending fills), so [processOrder]
    returns [None]. *)
Theorem dup_id_cancel_diverges :
  (exists b, dup_cancelled = Some b /\ ~ wf b) /\
  (forall fuel fills, match_loop fuel true SELL loop_book 2 fills = None) /\
  submit dup_cancelled 9 100 3 SELL LIMIT = None.
Proof.
  split_and!.
  - eexists. split; [reflexivity|]. apply (free_and_resting_not_wf _ 2); [reflexivity|].
    vm_compute. by left.
  - intros fuel. induction (lt_wf fuel) as [[|[|n]] _ IH]; intros fills; [done|reflexivity|].
    rewrite loop_book_period. apply IH. lia.
  - vm_compute. reflexivity.
Qed.

(** ** Theorems on NaN prices *)

(** [<] on [double] is not a strict weak order: NaN is incomparable to 0
    and to 1, which are comparable. *)
Theorem dbl_not_strict_weak_order : ~ StrictWeakOrder (price_lt (P:=float)).
Proof.
  intros [_ _ Hn]. by destruct (Hn 0%float PrimFloat.nan 1%float eq_refl).
Qed.

(** One SELL limit at 150 rests; a BUY limit at 100 does not trade (the
    gate stops it) but a BUY limit at NaN trades at 150. *)
Example nan_limit_passes_gate :
  let b := processOrder (create (P:=float) 4) 1 1 150%float 10 SELL LIMIT in
  option_map snd (b ≫= fun '(b, _) => processOrder b 2 2 100%float 5 BUY LIMIT) = Some [] /\
  option_map snd (b ≫= fun '(b, _) => processOrder b 2 2 PrimFloat.nan 5 BUY LIMIT)
    = Some [Fill.mk float 1 2 5 150%float].
Proof. vm_compute. auto. Qed.

(** The terms below never unfold [overflow_capacity]: it is
    384307168202282326 in unary. *)
Lemma overflow_capacity_Z : Z.of_nat overflow_capacity = 384307168202282326.
Proof. unfold overflow_capacity. by apply Z2Nat.id. Qed.

Lemma overflow_block_slots : MemoryPool.block_slots overflow_capacity = 0%nat.
Proof. unfold MemoryPool.block_slots. rewrite overflow_capacity_Z. vm_compute. reflexivity. Qed.

Lemma pool_create (n : nat) : pool_ (create (P:=Z) n) = MemoryPool.create n.
Proof. reflexivity. Qed.

(** C30: the byte count of the pool's block wraps around.  For the
    capacity [overflow_capacity], a [size_t] that [main] takes from
    [argv[2]], [capacity * sizeof(Order)] is 32 modulo [2^64]:
    [::operator new[]] returns a block of 32 bytes holding no whole
    slot, and the constructor's loop then writes [overflow_capacity]
    slots through it, out of bounds.  The book built on that pool is
    not well formed. *)
Theorem pool_block_wraps :
  Z.of_nat overflow_capacity < 2 ^ 64 /\
  (Z.of_nat overflow_capacity * MemoryPool.sizeof_Order) mod 2 ^ 64 = 32 /\
  length (MemoryPool.block (MemoryPool.create (P:=Z) overflow_capacity)) = 0%nat /\
  ~ wf (create (P:=Z) overflow_capacity).
Proof.
  split; [rewrite overflow_capacity_Z; lia|].
  split; [rewrite overflow_capacity_Z; vm_compute; reflexivity|].
  pose proof (MemoryPool.length_create_block (P:=Z) overflow_capacity) as Hl.
  rewrite overflow_block_slots in Hl. split; [exact Hl|].
  intros [F Hi]. destruct (inv_pool _ _ _ Hi) as [Hl' _]. rewrite pool_create, Hl, MemoryPool.create_capacity in Hl'.
  apply (f_equal Z.of_nat) in Hl'. rewrite overflow_capacity_Z in Hl'. discriminate.
Qed.

(** ** The report of a run *)

(** The throughput [Simulator::run] prints on its boundary cases.
    When the clock reads the same time at [start] and [stop] (a run
    faster than the clock's resolution), [elapsed_ms] is 0 and the
    throughput of a non-empty run is [+inf]; of an empty run, NaN
    ([0.0 / 0.0]).  When the clock steps back between the two readings
    ([high_resolution_clock] is [system_clock] in libstdc++, which is not
    steady), the throughput is negative. *)
Example throughput_boundaries :
  let sm := Simulator.create (create (P:=float) 4) in
  let d := Simulator.mk_draw 150%float 10 false false in
  option_map (fun r => Simulator.r_throughput r.2) (Simulator.run_timed 0%float sm [d] 5 5)
    = Some PrimFloat.infinity /\
  option_map (fun r => PrimFloat.is_nan (Simulator.r_throughput r.2)) (Simulator.run_timed 0%float sm [] 5 5)
    = Some true /\
  option_map (fun r => PrimFloat.ltb (Simulator.r_throughput r.2) 0%float) (Simulator.run_timed 0%float sm [d] 5 3)
    = Some true.
Proof. vm_compute. auto. Qed.

End Findings.
