(* ===== verification/Witnesses.v ===== *)
(** * Instances of the theorems on concrete books

    Each theorem with hypotheses is applied here to a concrete book with
    integer prices, its hypotheses discharged by evaluation (and, for
    well-formedness, by the lemmas that the constructor and
    [processOrder] establish the invariant). *)

From Stdlib Require Import Floats.
From stdpp Require Import strings.
From S2P Require Import Prelude Order Double MemoryPool PriceLevels OrderBook BookInvariant WfCheck Matching ProcessOrder Cancel Refinement Simulator Main Rng Distributions DoubleOrder Seeded.
Local Open Scope Z_scope.

Module Witnesses.
Import OrderBook BookInvariant Matching ProcessOrder Cancel.

Abbreviation zbook := (@OrderBook.t Z).

(** The book after one submission, or the book itself if it failed. *)
Definition after (b : zbook) (id price qty : Z) (s : Side) (ty : OType) : zbook :=
  default b (fst <$> processOrder b id id price qty s ty).

Definition fills_after (b : zbook) (id price qty : Z) (s : Side) (ty : OType) : list (Fill.t Z) :=
  default [] (snd <$> processOrder b id id price qty s ty).

(** An empty book of three slots, and the book with one SELL limit
    (id 1, price 100, quantity 50) resting. *)
Definition bk0 : zbook := create 3.
Definition bk1 : zbook := after bk0 1 100 50 SELL LIMIT.

(** A book of five slots with two SELL limits at 100 (ids 1 then 2)
    and one at 101 (id 3). *)
Definition bkq : zbook :=
  after (after (after (create 5) 1 100 10 SELL LIMIT) 2 100 10 SELL LIMIT) 3 101 10 SELL LIMIT.

(** A book of one slot, full. *)
Definition bkfull : zbook := after (create 1) 1 100 50 SELL LIMIT.

(** ** Well-formedness of the concrete books *)

Lemma wf_create n : Z.of_nat n * MemoryPool.sizeof_Order < 2 ^ 64 -> wf (create (P:=Z) n).
Proof. intros Hn. eexists. by apply create_inv. Qed.

Lemma wf_after (b : zbook) id price qty s ty :
  wf b -> 0 <= qty < 2 ^ 32 -> id_map_ b !! id = None -> wf (after b id price qty s ty).
Proof.
  intros [F Hi] Hq Hf.
  destruct (processOrder_step b F id id price qty s ty Hi Hq Hf) as (b' & fl & F' & Hp & Hi' & _).
  unfold after. rewrite Hp. simpl. by exists F'.
Qed.

Lemma wf_bk0 : wf bk0.
Proof. apply wf_create. vm_compute. reflexivity. Qed.

Lemma wf_bk1 : wf bk1.
Proof. apply wf_after; [exact wf_bk0|lia|reflexivity]. Qed.

(** Decided by running the check [wfb]. *)
Lemma wf_bkq : wf bkq.
Proof. apply WfCheck.wfb_correct. vm_compute. reflexivity. Qed.

Lemma wf_bkfull : wf bkfull.
Proof. apply wf_after; [apply wf_create; vm_compute; reflexivity|lia|reflexivity]. Qed.

(** ** Witnesses *)

(** Discharge the leading conjuncts from the context. *)
Ltac take_hyps := repeat (split; [eassumption|]).

Lemma processOrder_wf_witness :
  wf bk1 /\ 0 <= 30 < 2 ^ 32 /\ id_map_ bk1 !! 2 = None /\
  exists b' fills, processOrder bk1 2 2 100 30 BUY LIMIT = Some (b', fills) /\ wf b'.
Proof.
  assert (Hq : 0 <= 30 < 2 ^ 32) by lia. assert (Hf : id_map_ bk1 !! 2 = None) by reflexivity.
  pose proof wf_bk1 as Hw. take_hyps.
  exact (processOrder_wf bk1 2 2 100 30 BUY LIMIT wf_bk1 Hq Hf).
Defined.

Lemma cancelOrder_wf_witness : wf bk1 /\ wf (cancelOrder bk1 1).1.
Proof. split; [exact wf_bk1|exact (cancelOrder_wf bk1 1 wf_bk1)]. Defined.

(** Cancelling order 2, the second of the two SELL limits at 100. *)
Lemma cancelOrder_queues_witness :
  wf bkq /\
  queue_order (pool_ (cancelOrder bkq 2).1) (side_levels (cancelOrder bkq 2).1 SELL)
    = filter (fun e => e.1 <> 2) (queue_order (pool_ bkq) (side_levels bkq SELL)).
Proof. split; [exact wf_bkq|exact (cancelOrder_queues bkq 2 SELL wf_bkq)]. Defined.

Lemma create_wf_witness : Z.of_nat 3 * MemoryPool.sizeof_Order < 2 ^ 64 /\ wf (create (P:=Z) 3).
Proof.
  assert (Hn : Z.of_nat 3 * MemoryPool.sizeof_Order < 2 ^ 64) by (vm_compute; reflexivity).
  split; [exact Hn|exact (create_wf 3 Hn)].
Defined.

Lemma processOrder_conservation_witness :
  wf bk1 /\ 0 <= 30 < 2 ^ 32 /\
  processOrder bk1 2 2 100 30 BUY LIMIT
    = Some (after bk1 2 100 30 BUY LIMIT, fills_after bk1 2 100 30 BUY LIMIT) /\
  fills_total (fills_after bk1 2 100 30 BUY LIMIT) <= 30 /\
  Forall (fun f => Fill.incoming_id f = 2 /\ 0 < Fill.quantity f) (fills_after bk1 2 100 30 BUY LIMIT).
Proof.
  assert (Hq : 0 <= 30 < 2 ^ 32) by lia.
  assert (Hp : processOrder bk1 2 2 100 30 BUY LIMIT
               = Some (after bk1 2 100 30 BUY LIMIT, fills_after bk1 2 100 30 BUY LIMIT))
    by (vm_compute; reflexivity).
  pose proof wf_bk1 as Hw. take_hyps.
  exact (processOrder_conservation bk1 2 2 100 30 BUY LIMIT _ _ wf_bk1 Hq Hp).
Defined.

Lemma processOrder_fifo_witness :
  wf bkq /\ 0 <= 25 < 2 ^ 32 /\
  processOrder bkq 4 4 101 25 BUY LIMIT
    = Some (after bkq 4 101 25 BUY LIMIT, fills_after bkq 4 101 25 BUY LIMIT) /\
  (let Q := queue_order (pool_ bkq) (side_levels bkq (opposite BUY)) in
   fill_key <$> fills_after bkq 4 101 25 BUY LIMIT `prefix_of` Q /\
   exists n, queue_order (pool_ (after bkq 4 101 25 BUY LIMIT))
                         (side_levels (after bkq 4 101 25 BUY LIMIT) (opposite BUY)) = drop n Q /\
     (length (fills_after bkq 4 101 25 BUY LIMIT) = n \/ length (fills_after bkq 4 101 25 BUY LIMIT) = S n)).
Proof.
  assert (Hq : 0 <= 25 < 2 ^ 32) by lia.
  assert (Hp : processOrder bkq 4 4 101 25 BUY LIMIT
               = Some (after bkq 4 101 25 BUY LIMIT, fills_after bkq 4 101 25 BUY LIMIT))
    by (vm_compute; reflexivity).
  pose proof wf_bkq as Hw. take_hyps.
  exact (processOrder_fifo bkq 4 4 101 25 BUY LIMIT _ _ wf_bkq Hq Hp).
Defined.

Lemma processOrder_liquidity_witness :
  wf bk1 /\ 0 <= 100 < 2 ^ 32 /\
  processOrder bk1 2 2 0 100 BUY MARKET
    = Some (after bk1 2 0 100 BUY MARKET, fills_after bk1 2 0 100 BUY MARKET) /\
  (let accept := tradable (gated MARKET) BUY 0 in
   let before := liquidity accept (pool_ bk1) (side_levels bk1 (opposite BUY)) in
   fills_total (fills_after bk1 2 0 100 BUY MARKET) +
     liquidity accept (pool_ (after bk1 2 0 100 BUY MARKET))
               (side_levels (after bk1 2 0 100 BUY MARKET) (opposite BUY)) = before /\
   fills_total (fills_after bk1 2 0 100 BUY MARKET) <= Z.min 100 before).
Proof.
  assert (Hq : 0 <= 100 < 2 ^ 32) by lia.
  assert (Hp : processOrder bk1 2 2 0 100 BUY MARKET
               = Some (after bk1 2 0 100 BUY MARKET, fills_after bk1 2 0 100 BUY MARKET))
    by (vm_compute; reflexivity).
  pose proof wf_bk1 as Hw. take_hyps.
  exact (processOrder_liquidity bk1 2 2 0 100 BUY MARKET _ _ wf_bk1 Hq Hp).
Defined.

Lemma limit_price_gate_witness :
  wf bk1 /\ 0 <= 30 < 2 ^ 32 /\
  processOrder bk1 2 2 100 30 BUY LIMIT
    = Some (after bk1 2 100 30 BUY LIMIT, [Fill.mk Z 1 2 30 100]) /\
  Forall (fun f => match BUY with
                   | BUY => price_lt 100 (Fill.price f) = false
                   | SELL => price_lt (Fill.price f) 100 = false end) [Fill.mk Z 1 2 30 100].
Proof.
  assert (Hq : 0 <= 30 < 2 ^ 32) by lia.
  assert (Hp : processOrder bk1 2 2 100 30 BUY LIMIT
               = Some (after bk1 2 100 30 BUY LIMIT, [Fill.mk Z 1 2 30 100]))
    by (vm_compute; reflexivity).
  pose proof wf_bk1 as Hw. take_hyps.
  exact (limit_price_gate bk1 2 2 100 30 BUY _ _ wf_bk1 Hq Hp).
Defined.

Lemma processOrder_priority_witness :
  wf bk1 /\
  processOrder bk1 2 2 100 30 BUY LIMIT
    = Some (after bk1 2 100 30 BUY LIMIT, Fill.mk Z 1 2 30 100 :: []) /\
  exists best r q rest,
    side_levels bk1 (opposite BUY) = (best, r :: q) :: rest /\
    Fill.resting_id (Fill.mk Z 1 2 30 100) = Order.id (MemoryPool.read (pool_ bk1) r) /\
    Fill.price (Fill.mk Z 1 2 30 100) = best /\
    Fill.quantity (Fill.mk Z 1 2 30 100) = Z.min 30 (Order.quantity (MemoryPool.read (pool_ bk1) r)).
Proof.
  assert (Hp : processOrder bk1 2 2 100 30 BUY LIMIT
               = Some (after bk1 2 100 30 BUY LIMIT, Fill.mk Z 1 2 30 100 :: []))
    by (vm_compute; reflexivity).
  pose proof wf_bk1 as Hw. take_hyps.
  exact (processOrder_priority bk1 2 2 100 30 BUY LIMIT _ _ _ wf_bk1 Hp).
Defined.

Lemma limit_remainder_rests_witness :
  wf bk1 /\ 0 <= 80 < 2 ^ 32 /\
  totalActiveOrders bk1 < Z.of_nat (MemoryPool.capacity (pool_ bk1)) /\
  processOrder bk1 2 2 100 80 BUY LIMIT
    = Some (after bk1 2 100 80 BUY LIMIT, [Fill.mk Z 1 2 50 100]) /\
  fills_total [Fill.mk Z 1 2 50 100] < 80 /\
  exists h, id_map_ (after bk1 2 100 80 BUY LIMIT) !! 2 = Some h /\
    MemoryPool.read (pool_ (after bk1 2 100 80 BUY LIMIT)) h
      = Order.make 2 2 100 (80 - fills_total [Fill.mk Z 1 2 50 100]) BUY LIMIT /\
    PriceLevels.find (side_cmp BUY) (side_levels (after bk1 2 100 80 BUY LIMIT) BUY) 100 =
      Some (default [] (PriceLevels.find (side_cmp BUY) (side_levels bk1 BUY) 100) ++ [h]).
Proof.
  assert (Hq : 0 <= 80 < 2 ^ 32) by lia.
  assert (Hc : totalActiveOrders bk1 < Z.of_nat (MemoryPool.capacity (pool_ bk1)))
    by (vm_compute; reflexivity).
  assert (Hp : processOrder bk1 2 2 100 80 BUY LIMIT
               = Some (after bk1 2 100 80 BUY LIMIT, [Fill.mk Z 1 2 50 100]))
    by (vm_compute; reflexivity).
  assert (Ht : fills_total [Fill.mk Z 1 2 50 100] < 80) by (vm_compute; reflexivity).
  pose proof wf_bk1 as Hw. take_hyps.
  exact (limit_remainder_rests bk1 2 2 100 80 BUY _ _ wf_bk1 Hq Hc Hp Ht).
Defined.

Lemma no_rest_without_remainder_witness :
  wf bk1 /\ 0 <= 80 < 2 ^ 32 /\
  processOrder bk1 3 3 0 80 BUY MARKET
    = Some (after bk1 3 0 80 BUY MARKET, [Fill.mk Z 1 3 50 100]) /\
  (MARKET = MARKET \/ fills_total [Fill.mk Z 1 3 50 100] = 80) /\
  id_map_ (after bk1 3 0 80 BUY MARKET) ⊆ id_map_ bk1 /\
  side_levels (after bk1 3 0 80 BUY MARKET) BUY = side_levels bk1 BUY.
Proof.
  assert (Hq : 0 <= 80 < 2 ^ 32) by lia.
  assert (Hp : processOrder bk1 3 3 0 80 BUY MARKET
               = Some (after bk1 3 0 80 BUY MARKET, [Fill.mk Z 1 3 50 100]))
    by (vm_compute; reflexivity).
  assert (Hm : MARKET = MARKET \/ fills_total [Fill.mk Z 1 3 50 100] = 80) by (left; reflexivity).
  pose proof wf_bk1 as Hw. take_hyps.
  exact (no_rest_without_remainder bk1 3 3 0 80 BUY MARKET _ _ wf_bk1 Hq Hp Hm).
Defined.

Lemma processOrder_pool_full_witness :
  wf bkfull /\ totalActiveOrders bkfull = Z.of_nat (MemoryPool.capacity (pool_ bkfull)) /\
  processOrder bkfull 2 2 100 30 BUY LIMIT = Some (bkfull, []).
Proof.
  assert (Hc : totalActiveOrders bkfull = Z.of_nat (MemoryPool.capacity (pool_ bkfull)))
    by (vm_compute; reflexivity).
  pose proof wf_bkfull as Hw. take_hyps.
  exact (processOrder_pool_full bkfull 2 2 100 30 BUY LIMIT wf_bkfull Hc).
Defined.

Lemma cancelOrder_result_witness :
  wf bk1 /\
  (cancelOrder bk1 1).2 = bool_decide (is_Some (id_map_ bk1 !! 1)) /\
  id_map_ (cancelOrder bk1 1).1 = delete 1 (id_map_ bk1) /\
  totalActiveOrders (cancelOrder bk1 1).1 =
    totalActiveOrders bk1 - (if (cancelOrder bk1 1).2 then 1 else 0).
Proof. split; [exact wf_bk1|exact (cancelOrder_result bk1 1 wf_bk1)]. Defined.

Lemma cancelOrder_twice_witness :
  wf bk1 /\ (cancelOrder (cancelOrder bk1 1).1 1).2 = false.
Proof. split; [exact wf_bk1|exact (cancelOrder_twice bk1 1 wf_bk1)]. Defined.

(** The draws of the witnesses of [main]: [gen_draw] alternates BUY and
    SELL limits at 150 for 500; [gen_buy] makes BUY limits at 90, 89,
    88, ... for 5. *)
Definition gen_draw (i : nat) : Simulator.draw (P:=Z) := Simulator.mk_draw 150 500 (Nat.even i) false.
Definition gen_buy (i : nat) : Simulator.draw (P:=Z) := Simulator.mk_draw (90 - Z.of_nat i) 5 true false.

Lemma gen_draw_qty i : 0 <= Simulator.d_qty (gen_draw i) < 2 ^ 32.
Proof. cbn. lia. Qed.

Lemma gen_buy_qty i : 0 <= Simulator.d_qty (gen_buy i) < 2 ^ 32.
Proof. cbn. lia. Qed.

(** Three orders on a pool of three slots, the clock read at 0 and 1000 ns. *)
Lemma main_returns_witness :
  0 <= 3 /\ 3 * MemoryPool.sizeof_Order < 2 ^ 64 /\ 0 <= 3 /\ 3 + 1 < 2 ^ 64 /\
  (forall i, 0 <= Simulator.d_qty (gen_draw i) < 2 ^ 32) /\
  exists sm o, Simulator.run 0 (Simulator.create (create (Z.to_nat 3))) (gen_draw <$> seq 0 (Z.to_nat 3)) = Some sm /\
    wf (Simulator.book_ sm) /\ Main.main 0 3 3 gen_draw 0 1000 = Some o /\
    Main.o_capacity o = 3 /\ Main.o_total o = 3 /\ Simulator.r_orders (Main.o_report o) = 3 /\
    Main.o_active o = Z.of_nat (size (id_map_ (Simulator.book_ sm))).
Proof.
  assert (Hc : 0 <= 3) by lia. assert (Hs : 3 * MemoryPool.sizeof_Order < 2 ^ 64) by (vm_compute; reflexivity).
  assert (Ht : 3 + 1 < 2 ^ 64) by lia.
  refine (conj Hc (conj Hs (conj Hc (conj Ht (conj gen_draw_qty _))))).
  exact (Main.main_returns 0 3 3 gen_draw 0 1000 Hc Hs Hc Ht gen_draw_qty).
Defined.

(** A MARKET BUY for 5 against [bkq] trades: the asks are the level
    100 (slots 4 then 3) and the level 101 (slot 2). *)
Lemma processOrder_progress_witness :
  wf bkq /\ 0 < 5 < 2 ^ 32 /\ totalActiveOrders bkq < Z.of_nat (MemoryPool.capacity (pool_ bkq)) /\
  side_levels bkq (opposite BUY) = (100, [4; 3]%nat) :: [(101, [2]%nat)] /\
  tradable (gated MARKET) BUY 0 100 = true /\
  exists b' f fills, processOrder bkq 6 6 0 5 BUY MARKET = Some (b', f :: fills).
Proof.
  assert (Hq : 0 < 5 < 2 ^ 32) by lia.
  assert (Hc : totalActiveOrders bkq < Z.of_nat (MemoryPool.capacity (pool_ bkq))) by (vm_compute; reflexivity).
  assert (Hs : side_levels bkq (opposite BUY) = (100, [4; 3]%nat) :: [(101, [2]%nat)]) by (vm_compute; reflexivity).
  assert (Ht : tradable (gated MARKET) BUY 0 100 = true) by reflexivity.
  pose proof wf_bkq as Hw. take_hyps.
  exact (processOrder_progress bkq 6 6 0 5 BUY MARKET _ _ _ wf_bkq Hq Hc Hs Ht).
Defined.

(** Price equivalence is equality on integer prices. *)
Lemma Z_price_total (a c : Z) : price_lt a c = false -> price_lt c a = false -> a = c.
Proof. unfold price_lt, Z_price_lt. rewrite !Z.ltb_ge. lia. Qed.

Lemma cancelOrder_refines_witness :
  wf bkq /\ (Refinement.abstr (cancelOrder bkq 2).1, (cancelOrder bkq 2).2)
            = Refinement.acancel (Refinement.abstr bkq) 2.
Proof. pose proof wf_bkq as Hw. take_hyps. exact (Refinement.cancelOrder_refines bkq 2 wf_bkq). Defined.

(** A BUY limit at 100 for 25 against [bkq]: it takes both orders at
    100, stops at 101 and rests its remaining 5. *)
Lemma processOrder_refines_witness :
  (forall a c : Z, price_lt a c = false -> price_lt c a = false -> a = c) /\ wf bkq /\ 0 <= 25 < 2 ^ 32 /\
  processOrder bkq 6 6 100 25 BUY LIMIT
    = Some (after bkq 6 100 25 BUY LIMIT, fills_after bkq 6 100 25 BUY LIMIT) /\
  (Refinement.abstr (after bkq 6 100 25 BUY LIMIT), fills_after bkq 6 100 25 BUY LIMIT)
    = Refinement.asubmit (Refinement.abstr bkq) (Refinement.has_room bkq) 6 100 25 BUY LIMIT.
Proof.
  assert (Hq : 0 <= 25 < 2 ^ 32) by lia.
  assert (Hp : processOrder bkq 6 6 100 25 BUY LIMIT
               = Some (after bkq 6 100 25 BUY LIMIT, fills_after bkq 6 100 25 BUY LIMIT))
    by (vm_compute; reflexivity).
  pose proof Z_price_total as Ht. pose proof wf_bkq as Hw. take_hyps.
  exact (Refinement.processOrder_refines Z_price_total bkq 6 6 100 25 BUY LIMIT _ _ wf_bkq Hq Hp).
Defined.

(** A session on an empty book of three slots: two SELL limits rest,
    a MARKET BUY takes the first and part of the second, the rest of
    the second is cancelled, and a cancel of an unknown id fails. *)
Definition session : list (Refinement.op (P:=Z)) :=
  [Refinement.SubmitOp 1 1 100 10 SELL LIMIT; Refinement.SubmitOp 2 2 101 5 SELL LIMIT;
   Refinement.SubmitOp 3 3 0 12 BUY MARKET; Refinement.CancelOp 2; Refinement.CancelOp 7].

Lemma exec_refines_witness :
  (forall a c : Z, price_lt a c = false -> price_lt c a = false -> a = c) /\ wf bk0 /\
  Refinement.ops_ok (MemoryPool.capacity (pool_ bk0)) (Refinement.abstr bk0) session = true /\
  exists b' rs, Refinement.exec bk0 session = Some (b', rs) /\ wf b' /\
    (Refinement.abstr b', rs) = Refinement.aexec (MemoryPool.capacity (pool_ bk0)) (Refinement.abstr bk0) session.
Proof.
  assert (Ho : Refinement.ops_ok (MemoryPool.capacity (pool_ bk0)) (Refinement.abstr bk0) session = true)
    by (vm_compute; reflexivity).
  pose proof Z_price_total as Ht. pose proof wf_bk0 as Hw. take_hyps.
  exact (Refinement.exec_refines Z_price_total bk0 session wf_bk0 Ho).
Defined.

Lemma session_quantities_witness :
  wf bk0 /\ Refinement.session_ok bk0 session = true /\
  exists b' rs, Refinement.exec bk0 session = Some (b', rs) /\ wf b' /\
    Forall (fun e => 0 < Refinement.e_qty e < 2 ^ 32)
           (Refinement.a_bids (Refinement.abstr b') ++ Refinement.a_asks (Refinement.abstr b')).
Proof.
  assert (Ho : Refinement.session_ok bk0 session = true) by (vm_compute; reflexivity).
  pose proof wf_bk0 as Hw. take_hyps.
  exact (Refinement.session_quantities bk0 session wf_bk0 Ho).
Defined.

Lemma processOrder_fills_bounded_witness :
  wf bkq /\ 0 <= 25 < 2 ^ 32 /\
  processOrder bkq 4 4 101 25 BUY LIMIT
    = Some (after bkq 4 101 25 BUY LIMIT, fills_after bkq 4 101 25 BUY LIMIT) /\
  (length (fills_after bkq 4 101 25 BUY LIMIT) <= length (PriceLevels.handles (side_levels bkq (opposite BUY))))%nat.
Proof.
  assert (Hq : 0 <= 25 < 2 ^ 32) by lia.
  assert (Hp : processOrder bkq 4 4 101 25 BUY LIMIT
               = Some (after bkq 4 101 25 BUY LIMIT, fills_after bkq 4 101 25 BUY LIMIT))
    by (vm_compute; reflexivity).
  pose proof wf_bkq as Hw. take_hyps.
  exact (processOrder_fills_bounded bkq 4 4 101 25 BUY LIMIT _ _ wf_bkq Hq Hp).
Defined.

(** Three BUY limits on a pool of one slot: the first rests, the two
    others find the pool full and are dropped. *)
Definition bounded_output : Main.output :=
  default (Main.mk_output 0 0 (Simulator.mk_report 0 PrimFloat.zero PrimFloat.zero) 0) (Main.main 0 1 3 gen_buy 0 1000).

Lemma main_bounded_witness :
  0 <= 1 /\ 1 * MemoryPool.sizeof_Order < 2 ^ 64 /\ 0 <= 3 /\ 3 + 1 < 2 ^ 64 /\
  (forall i, 0 <= Simulator.d_qty (gen_buy i) < 2 ^ 32) /\
  Main.main 0 1 3 gen_buy 0 1000 = Some bounded_output /\ Main.o_active bounded_output = 1 /\
  0 <= Main.o_active bounded_output <= 1.
Proof.
  assert (Hc : 0 <= 1) by lia. assert (Hs : 1 * MemoryPool.sizeof_Order < 2 ^ 64) by (vm_compute; reflexivity).
  assert (Ht : 0 <= 3) by lia. assert (Ht' : 3 + 1 < 2 ^ 64) by lia.
  assert (Hm : Main.main 0 1 3 gen_buy 0 1000 = Some bounded_output) by (vm_compute; reflexivity).
  assert (Ha : Main.o_active bounded_output = 1) by (vm_compute; reflexivity).
  refine (conj Hc (conj Hs (conj Ht (conj Ht' (conj gen_buy_qty (conj Hm (conj Ha _))))))).
  exact (Main.main_bounded 0 1 3 gen_buy 0 1000 _ Hc Hs Ht Ht' gen_buy_qty Hm).
Defined.

(** The defaults of [main]: with no argument, 1'000'000 orders on
    2'000'000 slots; the last order of the run finds a free slot. *)

Lemma run_never_full_witness :
  Main.parse_args (fun _ => None) ["lob"%string]
    = Some (Main.default_total_orders, Main.default_pool_capacity) /\
  let cap := Z.to_nat Main.default_pool_capacity in
  let draws := gen_draw <$> seq 0 (Z.to_nat Main.default_total_orders) in
  Z.of_nat cap * MemoryPool.sizeof_Order < 2 ^ 64 /\ Forall (fun d => 0 <= Simulator.d_qty d < 2 ^ 32) draws /\
  (length draws <= cap)%nat /\ (Z.to_nat 999999 < length draws)%nat /\
  exists sm i, Simulator.run 0 (Simulator.create (create cap)) (take (Z.to_nat 999999) draws) = Some sm /\
    totalActiveOrders (Simulator.book_ sm) < Z.of_nat cap /\
    (MemoryPool.allocate (pool_ (Simulator.book_ sm))).2 = Some i.
Proof.
  split; [reflexivity|]. intros cap draws.
  unfold Main.default_pool_capacity, Main.default_total_orders in cap, draws.
  assert (Hc : Z.of_nat cap * MemoryPool.sizeof_Order < 2 ^ 64) by (unfold cap, MemoryPool.sizeof_Order; lia).
  assert (Hq : Forall (fun d => 0 <= Simulator.d_qty d < 2 ^ 32) draws)
    by (apply Forall_fmap, Forall_forall; intros i _; cbn; lia).
  assert (Hl : (length draws <= cap)%nat) by (unfold draws, cap; rewrite length_fmap, length_seq; lia).
  assert (Hk : (Z.to_nat 999999 < length draws)%nat) by (unfold draws; rewrite length_fmap, length_seq; lia).
  refine (conj Hc (conj Hq (conj Hl (conj Hk _)))). exact (Simulator.run_never_full 0 cap draws _ Hc Hq Hl Hk).
Defined.

(** A [std::stoull] that knows two numerals. *)
Definition stoull_small (a : string) : option Z :=
  if String.eqb a "3" then Some 3 else if String.eqb a "2" then Some 2 else None.


(** Four alternating limits at 150 for 500 on a pool of three slots. *)
Lemma run_refines_witness :
  (forall a c : Z, price_lt a c = false -> price_lt c a = false -> a = c) /\
  Z.of_nat 3 * MemoryPool.sizeof_Order < 2 ^ 64 /\
  Forall (fun d => 0 <= Simulator.d_qty d < 2 ^ 32) (gen_draw <$> seq 0 4) /\
  1 + Z.of_nat (length (gen_draw <$> seq 0 4)) < 2 ^ 64 /\
  exists sm rs, Simulator.run 0 (Simulator.create (create 3)) (gen_draw <$> seq 0 4) = Some sm /\
    (Refinement.abstr (Simulator.book_ sm), rs)
      = Refinement.aexec 3 (Refinement.mk_abook [] []) (Simulator.session 0 1 1 (gen_draw <$> seq 0 4)).
Proof.
  assert (Hc : Z.of_nat 3 * MemoryPool.sizeof_Order < 2 ^ 64) by (vm_compute; reflexivity).
  assert (Hq : Forall (fun d => 0 <= Simulator.d_qty d < 2 ^ 32) (gen_draw <$> seq 0 4))
    by (apply Forall_fmap, Forall_forall; intros i _; apply gen_draw_qty).
  assert (Hl : 1 + Z.of_nat (length (gen_draw <$> seq 0 4)) < 2 ^ 64) by (vm_compute; reflexivity).
  refine (conj Z_price_total (conj Hc (conj Hq (conj Hl _)))).
  exact (Simulator.run_refines 0 Z_price_total 3 _ Hc Hq Hl).
Defined.

(** The first size drawn from the engine [main] seeds. *)
Lemma uniform_int_range_witness :
  exists v g', Distributions.uniform_int 0 1 1000 (MT19937_64.seed 12345) = Some (v, g') /\ 1 <= v <= 1000.
Proof.
  destruct (Distributions.uniform_int 0 1 1000 (MT19937_64.seed 12345)) as [[v g']|] eqn:E;
    [|vm_compute in E; discriminate].
  exists v, g'. split; [done|].
  exact (proj1 (Distributions.uniform_int_range 0 1 1000 _ v g' ltac:(lia) ltac:(lia) (MT19937_64.seed_wf 12345) E)).
Defined.


End Witnesses.
